(** * Support chat page (src/pages/Home.tsx): a shallow embedding

    The page keeps a list of conversations in React state, mirrors it to
    local storage, and talks to one remote agent.  This development
    embeds the state-changing code of [Home.tsx] -- the load and save
    effects, [createNewConversation], [addMessageToConversation],
    [handleSendMessage], [handleKeyDown], the input handlers -- and, of
    what is rendered, the search of the sidebar and the sources of
    [MessageBubble].  It checks the properties the specification lists
    for the page, and further properties the code shows.

    Conventions.
    - A JavaScript string is the list of its UTF-16 code units; [length],
      [slice] and [trim] act on code units, as they do in JavaScript.
    - A [Date] made by [new Date()] is its time value, an integer number
      of milliseconds.
    - State setters with an updater function ([setConversations(prev =>
      ...)]) are functions from the previous to the next state.
    - [await callAIAgent(...)] splits [handleSendMessage] in two: the part
      that runs at once, and the part that runs when the call settles. *)

From Stdlib Require Import List ZArith NArith QArith Bool Ascii String Lia.
Import ListNotations.

Set Implicit Arguments.
Set Warnings "-register-all".
Local Open Scope Z_scope.

(** ** Strings *)

Definition code_unit := N.
Definition jsstring := list code_unit.

(** A literal of the source text, as code units. *)
Definition str (s : string) : jsstring :=
  map N_of_ascii (list_ascii_of_string s).

(** [a === b] on strings. *)
Fixpoint str_eqb (a b : jsstring) : bool :=
  match a, b with
  | [], [] => true
  | x :: a', y :: b' => N.eqb x y && str_eqb a' b'
  | _, _ => false
  end.

(** [s.length] *)
Definition js_length (s : jsstring) : Z := Z.of_nat (List.length s).

(** [s.slice(0, n)] for a literal [n >= 0]. *)
Definition slice0 (n : nat) (s : jsstring) : jsstring := firstn n s.

(** Truthiness of a string: the empty string is the only falsy one. *)
Definition truthy (s : jsstring) : bool :=
  match s with [] => false | _ :: _ => true end.

(** White space and line terminators, the code units [trim] strips. *)
Definition is_white_space (c : code_unit) : bool :=
  existsb (N.eqb c)
    [9; 10; 11; 12; 13; 32; 160; 5760; 8232; 8233; 8239; 8287; 12288; 65279]%N
  || (N.leb 8192 c && N.leb c 8202).

Fixpoint trim_start (s : jsstring) : jsstring :=
  match s with
  | c :: s' => if is_white_space c then trim_start s' else s
  | [] => []
  end.

Definition trim_end (s : jsstring) : jsstring := rev (trim_start (rev s)).

(** [s.trim()] *)
Definition trim (s : jsstring) : jsstring := trim_end (trim_start s).

(** [s.slice(0, n) + (s.length > n ? '...' : '')], the expression both the
    title and the preview are computed with. *)
Definition truncate (n : nat) (s : jsstring) : jsstring :=
  slice0 n s ++ (if Z.of_nat n <? js_length s then str "..." else []).

(** Decimal digits of a non-negative integer, for template literals such as
    [`msg-${Date.now()}`]. *)
Fixpoint digits_fuel (fuel : nat) (n : Z) (acc : jsstring) : jsstring :=
  match fuel with
  | O => acc
  | S fuel' =>
      let acc' := Z.to_N (48 + n mod 10) :: acc in
      if n / 10 =? 0 then acc' else digits_fuel fuel' (n / 10) acc'
  end.

Definition Z_to_jsstring (n : Z) : jsstring :=
  if n <? 0 then str "-" ++ digits_fuel (S (Z.to_nat (Z.log2 (- n)))) (- n) []
  else digits_fuel (S (Z.to_nat (Z.log2 n))) n [].

(** ** Data model *)

(** A time value in milliseconds since the epoch. *)
Definition Date := Z.

(** A JavaScript number: a finite one, held as the rational it is, an
    infinity, or [NaN].  The page stores the numbers of the agent's
    response and never computes with them. *)
Inductive number :=
| Finite (q : Q)
| Infinity (negative : bool)
| NaN.

(** A JSON value: what a JSON text denotes, and what the agent's response
    is made of.  A number literal denotes a rational. *)
Inductive json :=
| JNull
| JBool (b : bool)
| JNum (n : Q)
| JStr (s : jsstring)
| JArr (l : list json)
| JObj (props : list (jsstring * json)).

(** Values of the running page: those of JSON, [undefined], and [Date]
    objects.  An invalid [Date] has no time value. *)
Inductive jsval :=
| VUndefined
| VNull
| VBool (b : bool)
| VNum (n : number)
| VStr (s : jsstring)
| VDate (t : option Z)
| VArr (l : list jsval)
| VObj (props : list (jsstring * jsval)).

(** The number a literal is read as.  A literal beyond the doubles, from
    [2^1024 - 2^970] on, is read as an infinity; within the doubles it is
    taken for the number it denotes. *)
Definition double_overflow : Z := 2 ^ 1024 - 2 ^ 970.

Definition overflows (q : Q) : bool :=
  (double_overflow * Zpos (Qden q) <=? Z.abs (Qnum q))%Z.

Definition number_of_literal (q : Q) : number :=
  if overflows q then Infinity (Qnum q <? 0)%Z else Finite q.

(** What [JSON.stringify] writes for a number: [null] for one that is not
    finite. *)
Definition number_json (n : number) : json :=
  match n with
  | Finite q => JNum q
  | Infinity _ | NaN => JNull
  end.

(** A JSON value whose number literals are all within the doubles. *)
Fixpoint within_doubles (j : json) : bool :=
  match j with
  | JNum q => negb (overflows q)
  | JArr l => forallb within_doubles l
  | JObj props => forallb (fun kv => within_doubles (snd kv)) props
  | _ => true
  end.

Inductive Role := agent | user.

Definition Role_eqb (a b : Role) : bool :=
  match a, b with
  | agent, agent | user, user => true
  | _, _ => false
  end.

(** [interface Message].  An optional field that is absent, or present and
    [undefined], is [None]: the page cannot tell the two apart. *)
Module Message.
Record t := mk {
  id : jsstring;
  role : Role;
  content : jsstring;
  timestamp : Date;
  confidence : option number;
  sources : option (list json);
  suggested_followup : option (list jsstring)
}.
End Message.

(** [interface Conversation] *)
Module Conversation.
Record t := mk {
  id : jsstring;
  title : jsstring;
  preview : jsstring;
  timestamp : Date;
  messages : list Message.t
}.
End Conversation.

Abbreviation Message := Message.t.
Abbreviation Conversation := Conversation.t.

(** What [createNewConversation] reads from its environment, in the order
    it reads it: [Date.now()], the nine base-36 digits it takes from
    [Math.random()], [Date.now()] again, and [new Date()] twice. *)
Record Readings := {
  now_conv : Z;
  random_digits : jsstring;
  now_msg : Z;
  date_msg : Date;
  date_conv : Date
}.

Definition welcome_text : jsstring :=
  str "Hi! I'm here to help. Ask me anything about our products and services.".

Definition new_title : jsstring := str "New Conversation".
Definition new_preview : jsstring := str "Hi! I'm here to help...".

Definition createNewConversation (r : Readings) : Conversation :=
  let id := str "conv-" ++ Z_to_jsstring (now_conv r) ++ str "-" ++ random_digits r in
  let welcomeMessage :=
    Message.mk (str "msg-" ++ Z_to_jsstring (now_msg r)) agent welcome_text
               (date_msg r) None None None in
  Conversation.mk id new_title new_preview (date_conv r) [welcomeMessage].

(** The function [addMessageToConversation] maps over the list; [now] is
    the [new Date()] it stamps the conversation with. *)
Definition updateConversation (conversationId : jsstring) (message : Message)
    (now : Date) (conv : Conversation) : Conversation :=
  if str_eqb (Conversation.id conv) conversationId then
    let updatedMessages := Conversation.messages conv ++ [message] in
    let title :=
      if Role_eqb (Message.role message) user
         && str_eqb (Conversation.title conv) new_title
      then truncate 40 (Message.content message)
      else Conversation.title conv in
    let preview := truncate 60 (Message.content message) in
    Conversation.mk (Conversation.id conv) title preview now updatedMessages
  else conv.

Definition addMessageToConversation (conversationId : jsstring)
    (message : Message) (now : Date) (prev : list Conversation)
    : list Conversation :=
  map (updateConversation conversationId message now) prev.


(** ** The agent call *)

Definition AGENT_ID : jsstring := str "696608c9c831c63e265e1355".

Definition QUICK_REPLIES : list jsstring :=
  [str "Pricing"; str "How to get started"; str "Return policy";
   str "Contact sales"].

(** [interface SupportResult] *)
Module SupportResult.
Record t := mk {
  answer : jsstring;
  sources : list json;
  confidence : number;
  suggested_followup : list jsstring
}.
End SupportResult.

Inductive Status := status_success | status_error.

(** [interface SupportResponse]; its optional [metadata] is never read. *)
Module SupportResponse.
Record t := mk {
  status : Status;
  result : SupportResult.t
}.
End SupportResponse.

(** Modelled from the spec: the type [NormalizedAgentResponse] that
    [callAIAgent] resolves with is declared in [@/utils/aiAgent], which is
    not among the sources.  [handleSendMessage] reads three of its fields:
    [success], [response] (cast to [SupportResponse]) and [error]; the
    specification describes the call as returning "a record with status,
    an answer string, a confidence number, a list of sources (untyped),
    and a list of follow-up-question strings, or an error string". *)
Module AgentResult.
Record t := mk {
  success : bool;
  response : option SupportResponse.t;
  error : option jsstring
}.
End AgentResult.

(** How [await callAIAgent(...)] ends. *)
Inductive Outcome :=
| Resolved (result : AgentResult.t)
| Rejected.

(** ** Page state *)

(** The [useState] cells of [Home]. *)
Record State := mkState {
  conversations : list Conversation;
  activeConversationId : jsstring;
  inputValue : jsstring;
  isTyping : bool;
  isSidebarOpen : bool;
  searchQuery : jsstring;
  showFeatureRequest : bool;
  featureRequestText : jsstring
}.

Definition setConversations (f : list Conversation -> list Conversation)
    (s : State) : State :=
  mkState (f (conversations s)) (activeConversationId s) (inputValue s)
          (isTyping s) (isSidebarOpen s) (searchQuery s)
          (showFeatureRequest s) (featureRequestText s).

Definition setActiveConversationId (v : jsstring) (s : State) : State :=
  mkState (conversations s) v (inputValue s) (isTyping s) (isSidebarOpen s)
          (searchQuery s) (showFeatureRequest s) (featureRequestText s).

Definition setInputValue (v : jsstring) (s : State) : State :=
  mkState (conversations s) (activeConversationId s) v (isTyping s)
          (isSidebarOpen s) (searchQuery s) (showFeatureRequest s)
          (featureRequestText s).

Definition setIsTyping (v : bool) (s : State) : State :=
  mkState (conversations s) (activeConversationId s) (inputValue s) v
          (isSidebarOpen s) (searchQuery s) (showFeatureRequest s)
          (featureRequestText s).

Definition setIsSidebarOpen (v : bool) (s : State) : State :=
  mkState (conversations s) (activeConversationId s) (inputValue s)
          (isTyping s) v (searchQuery s) (showFeatureRequest s)
          (featureRequestText s).

Definition setSearchQuery (v : jsstring) (s : State) : State :=
  mkState (conversations s) (activeConversationId s) (inputValue s)
          (isTyping s) (isSidebarOpen s) v (showFeatureRequest s)
          (featureRequestText s).

Definition setShowFeatureRequest (v : bool) (s : State) : State :=
  mkState (conversations s) (activeConversationId s) (inputValue s)
          (isTyping s) (isSidebarOpen s) (searchQuery s) v
          (featureRequestText s).

Definition setFeatureRequestText (v : jsstring) (s : State) : State :=
  mkState (conversations s) (activeConversationId s) (inputValue s)
          (isTyping s) (isSidebarOpen s) (searchQuery s)
          (showFeatureRequest s) v.

(** [conversations.find(c => c.id === activeConversationId)] *)
Definition activeConversation (s : State) : option Conversation :=
  find (fun c => str_eqb (Conversation.id c) (activeConversationId s))
       (conversations s).

(** ** Sending a message *)

(** What one half of [handleSendMessage] reads from the clock: the
    [Date.now()] of the message id, the [new Date()] of the message, and
    the [new Date()] inside [addMessageToConversation]. *)
Record Clock := {
  date_now : Z;
  new_date_message : Date;
  new_date_update : Date
}.

(** A call to [callAIAgent] that has not settled: its two arguments, and
    the [activeConversationId] the continuation closed over. *)
Record Pending := {
  call_message : jsstring;
  call_agent_id : jsstring;
  target : jsstring
}.

Definition generic_error : jsstring :=
  str "Sorry, I encountered an error. Please try again.".

Definition thrown_error : jsstring :=
  str "Sorry, something went wrong. Please try again.".

(** [a || b] on strings, the left one possibly [undefined]. *)
Definition or_else (a : option jsstring) (b : jsstring) : jsstring :=
  match a with
  | Some x => if truthy x then x else b
  | None => b
  end.

Definition userMessage (c : Clock) (textToSend : jsstring) : Message :=
  Message.mk (str "msg-" ++ Z_to_jsstring (date_now c) ++ str "-user") user
             textToSend (new_date_message c) None None None.

Definition agentMessage (c : Clock) (response : SupportResponse.t) : Message :=
  let r := SupportResponse.result response in
  Message.mk (str "msg-" ++ Z_to_jsstring (date_now c) ++ str "-agent") agent
             (SupportResult.answer r) (new_date_message c)
             (Some (SupportResult.confidence r))
             (Some (SupportResult.sources r))
             (Some (SupportResult.suggested_followup r)).

Definition errorMessage (c : Clock) (text : jsstring) : Message :=
  Message.mk (str "msg-" ++ Z_to_jsstring (date_now c) ++ str "-agent") agent
             text (new_date_message c) None None None.

(** [handleSendMessage] up to its [await]: the guard, the user message, the
    two setters, and the call it starts.  [None] is the early [return]. *)
Definition handleSendMessage_start (messageText : option jsstring) (c : Clock)
    (s : State) : State * option Pending :=
  let textToSend := or_else messageText (trim (inputValue s)) in
  if negb (truthy textToSend) || negb (truthy (activeConversationId s))
  then (s, None)
  else
    let s1 := setConversations
                (addMessageToConversation (activeConversationId s)
                   (userMessage c textToSend) (new_date_update c)) s in
    let s2 := setInputValue [] s1 in
    let s3 := setIsTyping true s2 in
    (s3, Some (Build_Pending textToSend AGENT_ID (activeConversationId s))).

(** The message the rest of [handleSendMessage] appends: the agent's answer
    in the [if] branch, the error of the result in the [else] branch, the
    fixed text in the [catch] block. *)
Definition reply_message (c : Clock) (o : Outcome) : Message :=
  match o with
  | Resolved result =>
      match AgentResult.success result, AgentResult.response result with
      | true, Some response => agentMessage c response
      | _, _ => errorMessage c (or_else (AgentResult.error result) generic_error)
      end
  | Rejected => errorMessage c thrown_error
  end.

(** [handleSendMessage] from its [await] on, run when the call settles on
    the state of that moment; [finally] clears the typing flag. *)
Definition handleSendMessage_settle (p : Pending) (o : Outcome) (c : Clock)
    (s : State) : State :=
  let s1 := setConversations
              (addMessageToConversation (target p) (reply_message c o)
                 (new_date_update c)) s in
  setIsTyping false s1.

(** [console.error] is called once, in the [catch] block. *)
Definition settle_console (o : Outcome) : list jsstring :=
  match o with
  | Rejected => [str "Failed to send message:"]
  | Resolved _ => []
  end.

(** ** The other handlers *)

(** [onChange] of the message box. *)
Definition handleInputChange (value : jsstring) (s : State) : State :=
  if js_length value <=? 500 then setInputValue value s else s.

(** The listener for the window event ['send-suggested-question'];
    [detail] is the question carried by the event. *)
Definition handleSuggestedQuestion (detail : jsstring) (s : State) : State :=
  setInputValue detail s.

Definition handleNewConversation (r : Readings) (s : State) : State :=
  let newConv := createNewConversation r in
  setActiveConversationId (Conversation.id newConv)
    (setConversations (fun prev => newConv :: prev) s).

(** [handleFeatureRequest]; the flag tells whether it reached
    [console.log]. *)
Definition handleFeatureRequest (s : State) : State * bool :=
  if negb (truthy (trim (featureRequestText s))) then (s, false)
  else (setShowFeatureRequest false (setFeatureRequestText [] s), true).

(** [disabled] of the send button. *)
Definition send_disabled (s : State) : bool :=
  negb (truthy (trim (inputValue s))) || isTyping s.

(** The quick replies are rendered under the welcome message only. *)
Definition quick_replies_shown (s : State) : bool :=
  match activeConversation s with
  | Some c => (List.length (Conversation.messages c) =? 1)%nat && negb (isTyping s)
  | None => false
  end.

(** The state right after mounting, given the conversation list the load
    effect read back from local storage ([None]: the key is absent).  The
    effect itself, with [JSON.parse], the revival of the dates and the
    [try] block, is [load_effect] below; [mount] is what it comes to on
    the text the save effect wrote for a list with valid dates and finite
    numbers. *)
Definition mount (stored : option (list Conversation)) (r : Readings) : State :=
  match stored with
  | Some (c :: rest) =>
      mkState (c :: rest) (Conversation.id c) [] false true [] false []
  | _ =>
      let initialConv := createNewConversation r in
      mkState [initialConv] (Conversation.id initialConv) [] false true []
              false []
  end.

(** The save effect: a non-empty list replaces what the key holds.  The
    text it writes is that of [save_effect_js] below; a [setItem] that
    fails for want of space is not part of the model. *)
Definition save_effect (convs : list Conversation)
    (storage : option (list Conversation)) : option (list Conversation) :=
  match convs with
  | [] => storage
  | _ :: _ => Some convs
  end.

(** ** The page as a transition system *)

(** The page, the agent calls in flight, the console, and the conversation
    list that local storage holds. *)
Record World := mkWorld {
  page : State;
  pending : list Pending;
  console : list jsstring;
  storage : option (list Conversation)
}.

(** What happens to the page: the user's actions, the window event that
    carries a suggested question, an agent call that settles, and a
    reload.  The actions carry what their handlers read from the clock.
    The sidebar lists the conversations that match the search text; the
    match is not modelled, and [ClickConversation] stands for a click on
    any conversation, all of which are listed when the search text is
    empty. *)
Inductive Event :=
| Change (value : jsstring)
| KeyDown (key : jsstring) (shiftKey : bool) (c : Clock)
| ClickSend (c : Clock)
| ClickQuickReply (reply : jsstring) (c : Clock)
| SuggestedQuestion (detail : jsstring)
| AgentSettles (k : nat) (o : Outcome) (c : Clock)
| ClickNewChat (r : Readings)
| ClickConversation (cid : jsstring)
| ToggleSidebar
| SearchChange (value : jsstring)
| OpenFeatureRequest
| CloseFeatureRequest
| FeatureRequestChange (value : jsstring)
| SubmitFeatureRequest
| Reload (r : Readings).

(** [handleSendMessage] called on the page: the call it starts joins the
    calls in flight. *)
Definition send (messageText : option jsstring) (c : Clock) (w : World) : World :=
  let '(s', started) := handleSendMessage_start messageText c (page w) in
  mkWorld s'
          (pending w ++ match started with Some p => [p] | None => [] end)
          (console w) (storage w).

Definition on_page (f : State -> State) (w : World) : World :=
  mkWorld (f (page w)) (pending w) (console w) (storage w).

Definition remove_nth {A} (k : nat) (l : list A) : list A :=
  firstn k l ++ skipn (S k) l.

(** What the event does to the page, before the effects run. *)
Definition handle (w : World) (e : Event) : World :=
  match e with
  | Change value => on_page (handleInputChange value) w
  | KeyDown key shiftKey c =>
      if str_eqb key (str "Enter") && negb shiftKey then send None c w else w
  | ClickSend c =>
      if send_disabled (page w) then w else send None c w
  | ClickQuickReply reply c =>
      if quick_replies_shown (page w) && existsb (str_eqb reply) QUICK_REPLIES
      then send (Some reply) c w else w
  | SuggestedQuestion detail => on_page (handleSuggestedQuestion detail) w
  | AgentSettles k o c =>
      match nth_error (pending w) k with
      | Some p =>
          mkWorld (handleSendMessage_settle p o c (page w))
                  (remove_nth k (pending w))
                  (console w ++ settle_console o) (storage w)
      | None => w
      end
  | ClickNewChat r => on_page (handleNewConversation r) w
  | ClickConversation cid =>
      if existsb (fun c => str_eqb (Conversation.id c) cid)
                 (conversations (page w))
      then on_page (setActiveConversationId cid) w else w
  | ToggleSidebar =>
      on_page (fun s => setIsSidebarOpen (negb (isSidebarOpen s)) s) w
  | SearchChange value => on_page (setSearchQuery value) w
  | OpenFeatureRequest => on_page (setShowFeatureRequest true) w
  | CloseFeatureRequest => on_page (setShowFeatureRequest false) w
  | FeatureRequestChange value => on_page (setFeatureRequestText value) w
  | SubmitFeatureRequest =>
      let '(s', logged) := handleFeatureRequest (page w) in
      mkWorld s' (pending w)
              (console w ++ if logged then [str "Feature request submitted:"] else [])
              (storage w)
  | Reload r => mkWorld (mount (storage w) r) [] [] (storage w)
  end.

(** One event, then the save effect on the list it leaves. *)
Definition step (w : World) (e : Event) : World :=
  let w' := handle w e in
  mkWorld (page w') (pending w') (console w')
          (save_effect (conversations (page w')) (storage w')).

(** The first visit: nothing is stored. *)
Definition boot (r : Readings) : World :=
  let s := mount None r in
  mkWorld s [] [] (save_effect (conversations s) None).

Definition run (w : World) (es : list Event) : World := fold_left step es w.

Inductive reachable : World -> Prop :=
| reachable_boot r : reachable (boot r)
| reachable_step w e : reachable w -> reachable (step w e).

(** ** Local storage: values, exceptions, and the two effects *)

Inductive Exn := SyntaxError | TypeError.

(** How the evaluation of an expression ends. *)
Inductive completion (A : Type) :=
| Normal (a : A)
| Throw (e : Exn).
Arguments Normal {A} a.
Arguments Throw {A} e.

Definition bindC {A B} (m : completion A) (k : A -> completion B) : completion B :=
  match m with
  | Normal a => k a
  | Throw e => Throw e
  end.

Declare Scope js_scope.
Delimit Scope js_scope with js.
Notation "x <- m ;; k" := (bindC m (fun x => k))
  (at level 61, m at next level, right associativity) : js_scope.

(** [l.map(f)] for a callback that may throw: left to right, stopping at
    the first exception. *)
Fixpoint mapC {A B} (f : A -> completion B) (l : list A) : completion (list B) :=
  match l with
  | [] => Normal []
  | a :: l' =>
      (b <- f a ;; bs <- mapC f l' ;; Normal (b :: bs))%js
  end.

(** A JSON value as a value of the page. *)
Fixpoint of_json (j : json) : jsval :=
  match j with
  | JNull => VNull
  | JBool b => VBool b
  | JNum n => VNum (number_of_literal n)
  | JStr s => VStr s
  | JArr l => VArr (map of_json l)
  | JObj props => VObj (map (fun kv => (fst kv, of_json (snd kv))) props)
  end.

(** The objects the page builds, property by property in the order of the
    object literals of [createNewConversation] and [handleSendMessage]. *)
Definition optional {A} (key : string) (f : A -> jsval) (o : option A)
    : list (jsstring * jsval) :=
  match o with
  | Some a => [(str key, f a)]
  | None => []
  end.

Definition role_to_js (r : Role) : jsval :=
  VStr (match r with agent => str "agent" | user => str "user" end).

Definition message_to_js (m : Message) : jsval :=
  VObj ([(str "id", VStr (Message.id m));
         (str "role", role_to_js (Message.role m));
         (str "content", VStr (Message.content m));
         (str "timestamp", VDate (Some (Message.timestamp m)))]
        ++ optional "confidence" VNum (Message.confidence m)
        ++ optional "sources" (fun l => VArr (map of_json l)) (Message.sources m)
        ++ optional "suggested_followup" (fun l => VArr (map VStr l))
             (Message.suggested_followup m)).

Definition conversation_to_js (c : Conversation) : jsval :=
  VObj [(str "id", VStr (Conversation.id c));
        (str "title", VStr (Conversation.title c));
        (str "preview", VStr (Conversation.preview c));
        (str "timestamp", VDate (Some (Conversation.timestamp c)));
        (str "messages", VArr (map message_to_js (Conversation.messages c)))].

(** Own properties of an object, in order. *)
Fixpoint get_own (props : list (jsstring * jsval)) (key : jsstring) : jsval :=
  match props with
  | [] => VUndefined
  | (k, v) :: props' => if str_eqb k key then v else get_own props' key
  end.

(** [v.key] for the property names the load effect reads -- [id],
    [timestamp], [messages], [length] -- on a value built by [JSON.parse]
    or by the effect itself.  Reading a property of [null] or [undefined]
    throws; arrays and strings have a [length]; nothing but an object
    has one of the other three. *)
Definition get (v : jsval) (key : jsstring) : completion jsval :=
  match v with
  | VUndefined | VNull => Throw TypeError
  | VObj props => Normal (get_own props key)
  | VArr l =>
      if str_eqb key (str "length")
      then Normal (VNum (Finite (inject_Z (Z.of_nat (List.length l)))))
      else Normal VUndefined
  | VStr s =>
      if str_eqb key (str "length")
      then Normal (VNum (Finite (inject_Z (js_length s))))
      else Normal VUndefined
  | VBool _ | VNum _ | VDate _ => Normal VUndefined
  end.

(** [v.map(f)]: only an array has a callable [map]. *)
Definition call_map (v : jsval) (f : jsval -> completion jsval)
    : completion (list jsval) :=
  match v with
  | VArr l => mapC f l
  | _ => Throw TypeError
  end.

Fixpoint indexed {A} (f : A -> jsval) (i : nat) (l : list A)
    : list (jsstring * jsval) :=
  match l with
  | [] => []
  | a :: l' => (Z_to_jsstring (Z.of_nat i), f a) :: indexed f (S i) l'
  end.

(** [{...v}]: the own enumerable properties of [v]; an array and a string
    have their elements under their indices, the other primitives, [null]
    and [undefined] have none. *)
Definition spread (v : jsval) : list (jsstring * jsval) :=
  match v with
  | VObj props => props
  | VArr l => indexed (fun x => x) 0 l
  | VStr s => indexed (fun c => VStr [c]) 0 s
  | _ => []
  end.

(** A property definition of an object literal after a spread: a key that
    is there keeps its place and takes the new value, a new key goes last. *)
Fixpoint set_prop (key : jsstring) (v : jsval) (props : list (jsstring * jsval))
    : list (jsstring * jsval) :=
  match props with
  | [] => [(key, v)]
  | (k, x) :: props' =>
      if str_eqb k key then (k, v) :: props'
      else (k, x) :: set_prop key v props'
  end.

(** [x === 0] *)
Definition is_zero (v : jsval) : bool :=
  match v with
  | VNum (Finite n) => Qeq_bool n 0
  | _ => false
  end.

(** The React state the load effect writes, and the console. *)
Record Store := mkStore {
  store_conversations : list jsval;
  store_activeConversationId : jsval;
  store_console : list (jsstring * Exn)
}.

(** [useState([])] and [useState('')] *)
Definition empty_store : Store := mkStore [] (VStr []) [].

(** Statements: they change the store, and end normally or by throwing.
    What a statement did before it threw stays done. *)
Definition Eff (A : Type) := Store -> completion A * Store.

Definition ret {A} (a : A) : Eff A := fun st => (Normal a, st).

Definition bind {A B} (m : Eff A) (k : A -> Eff B) : Eff B :=
  fun st =>
    match m st with
    | (Normal a, st') => k a st'
    | (Throw e, st') => (Throw e, st')
    end.

Definition eval {A} (c : completion A) : Eff A := fun st => (c, st).

(** [try { body } catch (e) { handler(e) }] *)
Definition try_catch (body : Eff unit) (handler : Exn -> Eff unit) : Eff unit :=
  fun st =>
    match body st with
    | (Normal _, st') => (Normal tt, st')
    | (Throw e, st') => handler e st'
    end.

Definition set_store_conversations (l : list jsval) : Eff unit :=
  fun st => (Normal tt,
             mkStore l (store_activeConversationId st) (store_console st)).

Definition set_store_activeConversationId (v : jsval) : Eff unit :=
  fun st => (Normal tt,
             mkStore (store_conversations st) v (store_console st)).

Definition console_error (text : jsstring) (e : Exn) : Eff unit :=
  fun st => (Normal tt,
             mkStore (store_conversations st) (store_activeConversationId st)
                     (store_console st ++ [(text, e)])).

Declare Scope eff_scope.
Delimit Scope eff_scope with eff.
Notation "x <- m ;; k" := (bind m (fun x => k))
  (at level 61, m at next level, right associativity) : eff_scope.
Notation "m ;; k" := (bind m (fun _ => k))
  (at level 61, right associativity) : eff_scope.

Section Storage.

(** The built-ins the two effects call, as the page sees them:
    [JSON.parse], which returns a value or throws; the text
    [JSON.stringify] writes for a JSON value; [toISOString], through
    which [JSON.stringify] writes a valid [Date]; and [new Date(v)],
    whose result is a time value or an invalid date. *)
Variable JSON_parse : jsstring -> completion json.
Variable JSON_text : json -> jsstring.
Variable toISOString : Z -> jsstring.
Variable new_Date : jsval -> completion (option Z).

(** The JSON value [JSON.stringify] writes: a [Date] goes through its
    [toJSON] (an invalid one gives [null]), a property whose value is
    [undefined] is left out, an [undefined] array element becomes
    [null], and [undefined] itself has no JSON value. *)
Fixpoint serialize (v : jsval) : option json :=
  match v with
  | VUndefined => None
  | VNull => Some JNull
  | VBool b => Some (JBool b)
  | VNum n => Some (number_json n)
  | VStr s => Some (JStr s)
  | VDate (Some t) => Some (JStr (toISOString t))
  | VDate None => Some JNull
  | VArr l =>
      Some (JArr (map (fun x => match serialize x with
                                | Some j => j
                                | None => JNull
                                end) l))
  | VObj props =>
      Some (JObj ((fix members (ps : list (jsstring * jsval)) :=
                     match ps with
                     | [] => []
                     | (k, x) :: ps' =>
                         match serialize x with
                         | Some j => (k, j) :: members ps'
                         | None => members ps'
                         end
                     end) props))
  end.

(** [JSON.stringify(v)]; [None] is [undefined]. *)
Definition JSON_stringify (v : jsval) : option jsstring :=
  option_map JSON_text (serialize v).

(** [msg => ({ ...msg, timestamp: new Date(msg.timestamp) })] *)
Definition revive_message (msg : jsval) : completion jsval :=
  (ts <- get msg (str "timestamp") ;;
   d <- new_Date ts ;;
   Normal (VObj (set_prop (str "timestamp") (VDate d) (spread msg))))%js.

(** [conv => ({ ...conv, timestamp: new Date(conv.timestamp),
                messages: conv.messages.map(...) })] *)
Definition revive_conversation (conv : jsval) : completion jsval :=
  (ts <- get conv (str "timestamp") ;;
   d <- new_Date ts ;;
   ms <- get conv (str "messages") ;;
   ms' <- call_map ms revive_message ;;
   Normal (VObj (set_prop (str "messages") (VArr ms')
                   (set_prop (str "timestamp") (VDate d) (spread conv)))))%js.

(** The effect that runs on mount.  [stored] is what
    [localStorage.getItem] returned, [None] for [null]. *)
Definition load_effect (stored : option jsstring) (r : Readings) : Eff unit :=
  let present := match stored with Some s => truthy s | None => false end in
  let text := match stored with Some s => s | None => [] end in
  ((if present then
      try_catch
        (parsed <- eval (JSON_parse text) ;;
         conversationsWithDates <-
           eval (call_map (of_json parsed) revive_conversation) ;;
         set_store_conversations conversationsWithDates ;;
         match conversationsWithDates with
         | first :: _ =>
             i <- eval (get first (str "id")) ;;
             set_store_activeConversationId i
         | [] => ret tt
         end)
        (console_error (str "Failed to parse stored conversations:"))
    else ret tt) ;;
   none <- (if negb present then ret true
            else
              v <- eval (JSON_parse text) ;;
              len <- eval (get (of_json v) (str "length")) ;;
              ret (is_zero len)) ;;
   if (none : bool) then
     let initialConv := createNewConversation r in
     set_store_conversations [conversation_to_js initialConv] ;;
     set_store_activeConversationId (VStr (Conversation.id initialConv))
   else ret tt)%eff.

(** The effect that runs when [conversations] changed: what the key
    holds afterwards, given what it held.  [setItem] stores the string
    form of its argument. *)
Definition save_effect_js (convs : list jsval) (item : option jsstring)
    : option jsstring :=
  match convs with
  | [] => item
  | _ :: _ =>
      Some (match JSON_stringify (VArr convs) with
            | Some text => text
            | None => str "undefined"
            end)
  end.

(** What the platform promises of its built-ins, at one value: the text
    written for it is not empty and parses to the JSON value written;
    the ISO text of a time value makes a [Date] of that time value. *)
Definition JSON_round_trip (v : jsval) : Prop :=
  forall j, serialize v = Some j ->
    truthy (JSON_text j) = true /\ JSON_parse (JSON_text j) = Normal j.

Definition Date_round_trip (t : Z) : Prop :=
  new_Date (VStr (toISOString t)) = Normal (Some t).

(** The same of every time stamp of a conversation. *)
Definition dates_round_trip (c : Conversation) : Prop :=
  Date_round_trip (Conversation.timestamp c)
  /\ Forall (fun m => Date_round_trip (Message.timestamp m))
            (Conversation.messages c).

End Storage.

(** ** An implementation of the built-ins

    A writer and a reader of JSON texts and of ISO date strings, to run the
    effects on storage contents.  The writer follows [JSON.stringify] (no
    white space, the escapes of [QuoteJSONString]) except that a number is
    always written as a plain decimal; the reader accepts the JSON
    grammar.  Dates are written as [toISOString] writes them and read in
    that format; a browser reads further formats, which are invalid dates
    here, as is every array and object given to [new Date]. *)
Module Platform.

Local Open Scope N_scope.

Definition hex_digit (n : N) : code_unit :=
  if n <? 10 then 48 + n else 87 + n.

(** [\uXXXX] *)
Definition u_escape (c : code_unit) : jsstring :=
  [92; 117; hex_digit (c / 4096 mod 16); hex_digit (c / 256 mod 16);
   hex_digit (c / 16 mod 16); hex_digit (c mod 16)].

Definition is_high_surrogate (c : code_unit) : bool :=
  (55296 <=? c) && (c <=? 56319).
Definition is_low_surrogate (c : code_unit) : bool :=
  (56320 <=? c) && (c <=? 57343).

Definition escape_unit (c : code_unit) : jsstring :=
  if c =? 34 then [92; 34]
  else if c =? 92 then [92; 92]
  else if c =? 8 then [92; 98]
  else if c =? 12 then [92; 102]
  else if c =? 10 then [92; 110]
  else if c =? 13 then [92; 114]
  else if c =? 9 then [92; 116]
  else if c <? 32 then u_escape c
  else if is_high_surrogate c || is_low_surrogate c then u_escape c
  else [c].

Fixpoint quote_units (s : jsstring) : jsstring :=
  match s with
  | [] => []
  | c :: s' =>
      match s' with
      | d :: s'' =>
          if is_high_surrogate c && is_low_surrogate d
          then c :: d :: quote_units s''
          else escape_unit c ++ quote_units s'
      | [] => escape_unit c
      end
  end.

Definition quote (s : jsstring) : jsstring := 34 :: quote_units s ++ [34].

Fixpoint fraction_digits (fuel : nat) (r d : Z) : jsstring :=
  match fuel with
  | O => []
  | S fuel' =>
      Z.to_N (48 + (r * 10) / d)
      :: (if ((r * 10) mod d =? 0)%Z then []
          else fraction_digits fuel' ((r * 10) mod d) d)
  end.

Definition write_number (q : Q) : jsstring :=
  let q := Qred q in
  let n := Z.abs (Qnum q) in
  let d := Zpos (Qden q) in
  (if (Qnum q <? 0)%Z then [45] else [])
  ++ Z_to_jsstring (n / d)
  ++ (if (n mod d =? 0)%Z then [] else 46 :: fraction_digits 1100 (n mod d) d).

Fixpoint join (sep : jsstring) (l : list jsstring) : jsstring :=
  match l with
  | [] => []
  | [x] => x
  | x :: l' => x ++ sep ++ join sep l'
  end.

Fixpoint JSON_text (j : json) : jsstring :=
  match j with
  | JNull => str "null"
  | JBool true => str "true"
  | JBool false => str "false"
  | JNum n => write_number n
  | JStr s => quote s
  | JArr l => 91 :: join [44] (map JSON_text l) ++ [93]
  | JObj props =>
      123 :: join [44] (map (fun kv => quote (fst kv) ++ 58 :: JSON_text (snd kv))
                            props) ++ [125]
  end.

(** *** Reading *)

Definition is_json_space (c : code_unit) : bool :=
  (c =? 32) || (c =? 9) || (c =? 10) || (c =? 13).

Fixpoint skip_ws (s : jsstring) : jsstring :=
  match s with
  | c :: s' => if is_json_space c then skip_ws s' else s
  | [] => []
  end.

Definition is_digit (c : code_unit) : bool := (48 <=? c) && (c <=? 57).

Definition hex_value (c : code_unit) : option N :=
  if is_digit c then Some (c - 48)
  else if (97 <=? c) && (c <=? 102) then Some (c - 87)
  else if (65 <=? c) && (c <=? 70) then Some (c - 55)
  else None.

Definition unescape (c : code_unit) : option code_unit :=
  if c =? 34 then Some 34
  else if c =? 92 then Some 92
  else if c =? 47 then Some 47
  else if c =? 98 then Some 8
  else if c =? 102 then Some 12
  else if c =? 110 then Some 10
  else if c =? 114 then Some 13
  else if c =? 116 then Some 9
  else None.

(** The units of a string up to its closing quote, and what follows. *)
Fixpoint read_string (fuel : nat) (s acc : jsstring) : option (jsstring * jsstring) :=
  match fuel with
  | O => None
  | S fuel' =>
      match s with
      | [] => None
      | c :: s1 =>
          if c =? 34 then Some (rev acc, s1)
          else if c <? 32 then None
          else if c =? 92 then
            match s1 with
            | e :: s2 =>
                if e =? 117 then
                  match s2 with
                  | a :: b :: x :: y :: s3 =>
                      match hex_value a, hex_value b, hex_value x, hex_value y with
                      | Some a', Some b', Some x', Some y' =>
                          read_string fuel' s3
                            ((a' * 4096 + b' * 256 + x' * 16 + y') :: acc)
                      | _, _, _, _ => None
                      end
                  | _ => None
                  end
                else
                  match unescape e with
                  | Some u => read_string fuel' s2 (u :: acc)
                  | None => None
                  end
            | [] => None
            end
          else read_string fuel' s1 (c :: acc)
      end
  end.

Fixpoint read_digits (s : jsstring) (acc : list code_unit)
    : list code_unit * jsstring :=
  match s with
  | c :: s' => if is_digit c then read_digits s' (c :: acc) else (rev acc, s)
  | [] => (rev acc, [])
  end.

Definition digits_value (ds : list code_unit) : Z :=
  fold_left (fun v c => (v * 10 + Z.of_N (c - 48))%Z) ds 0%Z.

(** An optional minus sign. *)
Definition read_sign (s : jsstring) : bool * jsstring :=
  match s with
  | c :: s' => if c =? 45 then (true, s') else (false, s)
  | [] => (false, s)
  end.

(** An optional fraction: a point and at least one digit. *)
Definition read_fraction (s : jsstring) : option (list code_unit * jsstring) :=
  match s with
  | c :: s' =>
      if c =? 46 then
        match read_digits s' [] with
        | ([], _) => None
        | (fr, s3) => Some (fr, s3)
        end
      else Some ([], s)
  | [] => Some ([], s)
  end.

(** An optional exponent: [e] or [E], an optional sign, and at least one
    digit. *)
Definition read_exponent (s : jsstring) : option (Z * jsstring) :=
  match s with
  | c :: s' =>
      if (c =? 101) || (c =? 69) then
        let '(eneg, s4) :=
          match s' with
          | g :: s'' =>
              if g =? 45 then (true, s'')
              else if g =? 43 then (false, s'')
              else (false, s')
          | [] => (false, s')
          end in
        match read_digits s4 [] with
        | ([], _) => None
        | (ex, s5) =>
            Some ((if eneg then - digits_value ex else digits_value ex)%Z, s5)
        end
      else Some (0%Z, s)
  | [] => Some (0%Z, s)
  end.

(** The number a literal denotes, in lowest terms. *)
Definition number_value (neg : bool) (int fr : list code_unit) (e : Z)
    : Q :=
  let m := digits_value (int ++ fr) in
  let m := if neg then (- m)%Z else m in
  let e := (e - Z.of_nat (List.length fr))%Z in
  Qred (if (0 <=? e)%Z then inject_Z (m * 10 ^ e)
        else Qmake m (Z.to_pos (10 ^ (- e)))).

(** [int frac? exp?], with no leading zero in [int]. *)
Definition read_unsigned (neg : bool) (s1 : jsstring)
    : option (Q * jsstring) :=
  let '(int, s2) := read_digits s1 [] in
  match int with
  | [] => None
  | d :: more =>
      if (d =? 48) && negb (match more with [] => true | _ => false end)
      then None
      else
        match read_fraction s2 with
        | None => None
        | Some (fr, s3) =>
            match read_exponent s3 with
            | None => None
            | Some (e, rest) => Some (number_value neg int fr e, rest)
            end
        end
  end.

(** [-? int frac? exp?] *)
Definition read_number (s : jsstring) : option (Q * jsstring) :=
  let '(neg, s1) := read_sign s in read_unsigned neg s1.

Definition expect (word : jsstring) (s : jsstring) : option jsstring :=
  if str_eqb (firstn (List.length word) s) word
  then Some (skipn (List.length word) s) else None.

(** A property read twice keeps its first place and its last value. *)
Fixpoint define (key : jsstring) (v : json) (props : list (jsstring * json))
    : list (jsstring * json) :=
  match props with
  | [] => [(key, v)]
  | (k, x) :: props' =>
      if str_eqb k key then (k, v) :: props'
      else (k, x) :: define key v props'
  end.

Fixpoint read_value (fuel : nat) (s : jsstring) : option (json * jsstring) :=
  match fuel with
  | O => None
  | S fuel' =>
      match skip_ws s with
      | [] => None
      | c :: s1 =>
          if c =? 110 then
            option_map (pair JNull) (expect (str "null") (c :: s1))
          else if c =? 116 then
            option_map (pair (JBool true)) (expect (str "true") (c :: s1))
          else if c =? 102 then
            option_map (pair (JBool false)) (expect (str "false") (c :: s1))
          else if c =? 34 then
            match read_string (S (List.length s1)) s1 [] with
            | Some (x, rest) => Some (JStr x, rest)
            | None => None
            end
          else if c =? 91 then
            match skip_ws s1 with
            | d :: s2 =>
                if d =? 93 then Some (JArr [], s2)
                else
                  match read_elements fuel' s1 [] with
                  | Some (l, rest) => Some (JArr l, rest)
                  | None => None
                  end
            | [] => None
            end
          else if c =? 123 then
            match skip_ws s1 with
            | d :: s2 =>
                if d =? 125 then Some (JObj [], s2)
                else
                  match read_members fuel' s1 [] with
                  | Some (l, rest) => Some (JObj l, rest)
                  | None => None
                  end
            | [] => None
            end
          else
            match read_number (c :: s1) with
            | Some (n, rest) => Some (JNum n, rest)
            | None => None
            end
      end
  end

with read_elements (fuel : nat) (s : jsstring) (acc : list json)
    : option (list json * jsstring) :=
  match fuel with
  | O => None
  | S fuel' =>
      match read_value fuel' s with
      | Some (v, rest) =>
          match skip_ws rest with
          | d :: rest' =>
              if d =? 44 then read_elements fuel' rest' (v :: acc)
              else if d =? 93 then Some (rev (v :: acc), rest')
              else None
          | [] => None
          end
      | None => None
      end
  end

with read_members (fuel : nat) (s : jsstring) (acc : list (jsstring * json))
    : option (list (jsstring * json) * jsstring) :=
  match fuel with
  | O => None
  | S fuel' =>
      match skip_ws s with
      | q :: s1 =>
          if q =? 34 then
            match read_string (S (List.length s1)) s1 [] with
            | Some (k, s2) =>
                match skip_ws s2 with
                | colon :: s3 =>
                    if colon =? 58 then
                      match read_value fuel' s3 with
                      | Some (v, rest) =>
                          match skip_ws rest with
                          | d :: rest' =>
                              if d =? 44
                              then read_members fuel' rest' (define k v acc)
                              else if d =? 125
                              then Some (define k v acc, rest')
                              else None
                          | [] => None
                          end
                      | None => None
                      end
                    else None
                | [] => None
                end
            | None => None
            end
          else None
      | [] => None
      end
  end.

(** [JSON.parse(text)] *)
Definition JSON_parse (text : jsstring) : completion json :=
  match read_value (S (S (List.length text))) text with
  | Some (j, rest) =>
      match skip_ws rest with
      | [] => Normal j
      | _ :: _ => Throw SyntaxError
      end
  | None => Throw SyntaxError
  end.

(** *** The texts the reader is checked on *)

(** What follows a value inside a text: nothing, a comma, or a closing
    bracket or brace. *)
Definition closes (rest : jsstring) : bool :=
  match rest with
  | [] => true
  | c :: _ => (c =? 44) || (c =? 93) || (c =? 125)
  end.

(** A number that is read back from what is written for it. *)
Definition number_ok (q : Q) : Prop :=
  forall rest, closes rest = true ->
    read_number (write_number q ++ rest) = Some (q, rest).

(** The decimal expansion of [r / d] ends within [fuel] digits. *)
Fixpoint fraction_ends (fuel : nat) (r d : Z) : bool :=
  match fuel with
  | O => false
  | S fuel' =>
      ((r * 10) mod d =? 0)%Z || fraction_ends fuel' ((r * 10) mod d) d
  end.

(** A number in lowest terms that is an integer or has a decimal
    expansion that ends -- as every number a double holds does. *)
Definition decimal (q : Q) : bool :=
  let n := Z.abs (Qnum q) in
  let d := Zpos (Qden q) in
  Z.eqb (Qnum (Qred q)) (Qnum q) && Pos.eqb (Qden (Qred q)) (Qden q)
  && ((n mod d =? 0)%Z || fraction_ends 1100 (n mod d) d).

(** A JSON value whose numbers are decimal, and whose objects name each
    property once. *)
Inductive json_ok : json -> Prop :=
| ok_null : json_ok JNull
| ok_bool b : json_ok (JBool b)
| ok_num n : decimal n = true -> json_ok (JNum n)
| ok_str s : json_ok (JStr s)
| ok_arr l : Forall json_ok l -> json_ok (JArr l)
| ok_obj props :
    NoDup (map fst props) ->
    Forall (fun kv => json_ok (snd kv)) props ->
    json_ok (JObj props).

(** The fuel the reader needs for a value. *)
Fixpoint size (j : json) : nat :=
  match j with
  | JArr l => S (fold_right (fun x n => S (size x + n)) O l)
  | JObj props => S (fold_right (fun kv n => S (size (snd kv) + n)) O props)
  | _ => 1
  end.

(** *** What the proofs about the reader speak of *)

(** A property of each of the [count] integers from [i] on. *)
Fixpoint each_from (P : Z -> Prop) (count : nat) (i : Z) : Prop :=
  match count with
  | O => True
  | S count' => P i /\ each_from P count' (i + 1)%Z
  end.

(** The decimal digits of a natural number: the first is [0] only for
    zero. *)
Definition decimal_of (n : Z) (ds : jsstring) : Prop :=
  forallb is_digit ds = true /\ digits_value ds = n /\
  match ds with
  | [] => False
  | c :: more => c = 48%N -> more = [] /\ n = 0%Z
  end.

(** A property as it is written. *)
Definition member (kv : jsstring * json) : jsstring :=
  quote (fst kv) ++ 58 :: JSON_text (snd kv).

Definition elements_size (l : list json) : nat :=
  fold_right (fun x n => S (size x + n)) O l.

Definition members_size (props : list (jsstring * json)) : nat :=
  fold_right (fun kv n => S (size (snd kv) + n)) O props.

(** The reader, given fuel for it, reads the value back from its text and
    stops where the text ends. *)
Definition reads (j : json) : Prop :=
  forall fuel rest,
    (size j <= fuel)%nat -> closes rest = true ->
    read_value fuel (JSON_text j ++ rest) = Some (j, rest).

(** *** Dates *)

Local Open Scope Z_scope.

Definition msPerDay : Z := 86400000.

(** Day number (days since 1970-01-01) to year, month, day of the
    proleptic Gregorian calendar, over 400-year eras that start on a
    1st of March. *)
Definition civil_from_days (days : Z) : Z * Z * Z :=
  let z := days + 719468 in
  let era := z / 146097 in
  let doe := z - era * 146097 in
  let yoe := (doe - doe / 1460 + doe / 36524 - doe / 146096) / 365 in
  let doy := doe - (365 * yoe + yoe / 4 - yoe / 100) in
  let mp := (5 * doy + 2) / 153 in
  let d := doy - (153 * mp + 2) / 5 + 1 in
  let m := if mp <? 10 then mp + 3 else mp - 9 in
  let y := yoe + era * 400 in
  (if m <=? 2 then y + 1 else y, m, d).

Definition days_from_civil (y m d : Z) : Z :=
  let y := if m <=? 2 then y - 1 else y in
  let era := y / 400 in
  let yoe := y - era * 400 in
  let doy := (153 * (if 2 <? m then m - 3 else m + 9) + 2) / 5 + d - 1 in
  let doe := yoe * 365 + yoe / 4 - yoe / 100 + doy in
  era * 146097 + doe - 719468.

(** [n] in [width] decimal digits. *)
Fixpoint pad (width : nat) (n : Z) : jsstring :=
  match width with
  | O => []
  | S w => pad w (n / 10) ++ [Z.to_N (48 + n mod 10)]
  end.

(** A year from 0 to 9999 takes four digits, any other a sign and six. *)
Definition write_year (y : Z) : jsstring :=
  if (0 <=? y) && (y <=? 9999) then pad 4 y
  else (if y <? 0 then [45%N] else [43%N]) ++ pad 6 (Z.abs y).

Definition toISOString (t : Z) : jsstring :=
  let '(y, m, d) := civil_from_days (t / msPerDay) in
  let ms := t mod msPerDay in
  write_year y
  ++ [45%N] ++ pad 2 m ++ [45%N] ++ pad 2 d ++ [84%N]
  ++ pad 2 (ms / 3600000) ++ [58%N] ++ pad 2 (ms / 60000 mod 60) ++ [58%N]
  ++ pad 2 (ms / 1000 mod 60) ++ [46%N] ++ pad 3 (ms mod 1000) ++ [90%N].

(** [width] digits and what follows them. *)
Definition read_field (width : nat) (s : jsstring) : option (Z * jsstring) :=
  let ds := firstn width s in
  if (List.length ds =? width)%nat && forallb is_digit ds
  then Some (digits_value ds, skipn width s) else None.

Definition read_unit (c : code_unit) (s : jsstring) : option jsstring :=
  match s with
  | x :: s' => if N.eqb x c then Some s' else None
  | [] => None
  end.

Definition is_leap (y : Z) : bool :=
  (y mod 4 =? 0) && (negb (y mod 100 =? 0) || (y mod 400 =? 0)).

Definition days_in_month (y m : Z) : Z :=
  if m =? 2 then (if is_leap y then 29 else 28)
  else if (m =? 4) || (m =? 6) || (m =? 9) || (m =? 11) then 30
  else 31.

Definition bindO {A B} (o : option A) (k : A -> option B) : option B :=
  match o with
  | Some a => k a
  | None => None
  end.

(** A year, and what follows it; year [-000000] is not one. *)
Definition read_year (s : jsstring) : option (Z * jsstring) :=
  match s with
  | c :: s' =>
      if N.eqb c 43%N then read_field 6 s'
      else if N.eqb c 45%N then
        bindO (read_field 6 s')
              (fun p => if fst p =? 0 then None else Some (- fst p, snd p))
      else read_field 4 s
  | [] => None
  end.

(** The time value of [YYYY-MM-DDTHH:mm:ss.sssZ] or
    [+-YYYYYY-MM-DDTHH:mm:ss.sssZ]. *)
Definition Date_parse (s : jsstring) : option Z :=
  bindO (read_year s) (fun '(y, s1) =>
  bindO (read_unit 45%N s1) (fun s2 =>
  bindO (read_field 2 s2) (fun '(m, s3) =>
  bindO (read_unit 45%N s3) (fun s4 =>
  bindO (read_field 2 s4) (fun '(d, s5) =>
  bindO (read_unit 84%N s5) (fun s6 =>
  bindO (read_field 2 s6) (fun '(h, s7) =>
  bindO (read_unit 58%N s7) (fun s8 =>
  bindO (read_field 2 s8) (fun '(mi, s9) =>
  bindO (read_unit 58%N s9) (fun s10 =>
  bindO (read_field 2 s10) (fun '(sec, s11) =>
  bindO (read_unit 46%N s11) (fun s12 =>
  bindO (read_field 3 s12) (fun '(ms, s13) =>
  bindO (read_unit 90%N s13) (fun s14 =>
  match s14 with
  | [] =>
      if (1 <=? m) && (m <=? 12) && (1 <=? d) && (d <=? days_in_month y m)
         && (h <=? 23) && (mi <=? 59) && (sec <=? 59)
      then
        let t := days_from_civil y m d * msPerDay
                 + h * 3600000 + mi * 60000 + sec * 1000 + ms in
        if Z.abs t <=? 8640000000000000 then Some t else None
      else None
  | _ :: _ => None
  end)))))))))))))).

(** [new Date(v)] *)
Definition new_Date (v : jsval) : completion (option Z) :=
  Normal
    match v with
    | VStr s => Date_parse s
    | VNull => Some 0
    | VBool b => Some (if b then 1 else 0)
    | VNum (Finite q) =>
        let t := Z.quot (Qnum q) (Zpos (Qden q)) in
        if Z.abs t <=? 8640000000000000 then Some t else None
    | VDate t => t
    | VNum (Infinity _) | VNum NaN | VUndefined | VArr _ | VObj _ => None
    end.

End Platform.

(** ** The sidebar *)

(** Whether [s] starts with [q]. *)
Fixpoint starts_with (q s : jsstring) : bool :=
  match q, s with
  | [], _ => true
  | x :: q', y :: s' => N.eqb x y && starts_with q' s'
  | _ :: _, [] => false
  end.

(** [s.includes(q)] *)
Fixpoint includes (s q : jsstring) : bool :=
  starts_with q s
  || match s with
     | [] => false
     | _ :: s' => includes s' q
     end.

Section Sidebar.

(** [String.prototype.toLowerCase], a built-in that follows the Unicode
    case mappings. *)
Variable toLowerCase : jsstring -> jsstring.

(** The test of [filteredConversations]. *)
Definition matches_search (searchQuery : jsstring) (conv : Conversation)
    : bool :=
  includes (toLowerCase (Conversation.title conv)) (toLowerCase searchQuery)
  || includes (toLowerCase (Conversation.preview conv))
              (toLowerCase searchQuery).

(** The conversations the sidebar lists. *)
Definition filteredConversations (s : State) : list Conversation :=
  filter (matches_search (searchQuery s)) (conversations s).

End Sidebar.

(** ** The message bubble: sources *)

(** [s] after the literal [lit], when it starts with it. *)
Fixpoint after_literal (lit s : jsstring) : option jsstring :=
  match lit, s with
  | [], _ => Some s
  | x :: lit', y :: s' => if N.eqb x y then after_literal lit' s' else None
  | _ :: _, [] => None
  end.

(** [[^\s]+] takes the longest run of units that are not white space;
    [\s] is the white space [trim] strips. *)
Fixpoint non_space_run (s : jsstring) : jsstring :=
  match s with
  | c :: s' => if is_white_space c then [] else c :: non_space_run s'
  | [] => []
  end.

(** [:\/\/[^\s]+], after the scheme. *)
Definition match_tail (scheme s : jsstring) : option jsstring :=
  match after_literal (str "://") s with
  | Some s' =>
      match non_space_run s' with
      | [] => None
      | c :: run => Some (scheme ++ str "://" ++ c :: run)
      end
  | None => None
  end.

(** The pattern [/https?:\/\/[^\s]+/] at the start of [s]: [s?] takes an
    [s] when there is one, and gives it back when the rest does not
    match. *)
Definition match_here (s : jsstring) : option jsstring :=
  match after_literal (str "http") s with
  | Some rest =>
      match rest with
      | 115%N :: rest' =>
          match match_tail (str "https") rest' with
          | Some m => Some m
          | None => match_tail (str "http") rest
          end
      | _ => match_tail (str "http") rest
      end
  | None => None
  end.

(** [sourceText.match(/https?:\/\/[^\s]+/)]: element 0 of the result, the
    match at the first place that has one; [None] is [null]. *)
Fixpoint urlMatch (sourceText : jsstring) : option jsstring :=
  match match_here sourceText with
  | Some m => Some m
  | None =>
      match sourceText with
      | [] => None
      | _ :: s' => urlMatch s'
      end
  end.

(** What a source is rendered as: a link, with its [href] and its text,
    or a paragraph. *)
Inductive SourceView :=
| Link (href text : jsstring)
| Paragraph (text : jsstring).

Section Bubble.

(** The text [JSON.stringify] writes for a JSON value. *)
Variable JSON_text : json -> jsstring.

(** The callback of [message.sources.map] in [MessageBubble]. *)
Definition render_source (source : json) : SourceView :=
  let sourceText :=
    match source with
    | JStr s => s
    | _ => JSON_text source
    end in
  match urlMatch sourceText with
  | Some m => Link m sourceText
  | None => Paragraph sourceText
  end.

End Bubble.

(** ** The notions the properties speak of *)

(** A conversation after a run of appends, each with the [new Date()] of
    its update. *)
Definition append_all (conversationId : jsstring)
    (ms : list (Message * Date)) (conv : Conversation) : Conversation :=
  fold_left (fun c md => updateConversation conversationId (fst md) (snd md) c)
            ms conv.

Definition is_user (m : Message) : bool := Role_eqb (Message.role m) user.

(** [messages[messages.length - 1]] *)
Definition lastMessage (c : Conversation) : option Message :=
  hd_error (rev (Conversation.messages c)).

(** Empty, or white space only. *)
Definition blank (s : jsstring) : bool := forallb is_white_space s.

(** The text an event hands to [handleSendMessage]: the message box for
    Enter and for the send button, its label for a quick reply; [None] for
    the events that do not call it. *)
Definition submitted_text (w : World) (e : Event) : option jsstring :=
  match e with
  | KeyDown key shiftKey _ =>
      if str_eqb key (str "Enter") && negb shiftKey
      then Some (inputValue (page w)) else None
  | ClickSend _ => Some (inputValue (page w))
  | ClickQuickReply reply _ => Some reply
  | _ => None
  end.

Definition is_reload (e : Event) : bool :=
  match e with
  | Reload _ => true
  | _ => false
  end.

(** The two failure cases of a settled call: a result that is not a
    success with a response, and a rejection. *)
Definition failed (o : Outcome) : bool :=
  match o with
  | Resolved result =>
      negb (AgentResult.success result
            && match AgentResult.response result with
               | Some _ => true
               | None => false
               end)
  | Rejected => true
  end.

(** The error string of the result when it has a non-empty one, else the
    fixed text of the branch. *)
Definition fallback_text (o : Outcome) : jsstring :=
  match o with
  | Resolved result =>
      match AgentResult.error result with
      | Some (c :: e) => c :: e
      | _ => generic_error
      end
  | Rejected => thrown_error
  end.

(** [after] is [before] with exactly [m] added at the end of the
    conversation named [cid], and every other conversation as it was. *)
Definition appended_to (cid : jsstring) (m : Message)
    (before after : list Conversation) : Prop :=
  Forall2 (fun old new =>
             if str_eqb (Conversation.id old) cid
             then Conversation.id new = Conversation.id old
                  /\ Conversation.messages new
                     = Conversation.messages old ++ [m]
             else new = old)
          before after.

(** The preview rule that holds of a conversation: one that holds a single
    message holds the welcome message and shows the fixed teaser; one that
    holds more shows its last message cut to 60 units. *)
Definition preview_rule (c : Conversation) : Prop :=
  match Conversation.messages c with
  | [] => False
  | [m] => Message.content m = welcome_text
           /\ Conversation.preview c = new_preview
  | _ :: _ :: _ =>
      exists m, lastMessage c = Some m
                /\ Conversation.preview c = truncate 60 (Message.content m)
  end.

(** The JSON value written for a message and for a conversation, given
    the ISO text of a time value. *)
Definition optional_json {A} (key : string) (f : A -> json) (o : option A)
    : list (jsstring * json) :=
  match o with
  | Some a => [(str key, f a)]
  | None => []
  end.

Definition message_json (iso : Z -> jsstring) (m : Message) : json :=
  JObj ([(str "id", JStr (Message.id m));
         (str "role", JStr (match Message.role m with
                            | agent => str "agent"
                            | user => str "user"
                            end));
         (str "content", JStr (Message.content m));
         (str "timestamp", JStr (iso (Message.timestamp m)))]
        ++ optional_json "confidence" number_json (Message.confidence m)
        ++ optional_json "sources" JArr (Message.sources m)
        ++ optional_json "suggested_followup" (fun l => JArr (map JStr l))
             (Message.suggested_followup m)).

Definition conversation_json (iso : Z -> jsstring) (c : Conversation) : json :=
  JObj [(str "id", JStr (Conversation.id c));
        (str "title", JStr (Conversation.title c));
        (str "preview", JStr (Conversation.preview c));
        (str "timestamp", JStr (iso (Conversation.timestamp c)));
        (str "messages",
         JArr (map (message_json iso) (Conversation.messages c)))].

(** The numbers of a message are finite and within the doubles. *)
Definition numbers_finite (m : Message) : Prop :=
  match Message.confidence m with
  | Some (Finite q) => overflows q = false
  | Some (Infinity _) | Some NaN => False
  | None => True
  end
  /\ match Message.sources m with
     | Some l => forallb within_doubles l = true
     | None => True
     end.

Definition conversation_numbers_finite (c : Conversation) : Prop :=
  Forall numbers_finite (Conversation.messages c).

(** The conversations that are read back as they were saved: every time
    stamp is in the range of [Date], every number is finite and a
    decimal within the doubles, as a finite double is, and every source
    record is a JSON value that names each of its properties once. *)
Definition in_Date_range (t : Z) : Prop :=
  -8640000000000000 <= t <= 8640000000000000.

Definition message_storable (m : Message) : Prop :=
  in_Date_range (Message.timestamp m)
  /\ numbers_finite m
  /\ match Message.confidence m with
     | Some (Finite q) => Platform.decimal q = true
     | Some (Infinity _) | Some NaN => False
     | None => True
     end
  /\ match Message.sources m with
     | Some l => Forall Platform.json_ok l
     | None => True
     end.

Definition conversation_storable (c : Conversation) : Prop :=
  in_Date_range (Conversation.timestamp c)
  /\ Forall message_storable (Conversation.messages c).

(** What the clock and the agent give a running page: dates in the range
    of [Date], and numbers that are finite doubles. *)
Definition clock_ok (c : Clock) : Prop :=
  in_Date_range (new_date_message c) /\ in_Date_range (new_date_update c).

Definition readings_ok (r : Readings) : Prop :=
  in_Date_range (date_msg r) /\ in_Date_range (date_conv r).

Definition outcome_ok (o : Outcome) : Prop :=
  match o with
  | Resolved result =>
      match AgentResult.response result with
      | Some response =>
          let r := SupportResponse.result response in
          match SupportResult.confidence r with
          | Finite q => Platform.decimal q = true /\ overflows q = false
          | Infinity _ | NaN => False
          end
          /\ Forall Platform.json_ok (SupportResult.sources r)
          /\ forallb within_doubles (SupportResult.sources r) = true
      | None => True
      end
  | Rejected => True
  end.

Definition event_ok (e : Event) : Prop :=
  match e with
  | KeyDown _ _ c | ClickSend c | ClickQuickReply _ c => clock_ok c
  | AgentSettles _ o c => clock_ok c /\ outcome_ok o
  | ClickNewChat r | Reload r => readings_ok r
  | _ => True
  end.

(** What holds of every conversation the page makes: its id is one that
    [createNewConversation] wrote, it starts with the welcome message,
    and its title and preview are short. *)
Definition conversation_ok (c : Conversation) : Prop :=
  (exists rest, Conversation.id c = str "conv-" ++ rest)
  /\ (exists m rest, Conversation.messages c = m :: rest
                     /\ Message.role m = agent
                     /\ Message.content m = welcome_text)
  /\ (List.length (Conversation.title c) <= 43)%nat
  /\ (List.length (Conversation.preview c) <= 63)%nat.

(** Whether a conversation of the list has the id. *)
Definition has_id (cid : jsstring) (l : list Conversation) : bool :=
  existsb (fun c => str_eqb (Conversation.id c) cid) l.

(** What holds of the page and of the calls in flight. *)
Record page_ok (w : World) : Prop := {
  ok_conversations : Forall conversation_ok (conversations (page w));
  ok_not_empty : conversations (page w) <> [];
  ok_active :
    has_id (activeConversationId (page w)) (conversations (page w)) = true;
  ok_typing : isTyping (page w) = true -> pending w <> [];
  ok_pending :
    Forall (fun p => has_id (target p) (conversations (page w)) = true)
           (pending w)
}.

(** The same, and local storage holds the list the page shows. *)
Definition world_ok (w : World) : Prop :=
  page_ok w /\ storage w = Some (conversations (page w)).

(** [new] is [old] with messages added at its end, if any. *)
Definition extends (old new : Conversation) : Prop :=
  Conversation.id new = Conversation.id old
  /\ exists more,
       Conversation.messages new = Conversation.messages old ++ more.

(** A stored value that is neither a list nor [null], and whose [length],
    if it has one, is not [0]. *)
Definition no_list (j : json) : bool :=
  match j with
  | JNull | JArr _ => false
  | _ =>
      match get (of_json j) (str "length") with
      | Normal len => negb (is_zero len)
      | Throw _ => false
      end
  end.

(** A stored conversation that has a list under [messages]. *)
Definition has_messages_list (x : json) : bool :=
  match x with
  | JObj props =>
      match get_own (map (fun kv => (fst kv, of_json (snd kv))) props)
                    (str "messages") with
      | VArr _ => true
      | _ => false
      end
  | _ => false
  end.

Definition no_space (s : jsstring) : bool :=
  forallb (fun c => negb (is_white_space c)) s.

(** An address as the pattern of [MessageBubble] takes it: a scheme, and
    after it at least one unit, none of them white space. *)
Definition url_shaped (m : jsstring) : Prop :=
  exists scheme body,
    m = scheme ++ body
    /\ (scheme = str "http://" \/ scheme = str "https://")
    /\ body <> [] /\ no_space body = true.

(** The text stops, or goes on with white space. *)
Definition stops_at_space (rest : jsstring) : Prop :=
  match rest with
  | [] => True
  | c :: _ => is_white_space c = true
  end.

(** A unit that [JSON.stringify] writes as itself inside a string, and
    that is not white space. *)
Definition plain_unit (c : code_unit) : bool :=
  negb (c <? 32)%N && negb (c =? 34)%N && negb (c =? 92)%N
  && negb (Platform.is_high_surrogate c || Platform.is_low_surrogate c)
  && negb (is_white_space c).

(** ** Sample inputs *)

Definition sample_readings : Readings :=
  Build_Readings 1700000000000 (str "k3j9x0a1b") 1700000000000
                 1700000000001 1700000000001.

Definition sample_clock (t : Z) : Clock := Build_Clock t t (t + 1).

(** A state with a question typed in, and the send of it. *)
Definition sample_state : State :=
  setInputValue (str "Where is my order?") (page (boot sample_readings)).

Definition sample_sent : State * option Pending :=
  handleSendMessage_start None (sample_clock 1700000001000) sample_state.

Definition sample_pending : Pending :=
  Build_Pending (str "Where is my order?") AGENT_ID
                (activeConversationId sample_state).

(** The page after that question was typed and sent with the button. *)
Definition sample_world : World :=
  run (boot sample_readings)
      [Change (str "Where is my order?");
       ClickSend (sample_clock 1700000001000)].

(** A successful result. *)
Definition sample_response : SupportResponse.t :=
  SupportResponse.mk status_success
    (SupportResult.mk (str "It ships tomorrow.")
       [JStr (str "https://example.com/orders");
        JObj [(str "page", JNum (3 # 1))]]
       (Finite (19 # 20)) [str "Can I change the address?"]).

Definition sample_success : AgentResult.t :=
  AgentResult.mk true (Some sample_response) None.

(** The conversation list of a page after a question and its answer. *)
Definition sample_conversations : list Conversation :=
  conversations
    (page (run sample_world
             [AgentSettles 0 (Resolved sample_success)
                (sample_clock 1700000002000);
              ClickNewChat (Build_Readings 1700000003000 (str "zz81qp0so")
                              1700000003000 1700000003002 1700000003002)])).

(** A follow-up question of 501 units, and a result that suggests it. *)
Definition long_question : jsstring := repeat 97%N 501.

Definition long_followup_result : AgentResult.t :=
  AgentResult.mk true
    (Some (SupportResponse.mk status_success
             (SupportResult.mk (str "Yes.") [] (Finite (1 # 2)) [long_question])))
    None.

(** A result whose confidence is an infinity, as the literal [1e400] in
    the text of a response is read, and the conversation list of a page
    after a question and this answer. *)
Definition infinite_confidence_result : AgentResult.t :=
  AgentResult.mk true
    (Some (SupportResponse.mk status_success
             (SupportResult.mk (str "It ships tomorrow.") []
                (Infinity false) [])))
    None.

Definition infinite_conversations : list Conversation :=
  conversations
    (page (run sample_world
             [AgentSettles 0 (Resolved infinite_confidence_result)
                (sample_clock 1700000002000)])).

(** A question, its sending, and an answer. *)
Definition sample_events : list Event :=
  [Change (str "Where is my order?");
   ClickSend (sample_clock 1700000001000);
   AgentSettles 0 (Resolved sample_success) (sample_clock 1700000002000)].

(** Readings of a later moment. *)
Definition other_readings : Readings :=
  Build_Readings 1700000003000 (str "zz81qp0so") 1700000003000
                 1700000003002 1700000003002.

(** A question typed with white space around it. *)
Definition padded_state : State :=
  setInputValue (str "  Where is my order? ") (page (boot sample_readings)).

(** [toLowerCase] on text of ASCII units. *)
Definition toLowerCase_ascii (s : jsstring) : jsstring :=
  map (fun c => if (65 <=? c)%N && (c <=? 90)%N then (c + 32)%N else c) s.

(** * Properties *)

(** ** Strings *)

Lemma str_eqb_eq a b : str_eqb a b = true <-> a = b.
Proof.
  revert b; induction a as [|x a IH]; intros [|y b]; simpl;
    try (split; [discriminate | discriminate]); try tauto.
  rewrite andb_true_iff, N.eqb_eq, IH.
  split; [intros [-> ->]; reflexivity | intros H; inversion H; auto].
Qed.

Lemma str_eqb_refl a : str_eqb a a = true.
Proof. apply str_eqb_eq; reflexivity. Qed.

Lemma str_eqb_neq a b : a <> b -> str_eqb a b = false.
Proof.
  intros H. destruct (str_eqb a b) eqn:E; [|reflexivity].
  apply str_eqb_eq in E. contradiction.
Qed.

Lemma truncate_short n s : (List.length s <= n)%nat -> truncate n s = s.
Proof.
  intros H. unfold truncate, slice0, js_length.
  rewrite firstn_all2 by assumption.
  destruct (Z.ltb_spec (Z.of_nat n) (Z.of_nat (List.length s))); [lia|].
  apply app_nil_r.
Qed.

Lemma truncate_long n s :
  (n < List.length s)%nat -> truncate n s = firstn n s ++ str "...".
Proof.
  intros H. unfold truncate, slice0, js_length.
  destruct (Z.ltb_spec (Z.of_nat n) (Z.of_nat (List.length s))); [reflexivity|lia].
Qed.

Lemma truncate_length n s :
  List.length (truncate n s)
  = if (List.length s <=? n)%nat then List.length s else (n + 3)%nat.
Proof.
  destruct (Nat.leb_spec (List.length s) n) as [H|H].
  - rewrite truncate_short by assumption. reflexivity.
  - rewrite truncate_long by assumption.
    rewrite length_app, firstn_length_le by lia. reflexivity.
Qed.

(** Only the text [New Conversation] itself is cut to the placeholder
    title. *)
Lemma truncate_40_placeholder s : truncate 40 s = new_title -> s = new_title.
Proof.
  intros H. pose proof (truncate_length 40 s) as L. rewrite H in L.
  destruct (Nat.leb_spec (List.length s) 40) as [Hs|Hs].
  - rewrite truncate_short in H by assumption. exact H.
  - vm_compute in L. discriminate.
Qed.

Lemma trim_start_blank s : forallb is_white_space s = true -> trim_start s = [].
Proof.
  induction s as [|c s IH]; simpl; [reflexivity|].
  rewrite andb_true_iff. intros [-> H]. auto.
Qed.

(** White-space-only text trims to the empty string. *)
Lemma trim_blank s : forallb is_white_space s = true -> trim s = [].
Proof.
  intros H. unfold trim, trim_end. rewrite (trim_start_blank s H).
  reflexivity.
Qed.

(** ** Titles *)

Lemma updateConversation_id cid m d conv :
  Conversation.id (updateConversation cid m d conv) = Conversation.id conv.
Proof. unfold updateConversation. destruct (str_eqb _ cid); reflexivity. Qed.

Lemma updateConversation_other cid m d conv :
  Conversation.id conv <> cid -> updateConversation cid m d conv = conv.
Proof. intros H. unfold updateConversation. rewrite str_eqb_neq; auto. Qed.

Lemma updateConversation_messages m d conv :
  Conversation.messages (updateConversation (Conversation.id conv) m d conv)
  = Conversation.messages conv ++ [m].
Proof. unfold updateConversation. rewrite str_eqb_refl. reflexivity. Qed.

Lemma updateConversation_preview m d conv :
  Conversation.preview (updateConversation (Conversation.id conv) m d conv)
  = truncate 60 (Message.content m).
Proof. unfold updateConversation. rewrite str_eqb_refl. reflexivity. Qed.

(** Once the title is not the placeholder, no append changes it. *)
Lemma title_kept cid ms conv :
  Conversation.title conv <> new_title ->
  Conversation.title (append_all cid ms conv) = Conversation.title conv.
Proof.
  revert conv. induction ms as [|[m d] ms IH]; intros conv H; simpl; [reflexivity|].
  assert (E : Conversation.title (updateConversation cid m d conv)
              = Conversation.title conv).
  { unfold updateConversation. destruct (str_eqb _ cid); [|reflexivity]. simpl.
    rewrite (str_eqb_neq H), andb_false_r. reflexivity. }
  rewrite IH; rewrite E; auto.
Qed.

(** The part of the title rule that holds: when the first user message is
    any text but [New Conversation], the title is that text cut to 40
    units, whatever is appended before and after it. *)
Lemma title_of_first_user_message ms conv m :
  Conversation.title conv = new_title ->
  find is_user (map fst ms) = Some m ->
  Message.content m <> new_title ->
  Conversation.title (append_all (Conversation.id conv) ms conv)
  = truncate 40 (Message.content m).
Proof.
  remember (Conversation.id conv) as cid eqn:Hid. revert conv Hid.
  induction ms as [|[m0 d] ms IH]; intros conv Hid Ht Hf Hc; simpl in *;
    [discriminate|].
  destruct (is_user m0) eqn:Hu.
  - injection Hf as ->.
    rewrite title_kept.
    + unfold updateConversation. rewrite Hid, str_eqb_refl. simpl.
      unfold is_user in Hu. rewrite Hu, Ht, str_eqb_refl. reflexivity.
    + unfold updateConversation. rewrite Hid, str_eqb_refl. simpl.
      unfold is_user in Hu. rewrite Hu, Ht, str_eqb_refl. simpl.
      intros E. apply truncate_40_placeholder in E. contradiction.
  - apply IH; auto.
    + rewrite updateConversation_id. exact Hid.
    + unfold updateConversation. rewrite Hid, str_eqb_refl. simpl.
      unfold is_user in Hu. rewrite Hu. exact Ht.
Qed.

(** C1 (defect).  The title is meant to be the first user message cut to
    40 units, and to stay.  The code tells "no user message yet" by the
    title being [New Conversation]: when the first user message is that
    very text, the title it sets is again the placeholder, and the next
    user message replaces it. *)
Theorem title_replaced_after_placeholder_text r c1 c2 :
  let conv0 := createNewConversation r in
  let first := userMessage c1 (str "New Conversation") in
  let second := userMessage c2 (str "Hello") in
  let conv1 := updateConversation (Conversation.id conv0) first
                 (new_date_update c1) conv0 in
  let conv2 := updateConversation (Conversation.id conv0) second
                 (new_date_update c2) conv1 in
  find is_user (Conversation.messages conv2) = Some first /\
  Conversation.title conv1 = truncate 40 (Message.content first) /\
  Conversation.title conv2 = str "Hello" /\
  Conversation.title conv2 <> truncate 40 (Message.content first).
Proof.
  intros conv0 first second conv1 conv2.
  assert (E1 : conv1 = Conversation.mk (Conversation.id conv0) new_title
                 (truncate 60 (str "New Conversation")) (new_date_update c1)
                 (Conversation.messages conv0 ++ [first])).
  { unfold conv1, updateConversation. rewrite str_eqb_refl. reflexivity. }
  assert (E2 : conv2 = Conversation.mk (Conversation.id conv0) (str "Hello")
                 (truncate 60 (str "Hello")) (new_date_update c2)
                 ((Conversation.messages conv0 ++ [first]) ++ [second])).
  { unfold conv2, updateConversation. rewrite E1. simpl Conversation.id.
    rewrite str_eqb_refl. reflexivity. }
  rewrite E2, E1. simpl. repeat split. discriminate.
Qed.

(** ** Sending *)

Lemma addMessageToConversation_appended cid m d l :
  appended_to cid m l (addMessageToConversation cid m d l).
Proof.
  induction l as [|conv l IH]; simpl; constructor; auto.
  unfold updateConversation. destruct (str_eqb (Conversation.id conv) cid); auto.
Qed.

(** What the part before the [await] does when the guard lets it pass. *)
Lemma handleSendMessage_start_passes messageText c s s1 p :
  handleSendMessage_start messageText c s = (s1, Some p) ->
  let textToSend := or_else messageText (trim (inputValue s)) in
  truthy textToSend = true /\ truthy (activeConversationId s) = true /\
  p = Build_Pending textToSend AGENT_ID (activeConversationId s) /\
  s1 = setIsTyping true (setInputValue []
         (setConversations
            (addMessageToConversation (activeConversationId s)
               (userMessage c textToSend) (new_date_update c)) s)).
Proof.
  unfold handleSendMessage_start. intros H. cbv zeta in *.
  set (textToSend := or_else messageText (trim (inputValue s))) in *.
  destruct (truthy textToSend); simpl in H; [|discriminate].
  destruct (truthy (activeConversationId s)); simpl in H; [|discriminate].
  injection H as <- <-. auto.
Qed.

Lemma reply_message_failed c o :
  failed o = true -> reply_message c o = errorMessage c (fallback_text o).
Proof.
  destruct o as [result|]; simpl; [|reflexivity].
  destruct (AgentResult.success result), (AgentResult.response result);
    simpl; try discriminate; intros _;
    destruct (AgentResult.error result) as [[|x e]|]; reflexivity.
Qed.

(** C3.  A send that passes the guard ends with the typing flag off,
    whatever the outcome of the call and whatever happened on the page
    while it was pending; and when the call failed -- by its result or by
    rejection -- exactly one agent message is appended to the conversation
    that was active at the send, with the error string of the result or
    the fixed text. *)
Theorem send_clears_flag_and_reports_failure messageText c s s1 p :
  handleSendMessage_start messageText c s = (s1, Some p) ->
  isTyping s1 = true /\
  forall o c' s2,
    let s3 := handleSendMessage_settle p o c' s2 in
    isTyping s3 = false /\
    (failed o = true ->
     exists m,
       Message.role m = agent /\
       Message.content m = fallback_text o /\
       appended_to (activeConversationId s) m (conversations s2)
                   (conversations s3)).
Proof.
  intros H. apply handleSendMessage_start_passes in H.
  destruct H as (_ & _ & -> & ->). split; [reflexivity|].
  intros o c' s2 s3. split; [reflexivity|].
  intros Hf. exists (errorMessage c' (fallback_text o)).
  repeat split. unfold s3, handleSendMessage_settle. simpl.
  rewrite reply_message_failed by assumption.
  apply addMessageToConversation_appended.
Qed.

(** C6.  When the call resolves with a success and a response, exactly one
    agent message is appended to the conversation that was active at the
    send; it carries the answer, the confidence, the sources and the
    follow-up questions of the response. *)
Theorem success_appends_the_answer messageText c s s1 p result response c' s2 :
  handleSendMessage_start messageText c s = (s1, Some p) ->
  AgentResult.success result = true ->
  AgentResult.response result = Some response ->
  let r := SupportResponse.result response in
  exists m,
    Message.role m = agent /\
    Message.content m = SupportResult.answer r /\
    Message.confidence m = Some (SupportResult.confidence r) /\
    Message.sources m = Some (SupportResult.sources r) /\
    Message.suggested_followup m = Some (SupportResult.suggested_followup r) /\
    appended_to (activeConversationId s) m (conversations s2)
      (conversations (handleSendMessage_settle p (Resolved result) c' s2)).
Proof.
  intros H Hs Hr r. apply handleSendMessage_start_passes in H.
  destruct H as (_ & _ & -> & _).
  exists (agentMessage c' response). repeat split.
  unfold handleSendMessage_settle. simpl. rewrite Hs, Hr.
  apply addMessageToConversation_appended.
Qed.

(** C10.  A send that passes the guard leaves the message box empty, also
    when the text came as an argument, as from a quick reply. *)
Theorem send_empties_the_message_box messageText c s s1 p :
  handleSendMessage_start messageText c s = (s1, Some p) ->
  inputValue s1 = [].
Proof.
  intros H. apply handleSendMessage_start_passes in H.
  destruct H as (_ & _ & _ & ->). reflexivity.
Qed.

(** Called without a message argument, or with an empty one, while the
    message box is empty or holds white space only -- or called, with any
    argument, while no conversation is active -- [handleSendMessage] does
    nothing: no message, no call, the same state. *)
Lemma send_without_text_does_nothing messageText c w :
  ((messageText = None \/ messageText = Some [])
   /\ blank (inputValue (page w)) = true)
  \/ activeConversationId (page w) = [] ->
  send messageText c w = w.
Proof.
  intros H. unfold send, handleSendMessage_start.
  assert (E : negb (truthy (or_else messageText (trim (inputValue (page w)))))
              || negb (truthy (activeConversationId (page w))) = true).
  { destruct H as [[Hm Hb] | Ha].
    - unfold blank in Hb. rewrite (trim_blank _ Hb).
      destruct Hm as [-> | ->]; reflexivity.
    - rewrite Ha. apply orb_true_r. }
  rewrite E. destruct w; simpl. rewrite app_nil_r. reflexivity.
Qed.

(** ** Previews *)

Lemma preview_rule_fresh r : preview_rule (createNewConversation r).
Proof. split; reflexivity. Qed.

Lemma preview_rule_update cid m d c :
  preview_rule c -> preview_rule (updateConversation cid m d c).
Proof.
  intros H. unfold updateConversation.
  destruct (str_eqb (Conversation.id c) cid); [|exact H].
  unfold preview_rule, lastMessage in *. simpl.
  destruct (Conversation.messages c) as [|m0 [|m1 l]]; [contradiction| |].
  - exists m. split; reflexivity.
  - exists m. split; [|reflexivity].
    change (m0 :: m1 :: l) with ([m0; m1] ++ l).
    rewrite <- app_assoc, rev_app_distr. simpl. rewrite rev_app_distr. reflexivity.
Qed.

Lemma preview_rule_add cid m d l :
  Forall preview_rule l -> Forall preview_rule (addMessageToConversation cid m d l).
Proof.
  intros H. unfold addMessageToConversation. apply Forall_map.
  eapply Forall_impl; [|exact H]. intros c. apply preview_rule_update.
Qed.

(** The invariant: the rule holds of every conversation on the page and
    of every conversation in storage. *)
Definition previews_ok (w : World) : Prop :=
  Forall preview_rule (conversations (page w))
  /\ forall l, storage w = Some l -> Forall preview_rule l.

Lemma previews_ok_send messageText c w :
  Forall preview_rule (conversations (page w)) ->
  Forall preview_rule (conversations (page (send messageText c w))).
Proof.
  intros H. unfold send, handleSendMessage_start.
  destruct (negb _ || negb _); simpl; [exact H|].
  apply preview_rule_add, H.
Qed.

Lemma storage_send messageText c w : storage (send messageText c w) = storage w.
Proof.
  unfold send. destruct (handleSendMessage_start messageText c (page w)).
  reflexivity.
Qed.

Lemma previews_ok_handle w e : previews_ok w -> previews_ok (handle w e).
Proof.
  intros [Hp Hs].
  destruct e; simpl;
    repeat match goal with
           | |- context [if ?b then _ else _] => destruct b
           end;
    try (split; [first [exact Hp | apply previews_ok_send, Hp]
                | first [exact Hs | rewrite storage_send; exact Hs]]).
  - unfold handleInputChange. destruct (_ <=? _); split; assumption.
  - destruct (nth_error (pending w) k); split; simpl; auto.
    apply preview_rule_add, Hp.
  - split; simpl; auto. constructor; [apply preview_rule_fresh | exact Hp].
  - unfold handleFeatureRequest.
    destruct (negb _); split; simpl; auto.
  - split; simpl; auto. unfold mount.
    destruct (storage w) as [[|c0 l]|] eqn:E; simpl;
      try (constructor; [apply preview_rule_fresh | constructor]).
    apply Hs. reflexivity.
Qed.

Lemma previews_ok_reachable w : reachable w -> previews_ok w.
Proof.
  induction 1 as [r | w e _ IH].
  - split; simpl.
    + constructor; [apply preview_rule_fresh | constructor].
    + intros l [= <-]. constructor; [apply preview_rule_fresh | constructor].
  - apply (previews_ok_handle e) in IH. destruct IH as [Hp Hs].
    unfold step. split; simpl; [exact Hp|].
    intros l. destruct (conversations (page (handle w e))) eqn:E; simpl.
    + apply Hs.
    + intros [= <-]. exact Hp.
Qed.

(** C8, as amended.  On every page the transition system reaches, a
    conversation that has had a message appended shows as its preview the
    content of its last message cut to 60 units, with ['...'] when that
    content is longer; a conversation that still holds only the welcome
    message shows the fixed teaser [Hi! I'm here to help...]. *)
Theorem preview_shows_last_appended_message w c :
  reachable w -> In c (conversations (page w)) -> preview_rule c.
Proof.
  intros Hr Hin. apply previews_ok_reachable in Hr. destruct Hr as [Hp _].
  rewrite Forall_forall in Hp. auto.
Qed.

Lemma reachable_run w es : reachable w -> reachable (run w es).
Proof.
  revert w. induction es as [|e es IH]; intros w H; simpl; [exact H|].
  apply IH. constructor. exact H.
Qed.

(** C8, as stated, fails on the conversation every first visit creates:
    its only and last message is the welcome message, 70 units long, and
    its preview is the teaser, not that message cut to 60 units. *)
Lemma fresh_conversation_shows_the_teaser :
  let w := boot sample_readings in
  let c := createNewConversation sample_readings in
  reachable w /\ In c (conversations (page w)) /\
  exists m, lastMessage c = Some m /\
            Conversation.preview c <> truncate 60 (Message.content m).
Proof.
  split; [constructor|]. split; [left; reflexivity|].
  eexists. split; [reflexivity|]. vm_compute. discriminate.
Qed.

Lemma preview_shows_last_appended_message_witness :
  reachable sample_world /\
  exists c, In c (conversations (page sample_world)) /\ preview_rule c.
Proof.
  assert (R : reachable sample_world) by (apply reachable_run; constructor).
  split; [exact R|].
  eexists. split; [left; reflexivity|].
  apply (@preview_shows_last_appended_message sample_world _ R).
  left. reflexivity.
Defined.

(** ** Witnesses for the send *)

Lemma sample_sent_eq :
  handleSendMessage_start None (sample_clock 1700000001000) sample_state
  = (fst sample_sent, Some sample_pending).
Proof. reflexivity. Qed.

Lemma send_clears_flag_and_reports_failure_witness :
  isTyping (fst sample_sent) = true /\
  forall o c' s2,
    let s3 := handleSendMessage_settle sample_pending o c' s2 in
    isTyping s3 = false /\
    (failed o = true ->
     exists m,
       Message.role m = agent /\
       Message.content m = fallback_text o /\
       appended_to (activeConversationId sample_state) m (conversations s2)
                   (conversations s3)).
Proof.
  exact (@send_clears_flag_and_reports_failure None
           (sample_clock 1700000001000) sample_state (fst sample_sent)
           sample_pending sample_sent_eq).
Defined.

Lemma success_appends_the_answer_witness :
  exists m,
    Message.role m = agent /\
    Message.content m = str "It ships tomorrow." /\
    Message.confidence m = Some (Finite (19 # 20)) /\
    Message.sources m
    = Some [JStr (str "https://example.com/orders"); JObj [(str "page", JNum (3 # 1))]] /\
    Message.suggested_followup m = Some [str "Can I change the address?"] /\
    appended_to (activeConversationId sample_state) m
      (conversations (fst sample_sent))
      (conversations
         (handleSendMessage_settle sample_pending (Resolved sample_success)
            (sample_clock 1700000002000) (fst sample_sent))).
Proof.
  exact (@success_appends_the_answer None (sample_clock 1700000001000)
           sample_state (fst sample_sent) sample_pending sample_success
           sample_response (sample_clock 1700000002000) (fst sample_sent)
           sample_sent_eq eq_refl eq_refl).
Defined.

(** A quick reply clicked over a draft: the draft is gone. *)
Lemma send_empties_the_message_box_witness :
  let s := setInputValue (str "a draft") (page (boot sample_readings)) in
  let sent := handleSendMessage_start (Some (str "Pricing"))
                (sample_clock 1700000001000) s in
  inputValue s = str "a draft" /\ inputValue (fst sent) = [].
Proof.
  split; [reflexivity|].
  apply (@send_empties_the_message_box (Some (str "Pricing"))
           (sample_clock 1700000001000)
           (setInputValue (str "a draft") (page (boot sample_readings))) _
           (Build_Pending (str "Pricing") AGENT_ID
              (activeConversationId (page (boot sample_readings))))).
  reflexivity.
Defined.

(** No quick reply is blank. *)
Lemma quick_replies_are_not_blank reply :
  blank reply = true -> existsb (str_eqb reply) QUICK_REPLIES = false.
Proof.
  intros Hb. destruct (existsb (str_eqb reply) QUICK_REPLIES) eqn:E;
    [|reflexivity].
  apply existsb_exists in E. destruct E as (x & Hin & Hx).
  apply str_eqb_eq in Hx. subst x.
  simpl in Hin. destruct Hin as [<-|[<-|[<-|[<-|[]]]]]; discriminate.
Qed.

(** C7.  Whichever way [handleSendMessage] is invoked -- by Enter, by the
    send button, or by a quick reply with its label as the argument --
    when the text it is handed is empty or white space only, or when no
    conversation is active, nothing happens: no message is appended, no
    call is started, and the conversations, the typing flag and
    everything else stay as they were.  (An argument is not trimmed by
    [handleSendMessage] itself; its only callers pass the labels of
    [QUICK_REPLIES], none of which is blank.) *)
Theorem blank_send_is_a_no_op w e text :
  submitted_text w e = Some text ->
  blank text = true \/ activeConversationId (page w) = [] ->
  handle w e = w.
Proof.
  intros Hs H.
  assert (None_ : forall c,
            text = inputValue (page w) -> send None c w = w).
  { intros c ->. apply send_without_text_does_nothing.
    destruct H as [Hb | Ha]; [left; split; [left; reflexivity | exact Hb]
                             | right; exact Ha]. }
  destruct e; cbn [submitted_text handle] in *; try discriminate.
  - destruct (str_eqb key (str "Enter") && negb shiftKey); [|discriminate].
    injection Hs as <-. apply None_. reflexivity.
  - injection Hs as <-.
    destruct (send_disabled (page w)); [reflexivity | apply None_; reflexivity].
  - injection Hs as <-. destruct H as [Hb | Ha].
    + rewrite (quick_replies_are_not_blank _ Hb), andb_false_r. reflexivity.
    + destruct (_ && _); [|reflexivity].
      apply send_without_text_does_nothing. right. exact Ha.
Qed.

Lemma blank_send_is_a_no_op_witness :
  let w := on_page (setInputValue (str "  ")) (boot sample_readings) in
  let e := KeyDown (str "Enter") false (sample_clock 1700000001000) in
  submitted_text w e = Some (str "  ") /\ handle w e = w.
Proof.
  split; [reflexivity|].
  apply (@blank_send_is_a_no_op
           (on_page (setInputValue (str "  ")) (boot sample_readings))
           (KeyDown (str "Enter") false (sample_clock 1700000001000))
           (str "  ")); [reflexivity | left; reflexivity].
Defined.

(** ** The input cap *)

(** The [onChange] handler keeps the message box within 500 units. *)
Lemma handleInputChange_cap value s :
  js_length (inputValue s) <= 500 ->
  js_length (inputValue (handleInputChange value s)) <= 500.
Proof.
  intros H. unfold handleInputChange.
  destruct (Z.leb_spec (js_length value) 500); simpl; assumption.
Qed.

(** So does every event but a suggested question. *)
Lemma cap_kept_by_other_events w e :
  (forall detail, e <> SuggestedQuestion detail) ->
  js_length (inputValue (page w)) <= 500 ->
  js_length (inputValue (page (step w e))) <= 500.
Proof.
  intros He H. unfold step. simpl.
  assert (Hsend : forall mt c,
             js_length (inputValue (page (send mt c w))) <= 500).
  { intros mt c. unfold send, handleSendMessage_start.
    destruct (negb _ || negb _); simpl; [exact H | unfold js_length; simpl; lia]. }
  destruct e; simpl;
    repeat match goal with
           | |- context [if ?b then _ else _] => destruct b
           end;
    try exact H; try apply Hsend.
  - apply handleInputChange_cap, H.
  - exfalso. eapply He. reflexivity.
  - destruct (nth_error (pending w) k); simpl; exact H.
  - unfold handleFeatureRequest. destruct (negb _); simpl; exact H.
  - unfold mount. destruct (storage w) as [[|c0 l]|]; simpl;
      unfold js_length; simpl; lia.
Qed.

(** C4 (defect).  The message box is meant to hold at most 500 units, and
    [onChange] refuses longer text; the listener for suggested questions
    sets the box to the question without looking at its length.  The
    agent answers with a follow-up question of 501 units, and the question
    is put in the box: *)
Theorem suggested_question_exceeds_the_cap r c1 c2 :
  let w := run (boot r)
               [Change (str "a"); ClickSend c1;
                AgentSettles 0 (Resolved long_followup_result) c2;
                SuggestedQuestion long_question] in
  reachable w /\
  option_map (fun c => option_map Message.suggested_followup (lastMessage c))
             (activeConversation (page w))
  = Some (Some (Some [long_question])) /\
  js_length (inputValue (page w)) = 501.
Proof.
  split; [apply reachable_run; constructor|].
  split; [|reflexivity].
  cbn -[long_question str_eqb Z_to_jsstring].
  rewrite !updateConversation_id. cbn -[long_question str_eqb Z_to_jsstring].
  rewrite str_eqb_refl. unfold updateConversation.
  cbn -[long_question str_eqb Z_to_jsstring]. rewrite !str_eqb_refl.
  reflexivity.
Qed.

(** ** One call at a time *)

(** The send button is disabled, and the quick replies are not rendered,
    while the typing flag is set. *)
Lemma send_button_waits w c :
  isTyping (page w) = true -> handle w (ClickSend c) = w.
Proof.
  intros H. simpl. unfold send_disabled. rewrite H, orb_true_r. reflexivity.
Qed.

Lemma quick_reply_waits w reply c :
  isTyping (page w) = true -> handle w (ClickQuickReply reply c) = w.
Proof.
  intros H. simpl. unfold quick_replies_shown. rewrite H.
  destruct (activeConversation (page w)); simpl;
    rewrite ?andb_false_r; reflexivity.
Qed.

(** C9 (defect).  While a call is pending the button and the quick replies
    cannot start another; the Enter key can, because [handleKeyDown] calls
    [handleSendMessage] without looking at the typing flag.  Type, send,
    type again, press Enter: two calls are in flight. *)
Theorem enter_starts_a_second_call r c1 c2 :
  let w1 := run (boot r) [Change (str "a"); ClickSend c1; Change (str "b")] in
  let w2 := step w1 (KeyDown (str "Enter") false c2) in
  reachable w1 /\
  isTyping (page w1) = true /\
  map call_message (pending w1) = [str "a"] /\
  map call_message (pending w2) = [str "a"; str "b"].
Proof.
  split; [apply reachable_run; constructor|].
  repeat split.
Qed.

(** ** Local storage *)

Lemma json_nested_ind (P : json -> Prop) :
  P JNull -> (forall b, P (JBool b)) -> (forall n, P (JNum n)) ->
  (forall s, P (JStr s)) ->
  (forall l, Forall P l -> P (JArr l)) ->
  (forall props, Forall (fun kv => P (snd kv)) props -> P (JObj props)) ->
  forall j, P j.
Proof.
  intros Hnull Hbool Hnum Hstr Harr Hobj.
  fix IH 1. intros [ | b | n | s | l | props ].
  - exact Hnull.
  - apply Hbool.
  - apply Hnum.
  - apply Hstr.
  - apply Harr. induction l as [|x l IHl]; constructor; [apply IH | exact IHl].
  - apply Hobj.
    induction props as [|[k x] props IHp]; constructor; [apply IH | exact IHp].
Qed.

Section StorageFacts.

Variable JSON_parse : jsstring -> completion json.
Variable JSON_text : json -> jsstring.
Variable toISOString : Z -> jsstring.
Variable new_Date : jsval -> completion (option Z).

Lemma number_of_literal_finite q :
  overflows q = false -> number_of_literal q = Finite q.
Proof. intros H. unfold number_of_literal. rewrite H. reflexivity. Qed.

(** A JSON value within the doubles is written as itself. *)
Lemma serialize_of_json j :
  within_doubles j = true -> serialize toISOString (of_json j) = Some j.
Proof.
  induction j as [ | b | n | s | l IH | props IH ] using json_nested_ind;
    try reflexivity; cbn [within_doubles of_json serialize].
  - rewrite negb_true_iff. intros H.
    rewrite (number_of_literal_finite _ H). reflexivity.
  - intros H. do 2 f_equal. rewrite map_map.
    induction IH as [|x l Hx _ IHl]; cbn [map]; [reflexivity|].
    cbn [forallb] in H. apply andb_true_iff in H. destruct H as [H1 H2].
    rewrite (Hx H1), (IHl H2). reflexivity.
  - intros H. do 2 f_equal.
    induction IH as [|[k x] props Hx _ IHp]; cbn [map]; [reflexivity|].
    cbn [forallb snd fst] in *. apply andb_true_iff in H.
    destruct H as [H1 H2]. rewrite (Hx H1), (IHp H2). reflexivity.
Qed.

Lemma serialize_sources l :
  forallb within_doubles l = true ->
  map (fun x => match serialize toISOString x with
                | Some j => j
                | None => JNull
                end)
      (map of_json l) = l.
Proof.
  rewrite map_map. induction l as [|x l IH]; cbn [map forallb]; [reflexivity|].
  rewrite andb_true_iff. intros [H1 H2].
  rewrite (serialize_of_json _ H1), (IH H2). reflexivity.
Qed.

Lemma serialize_strings (l : list jsstring) :
  map (fun x => match serialize toISOString x with
                | Some j => j
                | None => JNull
                end)
      (map VStr l) = map JStr l.
Proof. rewrite map_map. reflexivity. Qed.

Lemma serialize_message m :
  numbers_finite m ->
  serialize toISOString (message_to_js m) = Some (message_json toISOString m).
Proof.
  destruct m as [i ro co ts [cf|] [so|] [fo|]]; intros [_ Hs];
    cbn [Message.sources] in Hs;
    unfold message_to_js, message_json; simpl;
    rewrite ?(serialize_sources _ Hs), ?serialize_strings;
    destruct ro; reflexivity.
Qed.

Lemma serialize_messages l :
  Forall numbers_finite l ->
  map (fun x => match serialize toISOString x with
                | Some j => j
                | None => JNull
                end)
      (map message_to_js l) = map (message_json toISOString) l.
Proof.
  rewrite map_map. induction 1 as [|m l Hm _ IH]; cbn [map]; [reflexivity|].
  rewrite (serialize_message Hm), IH. reflexivity.
Qed.

Lemma serialize_conversation c :
  conversation_numbers_finite c ->
  serialize toISOString (conversation_to_js c)
  = Some (conversation_json toISOString c).
Proof.
  intros H. unfold conversation_to_js, conversation_json. simpl.
  rewrite (serialize_messages H). reflexivity.
Qed.

Lemma serialize_conversations l :
  Forall conversation_numbers_finite l ->
  serialize toISOString (VArr (map conversation_to_js l))
  = Some (JArr (map (conversation_json toISOString) l)).
Proof.
  intros H. simpl. do 2 f_equal. rewrite map_map.
  induction H as [|c l Hc _ IH]; cbn [map]; [reflexivity|].
  rewrite (serialize_conversation Hc), IH. reflexivity.
Qed.

Lemma of_json_strings (l : list jsstring) :
  map of_json (map JStr l) = map VStr l.
Proof. rewrite map_map. reflexivity. Qed.

(** The reviver gives back the message that was written. *)
Lemma revive_message_written m :
  Date_round_trip toISOString new_Date (Message.timestamp m) ->
  numbers_finite m ->
  revive_message new_Date (of_json (message_json toISOString m))
  = Normal (message_to_js m).
Proof.
  intros Hd [Hc _]. unfold revive_message.
  assert (E : get (of_json (message_json toISOString m)) (str "timestamp")
              = Normal (VStr (toISOString (Message.timestamp m))))
    by reflexivity.
  rewrite E. cbn [bindC]. rewrite Hd. cbn [bindC].
  destruct m as [i ro co ts [[q|b|]|] [so|] [fo|]];
    cbn [Message.confidence] in Hc; try contradiction;
    unfold message_to_js, message_json;
    cbn [Message.id Message.role Message.content Message.timestamp
         Message.confidence Message.sources Message.suggested_followup
         optional optional_json app of_json map fst snd number_json
         spread set_prop role_to_js];
    rewrite ?(number_of_literal_finite _ Hc), ?of_json_strings;
    destruct ro; reflexivity.
Qed.

Lemma revive_messages_written l :
  Forall (fun m => Date_round_trip toISOString new_Date (Message.timestamp m)) l ->
  Forall numbers_finite l ->
  mapC (revive_message new_Date) (map of_json (map (message_json toISOString) l))
  = Normal (map message_to_js l).
Proof.
  induction 1 as [|m l Hm _ IH]; cbn [map mapC]; [reflexivity|].
  intros Hn. inversion Hn as [|m' l' Hn1 Hn2]; subst.
  rewrite revive_message_written by assumption. cbn [bindC].
  rewrite (IH Hn2). reflexivity.
Qed.

Lemma revive_conversation_written c :
  dates_round_trip toISOString new_Date c ->
  conversation_numbers_finite c ->
  revive_conversation new_Date (of_json (conversation_json toISOString c))
  = Normal (conversation_to_js c).
Proof.
  intros [Hd Hm] Hn. unfold revive_conversation.
  assert (E : get (of_json (conversation_json toISOString c)) (str "timestamp")
              = Normal (VStr (toISOString (Conversation.timestamp c))))
    by reflexivity.
  rewrite E. cbn [bindC]. rewrite Hd. cbn [bindC].
  assert (E' : get (of_json (conversation_json toISOString c)) (str "messages")
               = Normal (VArr (map of_json (map (message_json toISOString)
                                                (Conversation.messages c)))))
    by reflexivity.
  rewrite E'. cbn [bindC call_map].
  rewrite revive_messages_written by assumption. reflexivity.
Qed.

Lemma revive_conversations_written l :
  Forall (dates_round_trip toISOString new_Date) l ->
  Forall conversation_numbers_finite l ->
  mapC (revive_conversation new_Date)
       (map of_json (map (conversation_json toISOString) l))
  = Normal (map conversation_to_js l).
Proof.
  induction 1 as [|c l Hc _ IH]; cbn [map mapC]; [reflexivity|].
  intros Hn. inversion Hn as [|c' l' Hn1 Hn2]; subst.
  rewrite revive_conversation_written by assumption. cbn [bindC].
  rewrite (IH Hn2). reflexivity.
Qed.

(** What the load effect does with the text the save effect wrote, when
    that text is not empty, parses to the JSON value written, the time
    stamps are read back from their ISO texts, and the numbers are
    finite. *)
Lemma load_effect_reads_back convs item r :
  convs <> [] ->
  truthy (JSON_text (JArr (map (conversation_json toISOString) convs))) = true ->
  JSON_parse (JSON_text (JArr (map (conversation_json toISOString) convs)))
  = Normal (JArr (map (conversation_json toISOString) convs)) ->
  Forall (dates_round_trip toISOString new_Date) convs ->
  Forall conversation_numbers_finite convs ->
  load_effect JSON_parse new_Date
    (save_effect_js JSON_text toISOString (map conversation_to_js convs) item)
    r empty_store
  = (Normal tt,
     mkStore (map conversation_to_js convs)
             (VStr (match convs with
                    | c :: _ => Conversation.id c
                    | [] => []
                    end)) []).
Proof.
  intros Hne Ht Hp Hd Hn.
  destruct convs as [|c rest]; [contradiction|].
  unfold save_effect_js, JSON_stringify.
  cbn [map]. change (conversation_to_js c :: map conversation_to_js rest)
    with (map conversation_to_js (c :: rest)).
  rewrite (serialize_conversations Hn). cbn [option_map].
  unfold load_effect. rewrite Ht.
  unfold bind, try_catch, eval, ret. rewrite Hp.
  cbn [of_json call_map]. rewrite revive_conversations_written by assumption.
  reflexivity.
Qed.

(** The same from what the platform promises at the list itself: that the
    text written for it parses to the JSON value written, and that the ISO
    text of each time stamp makes a [Date] of that time value.  It holds
    for the built-ins of any engine that keeps the two promises. *)
Lemma saved_conversations_load_back convs item r :
  convs <> [] ->
  JSON_round_trip JSON_parse JSON_text toISOString
    (VArr (map conversation_to_js convs)) ->
  Forall (dates_round_trip toISOString new_Date) convs ->
  Forall conversation_numbers_finite convs ->
  load_effect JSON_parse new_Date
    (save_effect_js JSON_text toISOString (map conversation_to_js convs) item)
    r empty_store
  = (Normal tt,
     mkStore (map conversation_to_js convs)
             (VStr (match convs with
                    | c :: _ => Conversation.id c
                    | [] => []
                    end)) []).
Proof.
  intros Hne Hrt Hd Hn.
  destruct (Hrt _ (serialize_conversations Hn)) as [Ht Hp].
  destruct convs as [|c rest]; [contradiction|].
  apply load_effect_reads_back;
    [discriminate | exact Ht | exact Hp | exact Hd | exact Hn].
Qed.

(** C2 (defect).  Storage that holds text which is not JSON is meant to
    be caught, logged, and answered with a fresh conversation.  The
    [try] block does catch and log the exception of [JSON.parse]; the
    test that follows it parses the same text again, outside the [try]
    block, and that exception leaves the effect: no conversation is
    created and none is made active. *)
Theorem malformed_storage_makes_load_throw stored e r st :
  truthy stored = true ->
  JSON_parse stored = Throw e ->
  load_effect JSON_parse new_Date (Some stored) r st
  = (Throw e,
     mkStore (store_conversations st) (store_activeConversationId st)
             (store_console st
              ++ [(str "Failed to parse stored conversations:", e)])).
Proof.
  intros Ht Hp. unfold load_effect. rewrite Ht.
  unfold bind, try_catch, eval, ret. rewrite Hp. reflexivity.
Qed.

(** With nothing stored the effect creates the first conversation. *)
Lemma empty_storage_makes_first_conversation r :
  load_effect JSON_parse new_Date None r empty_store
  = (Normal tt,
     mkStore [conversation_to_js (createNewConversation r)]
             (VStr (Conversation.id (createNewConversation r))) []).
Proof. reflexivity. Qed.

(** The state [mount] describes is the one the load effect builds from
    what the save effect wrote, for conversations with finite numbers. *)
Lemma load_effect_is_mount stored r :
  (forall l, stored = Some l -> l <> [] ->
     JSON_round_trip JSON_parse JSON_text toISOString
       (VArr (map conversation_to_js l))
     /\ Forall (dates_round_trip toISOString new_Date) l
     /\ Forall conversation_numbers_finite l) ->
  load_effect JSON_parse new_Date
    (match stored with
     | Some l => save_effect_js JSON_text toISOString
                   (map conversation_to_js l) None
     | None => None
     end) r empty_store
  = (Normal tt,
     mkStore (map conversation_to_js (conversations (mount stored r)))
             (VStr (activeConversationId (mount stored r))) []).
Proof.
  intros H. destruct stored as [[|c l]|]; try reflexivity.
  destruct (H (c :: l) eq_refl) as (Hj & Hd & Hn); [discriminate|].
  destruct (Hj _ (serialize_conversations Hn)) as [Ht Hp].
  apply load_effect_reads_back;
    [discriminate | exact Ht | exact Hp | exact Hd | exact Hn].
Qed.

End StorageFacts.

(** ** The effects on concrete storage *)

(** Text that is not JSON: the effect throws and leaves no conversation. *)
Lemma malformed_storage_makes_load_throw_witness :
  load_effect Platform.JSON_parse Platform.new_Date (Some (str "{"))
              sample_readings empty_store
  = (Throw SyntaxError,
     mkStore [] (VStr [])
             [(str "Failed to parse stored conversations:", SyntaxError)]).
Proof.
  apply (@malformed_storage_makes_load_throw Platform.JSON_parse
           Platform.new_Date (str "{") SyntaxError sample_readings empty_store);
    reflexivity.
Defined.

(** JSON that is not a list: [parsed.map] throws inside the [try] block,
    [JSON.parse(stored).length] is [undefined], and the page is left with
    no conversation at all. *)
Example object_in_storage_leaves_no_conversation :
  load_effect Platform.JSON_parse Platform.new_Date (Some (str "{}"))
              sample_readings empty_store
  = (Normal tt,
     mkStore [] (VStr [])
             [(str "Failed to parse stored conversations:", TypeError)]).
Proof. reflexivity. Qed.

(** An empty list in storage is replaced by a first conversation. *)
Example empty_list_in_storage_makes_first_conversation :
  load_effect Platform.JSON_parse Platform.new_Date (Some (str "[]"))
              sample_readings empty_store
  = (Normal tt,
     mkStore [conversation_to_js (createNewConversation sample_readings)]
             (VStr (Conversation.id (createNewConversation sample_readings)))
             []).
Proof. reflexivity. Qed.

Example saved_conversations_load_back_sample :
  load_effect Platform.JSON_parse Platform.new_Date
    (save_effect_js Platform.JSON_text Platform.toISOString
       (map conversation_to_js sample_conversations) None)
    sample_readings empty_store
  = (Normal tt,
     mkStore (map conversation_to_js sample_conversations)
             (VStr (str "conv-1700000003000-zz81qp0so")) []).
Proof.
  apply (@saved_conversations_load_back Platform.JSON_parse Platform.JSON_text
           Platform.toISOString Platform.new_Date sample_conversations None
           sample_readings).
  - discriminate.
  - intros j H. vm_compute in H. injection H as <-. vm_compute. split; reflexivity.
  - repeat constructor.
  - vm_compute. repeat constructor.
Qed.

(** ** The implementation keeps the promises of [Date] *)

Module PlatformFacts.
Import Platform.
Local Open Scope Z_scope.

Lemma each_from_range (P : Z -> Prop) count i x :
  each_from P count i -> i <= x < i + Z.of_nat count -> P x.
Proof.
  revert i. induction count as [|count IH]; intros i H Hx; [lia|].
  destruct H as [H0 H1]. destruct (Z.eq_dec x i) as [->|Hne]; [exact H0|].
  apply (IH (i + 1)); [exact H1 | lia].
Qed.

(** Year of the era and day of the year, from the day of the era. *)
Lemma era_local doe :
  0 <= doe < 146097 ->
  let yoe := (doe - doe / 1460 + doe / 36524 - doe / 146096) / 365 in
  let doy := doe - (365 * yoe + yoe / 4 - yoe / 100) in
  0 <= yoe <= 399 /\ 0 <= doy <= 365 /\
  (doy = 365 -> (yoe + 1) mod 4 = 0 /\ ((yoe + 1) mod 100 <> 0 \/ yoe + 1 = 400)).
Proof.
  intros H yoe doy. subst doy yoe. Z.div_mod_to_equations. lia.
Qed.

(** Month (counted from March) and day of the month, from the day of the
    year. *)
Lemma year_local doy :
  0 <= doy <= 365 ->
  let mp := (5 * doy + 2) / 153 in
  let d := doy - (153 * mp + 2) / 5 + 1 in
  0 <= mp <= 11 /\ 1 <= d /\
  (mp = 11 -> d = doy - 336) /\
  (mp <> 11 ->
   d <= if (mp =? 1) || (mp =? 3) || (mp =? 6) || (mp =? 8) then 30 else 31).
Proof.
  intros H mp d. subst d mp.
  assert (Hmp : 0 <= (5 * doy + 2) / 153 <= 11)
    by (Z.div_mod_to_equations; lia).
  split; [exact Hmp|].
  set (mp := (5 * doy + 2) / 153) in *.
  assert (Hd : 153 * mp <= 5 * doy + 2 < 153 * mp + 153)
    by (subst mp; Z.div_mod_to_equations; lia).
  remember (5 * doy + 2) as e eqn:He in Hd.
  clearbody mp. revert Hd. pattern mp.
  apply (@each_from_range _ 12 0); [|lia].
  cbn. repeat split; intros; lia.
Qed.

Lemma is_leap_shift y era : is_leap (y + era * 400) = is_leap y.
Proof.
  unfold is_leap.
  replace ((y + era * 400) mod 4) with (y mod 4)
    by (Z.div_mod_to_equations; lia).
  replace ((y + era * 400) mod 100) with (y mod 100)
    by (Z.div_mod_to_equations; lia).
  replace ((y + era * 400) mod 400) with (y mod 400)
    by (Z.div_mod_to_equations; lia).
  reflexivity.
Qed.

Lemma is_leap_true y :
  y mod 4 = 0 -> y mod 100 <> 0 \/ y mod 400 = 0 -> is_leap y = true.
Proof.
  intros H4 H. unfold is_leap. rewrite H4. simpl.
  destruct H as [H|H].
  - destruct (Z.eqb_spec (y mod 100) 0); [contradiction|reflexivity].
  - rewrite H. apply orb_true_r.
Qed.

(** The calendar date of a day number is a date of the calendar, and the
    day number of that date. *)
Lemma civil_from_days_spec day :
  let '(y, m, d) := civil_from_days day in
  1 <= m <= 12 /\ 1 <= d <= days_in_month y m /\ days_from_civil y m d = day
  /\ (day + 719468) / 146097 * 400 <= y <= (day + 719468) / 146097 * 400 + 400.
Proof.
  unfold civil_from_days.
  set (z := day + 719468). set (era := z / 146097).
  set (doe := z - era * 146097).
  assert (Hdoe : 0 <= doe < 146097)
    by (subst doe era; Z.div_mod_to_equations; lia).
  destruct (@era_local _ Hdoe) as (Hyoe & Hdoy & Hleap).
  set (yoe := (doe - doe / 1460 + doe / 36524 - doe / 146096) / 365) in *.
  set (doy := doe - (365 * yoe + yoe / 4 - yoe / 100)) in *.
  destruct (@year_local _ Hdoy) as (Hmp & Hd1 & Hfeb & Hother).
  set (mp := (5 * doy + 2) / 153) in *.
  set (d := doy - (153 * mp + 2) / 5 + 1) in *.
  cbv zeta.
  assert (Hera : (yoe + era * 400) / 400 = era)
    by (Z.div_mod_to_equations; lia).
  assert (Hback : forall m y,
             m = (if mp <? 10 then mp + 3 else mp - 9) ->
             y = (if m <=? 2 then yoe + era * 400 + 1 else yoe + era * 400) ->
             days_from_civil y m d = day).
  { intros m y -> ->. unfold days_from_civil.
    replace (if (if mp <? 10 then mp + 3 else mp - 9) <=? 2
             then (if (if mp <? 10 then mp + 3 else mp - 9) <=? 2
                   then yoe + era * 400 + 1 else yoe + era * 400) - 1
             else (if (if mp <? 10 then mp + 3 else mp - 9) <=? 2
                   then yoe + era * 400 + 1 else yoe + era * 400))
      with (yoe + era * 400)
      by (destruct (mp <? 10); destruct (_ <=? 2); lia).
    replace (if 2 <? (if mp <? 10 then mp + 3 else mp - 9)
             then (if mp <? 10 then mp + 3 else mp - 9) - 3
             else (if mp <? 10 then mp + 3 else mp - 9) + 9)
      with mp
      by (destruct (Z.ltb_spec mp 10);
          match goal with |- context [2 <? ?a] => destruct (Z.ltb_spec 2 a) end;
          lia).
    cbv zeta. rewrite Hera.
    replace (yoe + era * 400 - era * 400) with yoe by lia.
    subst d doy doe z. lia. }
  split; [destruct (Z.ltb_spec mp 10); lia|].
  split; [|split; [apply Hback; reflexivity
                   | fold z; fold era; destruct (_ <=? 2); lia]].
  split; [exact Hd1|].
  unfold days_in_month.
  destruct (Z.eq_dec mp 11) as [E|E].
  - rewrite E. cbn. replace (yoe + era * 400 + 1) with (yoe + 1 + era * 400) by lia.
    rewrite is_leap_shift. specialize (Hfeb E).
    destruct (Z.eq_dec doy 365) as [E'|E'].
    + destruct (Hleap E') as [H4 H100].
      rewrite is_leap_true; [lia | exact H4 |].
      destruct H100 as [H|H]; [left; exact H | right; rewrite H; reflexivity].
    + destruct (is_leap (yoe + 1)); lia.
  - specialize (Hother E).
    clearbody d. clear Hback Hfeb. clearbody mp. revert E Hother. pattern mp.
    apply (@each_from_range _ 12 0); [|lia].
    cbn. repeat split; intros; lia.
Qed.

(** *** Fields of digits *)

Lemma digit_unit r :
  0 <= r <= 9 ->
  is_digit (Z.to_N (48 + r)) = true /\ Z.of_N (Z.to_N (48 + r) - 48) = r.
Proof.
  intros H. pattern r. apply (@each_from_range _ 10 0); [|lia].
  cbn. repeat split.
Qed.

Lemma pad_length width n : List.length (pad width n) = width.
Proof.
  revert n. induction width as [|w IH]; intros n; simpl; [reflexivity|].
  rewrite length_app, IH. simpl. lia.
Qed.

Lemma pad_digits width n : forallb is_digit (pad width n) = true.
Proof.
  revert n. induction width as [|w IH]; intros n; cbn [pad]; [reflexivity|].
  rewrite forallb_app, IH. cbn [forallb andb].
  destruct (@digit_unit (n mod 10)) as [-> _]; [|reflexivity].
  pose proof (Z.mod_pos_bound n 10). lia.
Qed.

Lemma digits_value_snoc ds c :
  digits_value (ds ++ [c]) = digits_value ds * 10 + Z.of_N (c - 48).
Proof. unfold digits_value. rewrite fold_left_app. reflexivity. Qed.

Lemma pad_value width n :
  digits_value (pad width n) = n mod 10 ^ Z.of_nat width.
Proof.
  revert n. induction width as [|w IH]; intros n.
  - simpl. rewrite Z.mod_1_r. reflexivity.
  - cbn [pad]. rewrite digits_value_snoc, IH.
    destruct (@digit_unit (n mod 10)) as [_ ->];
      [pose proof (Z.mod_pos_bound n 10); lia|].
    rewrite Nat2Z.inj_succ, Z.pow_succ_r by lia.
    rewrite (Z.rem_mul_r n 10 (10 ^ Z.of_nat w)) by lia. lia.
Qed.

(** A field of [width] digits is read back as the number written. *)
Lemma read_field_pad width n rest :
  0 <= n < 10 ^ Z.of_nat width ->
  read_field width (pad width n ++ rest) = Some (n, rest).
Proof.
  intros H. unfold read_field.
  rewrite firstn_app, pad_length, Nat.sub_diag, firstn_O, app_nil_r.
  rewrite firstn_all2 by (rewrite pad_length; lia).
  rewrite pad_length, Nat.eqb_refl, pad_digits. cbn [andb].
  rewrite pad_value, Z.mod_small by exact H.
  rewrite skipn_app, pad_length, Nat.sub_diag, skipn_O.
  rewrite skipn_all2 by (rewrite pad_length; lia). reflexivity.
Qed.

Lemma read_year_written y rest :
  -999999 <= y <= 999999 ->
  read_year (write_year y ++ rest) = Some (y, rest).
Proof.
  intros H. unfold write_year.
  destruct (Z.leb_spec 0 y) as [H0|H0]; cbn [andb].
  - destruct (Z.leb_spec y 9999) as [H1|H1].
    + pose proof (pad_length 4 y) as L. pose proof (pad_digits 4 y) as D.
      destruct (pad 4 y) as [|c l] eqn:E; [discriminate|].
      cbn [app read_year]. cbn [forallb] in D.
      apply andb_true_iff in D. destruct D as [D _].
      unfold is_digit in D. apply andb_true_iff in D. destruct D as [D _].
      apply N.leb_le in D.
      destruct (N.eqb_spec c 43); [lia|]. destruct (N.eqb_spec c 45); [lia|].
      change (c :: l ++ rest) with ((c :: l) ++ rest). rewrite <- E.
      apply read_field_pad. simpl. lia.
    + destruct (Z.ltb_spec y 0); [lia|].
      rewrite <- app_assoc. cbn [app read_year].
      change (N.eqb 43 43) with true. cbv iota.
      rewrite read_field_pad by (simpl; lia). f_equal. f_equal. lia.
  - destruct (Z.ltb_spec y 0); [|lia].
    rewrite <- app_assoc. cbn [app read_year].
    change (N.eqb 45 43) with false. change (N.eqb 45 45) with true. cbv iota.
    rewrite read_field_pad by (simpl; lia). cbn [bindO fst snd].
    destruct (Z.eqb_spec (Z.abs y) 0); [lia|]. f_equal. f_equal. lia.
Qed.

(** *** The date law *)

(** A time value in the range of [Date], written by [toISOString], is read
    back by [Date.parse]. *)
Theorem Date_parse_toISOString t :
  -8640000000000000 <= t <= 8640000000000000 ->
  Date_parse (toISOString t) = Some t.
Proof.
  intros Ht. unfold toISOString.
  pose proof (civil_from_days_spec (t / msPerDay)) as S.
  destruct (civil_from_days (t / msPerDay)) as [[y m] d].
  destruct S as (Hm & Hd & Hback & Hy).
  set (ms := t mod msPerDay).
  assert (Hms : 0 <= ms < 86400000) by (apply Z.mod_pos_bound; reflexivity).
  assert (Hday : -100000000 <= t / msPerDay <= 100000000)
    by (unfold msPerDay; Z.div_mod_to_equations; lia).
  assert (Hdim : days_in_month y m <= 31).
  { unfold days_in_month.
    repeat match goal with |- context [if ?b then _ else _] => destruct b end;
      lia. }
  unfold Date_parse.
  rewrite read_year_written
    by (revert Hy; unfold msPerDay in *; Z.div_mod_to_equations; lia).
  cbn [bindO app read_unit]; rewrite ?N.eqb_refl; cbn [bindO].
  rewrite read_field_pad by (simpl; lia).
  cbn [bindO app read_unit]; rewrite ?N.eqb_refl; cbn [bindO].
  rewrite read_field_pad by (simpl; lia).
  cbn [bindO app read_unit]; rewrite ?N.eqb_refl; cbn [bindO].
  rewrite read_field_pad by (simpl; Z.div_mod_to_equations; lia).
  cbn [bindO app read_unit]; rewrite ?N.eqb_refl; cbn [bindO].
  rewrite read_field_pad by (simpl; Z.div_mod_to_equations; lia).
  cbn [bindO app read_unit]; rewrite ?N.eqb_refl; cbn [bindO].
  rewrite read_field_pad by (simpl; Z.div_mod_to_equations; lia).
  cbn [bindO app read_unit]; rewrite ?N.eqb_refl; cbn [bindO].
  rewrite read_field_pad by (simpl; Z.div_mod_to_equations; lia).
  cbn [bindO app read_unit]; rewrite ?N.eqb_refl; cbn [bindO].
  replace ((1 <=? m) && (m <=? 12) && (1 <=? d) && (d <=? days_in_month y m)
           && (ms / 3600000 <=? 23) && (ms / 60000 mod 60 <=? 59)
           && (ms / 1000 mod 60 <=? 59)) with true.
  2:{ symmetry. repeat (apply andb_true_iff; split); apply Z.leb_le;
      try lia; Z.div_mod_to_equations; lia. }
  cbv zeta. rewrite Hback.
  replace (t / msPerDay * msPerDay + ms / 3600000 * 3600000
           + ms / 60000 mod 60 * 60000 + ms / 1000 mod 60 * 1000 + ms mod 1000)
    with t
    by (subst ms; unfold msPerDay; Z.div_mod_to_equations; lia).
  destruct (Z.leb_spec (Z.abs t) 8640000000000000); [reflexivity|lia].
Qed.

(** ** The implementation keeps the promises of [JSON] *)

Local Open Scope Z_scope.

(** *** Numbers *)


Lemma digits_fuel_spec fuel :
  forall n acc,
    0 <= n < 2 ^ Z.of_nat fuel -> (0 < fuel)%nat ->
    exists ds, digits_fuel fuel n acc = ds ++ acc /\ decimal_of n ds.
Proof.
  induction fuel as [|fuel IH]; intros n acc Hn Hfuel; [lia|].
  - cbn [digits_fuel].
    assert (Hr : 0 <= n mod 10 <= 9) by (pose proof (Z.mod_pos_bound n 10); lia).
    destruct (digit_unit Hr) as [Hd Hv].
    destruct (Z.eqb_spec (n / 10) 0) as [E|E].
    + exists [Z.to_N (48 + n mod 10)]. split; [reflexivity|].
      assert (n = n mod 10) by (Z.div_mod_to_equations; lia).
      split; [|split].
      * cbn [forallb]. rewrite Hd. reflexivity.
      * unfold digits_value. cbn [fold_left]. rewrite Hv. lia.
      * intros Hzero. split; [reflexivity|]. assert (n mod 10 = 0); [|lia].
        rewrite <- Hv, Hzero. reflexivity.
    + rewrite Nat2Z.inj_succ, Z.pow_succ_r in Hn by lia.
      destruct (IH (n / 10) (Z.to_N (48 + n mod 10) :: acc))
        as (ds & Eds & Hall & Hval & Hhead).
      { Z.div_mod_to_equations. lia. }
      { destruct fuel; [simpl in Hn; Z.div_mod_to_equations; lia | lia]. }
      exists (ds ++ [Z.to_N (48 + n mod 10)]). split.
      * rewrite Eds, <- app_assoc. reflexivity.
      * split; [|split].
        -- rewrite forallb_app, Hall. cbn [forallb]. rewrite Hd. reflexivity.
        -- rewrite digits_value_snoc, Hval, Hv. Z.div_mod_to_equations. lia.
        -- destruct ds as [|c more]; [contradiction|]. cbn [app].
           intros Hzero. destruct (Hhead Hzero) as [_ Hz]. contradiction.
Qed.

Lemma Z_to_jsstring_spec n : 0 <= n -> decimal_of n (Z_to_jsstring n).
Proof.
  intros Hn. unfold Z_to_jsstring. destruct (Z.ltb_spec n 0); [lia|].
  destruct (@digits_fuel_spec (S (Z.to_nat (Z.log2 n))) n []) as (ds & E & H').
  - rewrite Nat2Z.inj_succ, Z2Nat.id by apply Z.log2_nonneg.
    destruct (Z.eq_dec n 0) as [->|Hz]; [simpl; lia|].
    pose proof (Z.log2_spec n). lia.
  - lia.
  - rewrite E, app_nil_r. exact H'.
Qed.

Lemma digits_value_from ds v :
  fold_left (fun v c => v * 10 + Z.of_N (c - 48)) ds v
  = v * 10 ^ Z.of_nat (List.length ds) + digits_value ds.
Proof.
  revert v. induction ds as [|c ds IH]; intros v.
  - simpl. unfold digits_value. simpl. lia.
  - unfold digits_value. cbn [fold_left List.length].
    rewrite IH, (IH (0 * 10 + Z.of_N (c - 48))).
    rewrite Nat2Z.inj_succ, Z.pow_succ_r by lia. lia.
Qed.

Lemma digits_value_app a b :
  digits_value (a ++ b)
  = digits_value a * 10 ^ Z.of_nat (List.length b) + digits_value b.
Proof.
  unfold digits_value at 1. rewrite fold_left_app. apply digits_value_from.
Qed.

(** Digits are read up to the first unit that is not one. *)
Lemma read_digits_all ds rest acc :
  forallb is_digit ds = true ->
  match rest with [] => true | c :: _ => negb (is_digit c) end = true ->
  read_digits (ds ++ rest) acc = (rev acc ++ ds, rest).
Proof.
  revert acc. induction ds as [|c ds IH]; intros acc Hd Hr.
  - cbn [app]. rewrite app_nil_r. destruct rest as [|c rest]; [reflexivity|].
    cbn [read_digits]. apply negb_true_iff in Hr. rewrite Hr. reflexivity.
  - cbn [forallb] in Hd. apply andb_true_iff in Hd. destruct Hd as [Hc Hd].
    cbn [app read_digits]. rewrite Hc, IH by assumption.
    cbn [rev]. rewrite <- app_assoc. reflexivity.
Qed.

(** When the expansion ends, the digits written are the fraction. *)
Lemma fraction_digits_spec fuel :
  forall r d,
    0 <= r < d -> fraction_ends fuel r d = true ->
    let fs := fraction_digits fuel r d in
    fs <> [] /\ forallb is_digit fs = true
    /\ digits_value fs * d = r * 10 ^ Z.of_nat (List.length fs).
Proof.
  induction fuel as [|fuel IH]; intros r d Hr He; [discriminate|].
  cbn [fraction_ends] in He. cbn [fraction_digits].
  assert (Hq : 0 <= r * 10 / d <= 9) by (Z.div_mod_to_equations; nia).
  destruct (digit_unit Hq) as [Hd Hv].
  pose proof (Z.div_mod (r * 10) d ltac:(lia)) as Hdm.
  destruct (Z.eqb_spec ((r * 10) mod d) 0) as [E|E].
  - cbv zeta. split; [discriminate|]. split.
    + cbn [forallb]. rewrite Hd. reflexivity.
    + unfold digits_value. cbn [fold_left List.length]. rewrite Hv.
      change (10 ^ Z.of_nat 1) with 10. lia.
  - cbn [orb] in He.
    assert (Hr' : 0 <= (r * 10) mod d < d) by (apply Z.mod_pos_bound; lia).
    destruct (IH _ _ Hr' He) as (_ & Hall & Hval).
    set (fs := fraction_digits fuel ((r * 10) mod d) d) in *. clearbody fs.
    cbv zeta. split; [discriminate|]. split.
    + cbn [forallb]. rewrite Hd, Hall. reflexivity.
    + change (Z.to_N (48 + r * 10 / d) :: fs)
        with ([Z.to_N (48 + r * 10 / d)] ++ fs).
      rewrite digits_value_app. unfold digits_value at 1. cbn [fold_left].
      rewrite Hv.
      cbn [app List.length]. rewrite Nat2Z.inj_succ, Z.pow_succ_r by lia.
      set (P := 10 ^ Z.of_nat (List.length fs)) in *.
      replace ((( 0 * 10 + r * 10 / d) * P + digits_value fs) * d)
        with (d * (r * 10 / d) * P + digits_value fs * d) by ring.
      rewrite Hval.
      replace (r * (10 * P)) with ((d * (r * 10 / d) + (r * 10) mod d) * P)
        by (rewrite <- Hdm; ring).
      ring.
Qed.

Lemma closes_head rest :
  closes rest = true ->
  match rest with
  | [] => True
  | c :: _ => is_digit c = false /\ (c =? 46)%N = false
              /\ (c =? 101)%N = false /\ (c =? 69)%N = false
  end.
Proof.
  destruct rest as [|c rest]; [trivial|]. cbn [closes]. intros H.
  apply orb_true_iff in H. destruct H as [H|H];
    [apply orb_true_iff in H; destruct H as [H|H]|];
    apply N.eqb_eq in H; subst; repeat split.
Qed.

Lemma read_fraction_none rest :
  closes rest = true -> read_fraction rest = Some ([], rest).
Proof.
  intros H. apply closes_head in H. destruct rest as [|c rest]; [reflexivity|].
  destruct H as (_ & H & _). cbn [read_fraction]. rewrite H. reflexivity.
Qed.

Lemma read_exponent_none rest :
  closes rest = true -> read_exponent rest = Some (0, rest).
Proof.
  intros H. apply closes_head in H. destruct rest as [|c rest]; [reflexivity|].
  destruct H as (_ & _ & H1 & H2). cbn [read_exponent]. rewrite H1, H2.
  reflexivity.
Qed.

Lemma closes_not_digit rest :
  closes rest = true ->
  match rest with [] => true | c :: _ => negb (is_digit c) end = true.
Proof.
  intros H. apply closes_head in H. destruct rest as [|c rest]; [reflexivity|].
  destruct H as (H & _). rewrite H. reflexivity.
Qed.

Lemma Qred_fixed q :
  Qnum (Qred q) = Qnum q -> Qden (Qred q) = Qden q -> Qred q = q.
Proof. destruct (Qred q), q. simpl. intros -> ->. reflexivity. Qed.

(** The unsigned part of what is written for [n / d]. *)
Lemma read_unsigned_written neg n d rest :
  0 <= n -> 0 < d ->
  (n mod d =? 0) || fraction_ends 1100 (n mod d) d = true ->
  closes rest = true ->
  read_unsigned neg
    (Z_to_jsstring (n / d)
     ++ (if n mod d =? 0 then []
         else 46%N :: fraction_digits 1100 (n mod d) d) ++ rest)
  = Some (Qred (Qmake (if neg then - n else n) (Z.to_pos d)), rest).
Proof.
  intros Hn Hd Hend Hrest.
  assert (Hk : 0 <= n / d) by (apply Z.div_pos; lia).
  destruct (Z_to_jsstring_spec Hk) as (Hall & Hval & Hhead).
  set (I := Z_to_jsstring (n / d)) in *. clearbody I.
  pose proof (Z.div_mod n d ltac:(lia)) as Hdm.
  unfold read_unsigned.
  destruct (Z.eqb_spec (n mod d) 0) as [E|E].
  - cbn [app]. rewrite read_digits_all by (auto using closes_not_digit).
    cbn [rev app]. destruct I as [|c more]; [contradiction|].
    assert (Hz : (c =? 48)%N && negb (match more with [] => true | _ => false end)
                 = false).
    { destruct (N.eqb_spec c 48) as [Hc|]; [|reflexivity].
      destruct (Hhead Hc) as [-> _]. reflexivity. }
    rewrite Hz, read_fraction_none, read_exponent_none by assumption.
    f_equal. f_equal. unfold number_value. rewrite app_nil_r, Hval.
    cbn [List.length Z.of_nat]. change (0 - 0) with 0.
    change (0 <=? 0) with true. cbv iota. change (10 ^ 0) with 1.
    apply Qred_complete. unfold Qeq, inject_Z. cbn [Qnum Qden].
    rewrite Z2Pos.id by lia. destruct neg; nia.
  - cbn [orb] in Hend.
    assert (Hr : 0 <= n mod d < d) by (apply Z.mod_pos_bound; lia).
    destruct (fraction_digits_spec 1100 Hr Hend) as (Hne & Hfd & Hfv).
    set (fs := fraction_digits 1100 (n mod d) d) in *. clearbody fs.
    rewrite read_digits_all by (auto).
    cbn [rev app]. destruct I as [|c more]; [contradiction|].
    assert (Hz : (c =? 48)%N && negb (match more with [] => true | _ => false end)
                 = false).
    { destruct (N.eqb_spec c 48) as [Hc|]; [|reflexivity].
      destruct (Hhead Hc) as [-> _]. reflexivity. }
    rewrite Hz. cbn [app read_fraction]. change (46 =? 46)%N with true. cbv iota.
    rewrite read_digits_all by (auto using closes_not_digit). cbn [rev app].
    destruct fs as [|f fs]; [contradiction|].
    rewrite read_exponent_none by assumption.
    f_equal. f_equal. unfold number_value.
    rewrite digits_value_app, Hval.
    set (L := Z.of_nat (List.length (f :: fs))) in *.
    assert (HL : 0 < L) by (subst L; cbn [List.length]; lia).
    replace (0 - L) with (- L) by lia.
    destruct (Z.leb_spec 0 (- L)); [lia|].
    rewrite Z.opp_involutive.
    assert (HP : 0 < 10 ^ L) by (apply Z.pow_pos_nonneg; lia).
    apply Qred_complete. unfold Qeq. cbn [Qnum Qden].
    rewrite !Z2Pos.id by lia.
    set (P := 10 ^ L) in *. set (V := digits_value (f :: fs)) in *.
    assert (Hm : (n / d * P + V) * d = n * P).
    { replace ((n / d * P + V) * d) with (d * (n / d) * P + V * d) by ring.
      rewrite Hfv. rewrite Hdm at 3. ring. }
    destruct neg; nia.
Qed.

(** The number law: a decimal number is read back from what is written for
    it. *)
Theorem number_ok_decimal q : decimal q = true -> number_ok q.
Proof.
  intros H rest Hrest. unfold decimal in H.
  apply andb_true_iff in H. destruct H as [H Hend].
  apply andb_true_iff in H. destruct H as [Hnum Hden].
  apply Z.eqb_eq in Hnum. apply Pos.eqb_eq in Hden.
  pose proof (Qred_fixed q Hnum Hden) as Hred.
  unfold write_number. rewrite Hred. cbv zeta.
  set (n := Z.abs (Qnum q)) in *. set (d := Z.pos (Qden q)) in *.
  assert (Hn : 0 <= n) by (subst n; lia). assert (Hd : 0 < d) by (subst d; lia).
  assert (Hq : forall m, m = Qnum q -> Qred (Qmake m (Z.to_pos d)) = q).
  { intros m ->. subst d. rewrite Pos2Z.id. destruct q. exact Hred. }
  unfold read_number.
  destruct (Z.ltb_spec (Qnum q) 0) as [Hneg|Hpos].
  - rewrite <- !app_assoc. cbn [app read_sign]. change (45 =? 45)%N with true.
    cbv iota. rewrite read_unsigned_written by assumption.
    rewrite Hq by (subst n; lia). reflexivity.
  - cbn [app].
    assert (Hk : 0 <= n / d) by (apply Z.div_pos; lia).
    destruct (Z_to_jsstring_spec Hk) as (Hall & _ & Hhead).
    rewrite <- app_assoc.
    destruct (Z_to_jsstring (n / d)) as [|c more] eqn:EI; [contradiction|].
    cbn [forallb] in Hall. apply andb_true_iff in Hall. destruct Hall as [Hc _].
    cbn [app read_sign].
    destruct (N.eqb_spec c 45) as [->|_]; [discriminate|].
    rewrite app_comm_cons, <- EI.
    rewrite read_unsigned_written by assumption.
    rewrite Hq by (subst n; lia). reflexivity.
Qed.

Local Open Scope N_scope.

(** *** Strings *)

Lemma hex_value_digit n : n < 16 -> hex_value (hex_digit n) = Some n.
Proof.
  intros H. rewrite <- (N2Z.id n).
  apply (@each_from_range
           (fun z => hex_value (hex_digit (Z.to_N z)) = Some (Z.to_N z)) 16 0);
    [|lia].
  cbn. repeat split.
Qed.

Lemma code_unit_hex c :
  c < 65536 ->
  c = (c / 4096) mod 16 * 4096 + (c / 256) mod 16 * 256
      + (c / 16) mod 16 * 16 + c mod 16.
Proof.
  intros H.
  assert (E1 : c / 256 = c / 16 / 16)
    by (rewrite N.Div0.div_div; reflexivity).
  assert (E2 : c / 4096 = c / 16 / 16 / 16)
    by (rewrite !N.Div0.div_div; reflexivity).
  assert (Hd : c / 4096 < 16) by (apply N.Div0.div_lt_upper_bound; exact H).
  rewrite (N.mod_small (c / 4096) 16) by exact Hd.
  rewrite E1, E2 in *.
  pose proof (N.Div0.div_mod c 16).
  pose proof (N.Div0.div_mod (c / 16) 16).
  pose proof (N.Div0.div_mod (c / 16 / 16) 16).
  lia.
Qed.

(** One unit, escaped or not, is read in one step. *)
Lemma read_string_unit fuel c text acc :
  read_string (S fuel) (escape_unit c ++ text) acc
  = read_string fuel text (c :: acc).
Proof.
  unfold escape_unit.
  destruct (N.eqb_spec c 34) as [->|H34]; [reflexivity|].
  destruct (N.eqb_spec c 92) as [->|H92]; [reflexivity|].
  destruct (N.eqb_spec c 8) as [->|H8]; [reflexivity|].
  destruct (N.eqb_spec c 12) as [->|H12]; [reflexivity|].
  destruct (N.eqb_spec c 10) as [->|H10]; [reflexivity|].
  destruct (N.eqb_spec c 13) as [->|H13]; [reflexivity|].
  destruct (N.eqb_spec c 9) as [->|H9]; [reflexivity|].
  assert (Hu : c < 65536 ->
               read_string (S fuel) (u_escape c ++ text) acc
               = read_string fuel text (c :: acc)).
  { intros Hlt. unfold u_escape. cbn [app read_string].
    change (92 =? 34) with false. change (92 <? 32) with false.
    change (92 =? 92) with true. change (117 =? 117) with true. cbv iota.
    rewrite !hex_value_digit by (apply N.mod_lt; discriminate).
    do 2 f_equal. symmetry. apply code_unit_hex, Hlt. }
  destruct (N.ltb_spec c 32) as [H32|H32]; [apply Hu; lia|].
  destruct (is_high_surrogate c || is_low_surrogate c) eqn:Hs.
  - apply Hu. unfold is_high_surrogate, is_low_surrogate in Hs.
    apply orb_true_iff in Hs.
    destruct Hs as [Hs|Hs]; apply andb_true_iff in Hs; destruct Hs as [_ Hs];
      apply N.leb_le in Hs; lia.
  - cbn [app read_string].
    destruct (N.eqb_spec c 34); [contradiction|].
    destruct (N.ltb_spec c 32); [lia|].
    destruct (N.eqb_spec c 92); [contradiction|]. reflexivity.
Qed.

Lemma escape_unit_length c : (1 <= List.length (escape_unit c))%nat.
Proof.
  unfold escape_unit, u_escape.
  repeat match goal with |- context [if ?b then _ else _] => destruct b end;
    simpl; lia.
Qed.

Lemma surrogate_raw c :
  is_high_surrogate c = true \/ is_low_surrogate c = true ->
  (c =? 34) = false /\ (c <? 32) = false /\ (c =? 92) = false.
Proof.
  unfold is_high_surrogate, is_low_surrogate. intros [H|H];
    apply andb_true_iff in H; destruct H as [H _]; apply N.leb_le in H;
    repeat split;
    first [apply N.eqb_neq; lia | apply N.ltb_ge; lia].
Qed.

Lemma quote_units_length_le n s :
  (List.length s <= n)%nat -> (List.length s <= List.length (quote_units s))%nat.
Proof.
  revert s. induction n as [|n IH]; intros [|c [|d s]] H; simpl in *; try lia.
  - pose proof (escape_unit_length c). lia.
  - change (match s with
            | [] => escape_unit d
            | d0 :: s'' =>
                if is_high_surrogate d && is_low_surrogate d0
                then d :: d0 :: quote_units s''
                else escape_unit d ++ quote_units (d0 :: s'')
            end) with (quote_units (d :: s)).
    destruct (is_high_surrogate c && is_low_surrogate d).
    + simpl. specialize (IH s). lia.
    + rewrite length_app. pose proof (escape_unit_length c).
      specialize (IH (d :: s)). simpl in IH. simpl. lia.
Qed.

Lemma quote_units_pair c d s :
  quote_units (c :: d :: s)
  = if is_high_surrogate c && is_low_surrogate d
    then c :: d :: quote_units s
    else escape_unit c ++ quote_units (d :: s).
Proof. reflexivity. Qed.

(** The units written between the quotes are read back, up to the closing
    quote. *)
Lemma read_string_quoted n s fuel rest acc :
  (List.length s <= n)%nat -> (List.length s < fuel)%nat ->
  read_string fuel (quote_units s ++ 34 :: rest) acc = Some (rev acc ++ s, rest).
Proof.
  revert s fuel acc. induction n as [|n IH]; intros [|c [|d s]] fuel acc Hn Hf;
    simpl in Hn, Hf; try lia;
    (destruct fuel as [|fuel]; [lia|]).
  - simpl. rewrite app_nil_r. reflexivity.
  - simpl. rewrite app_nil_r. reflexivity.
  - cbn [quote_units]. destruct fuel as [|fuel]; [lia|].
    rewrite read_string_unit. simpl. reflexivity.
  - rewrite quote_units_pair.
    destruct (is_high_surrogate c && is_low_surrogate d) eqn:E.
    + apply andb_true_iff in E. destruct E as [Ec Ed].
      destruct (@surrogate_raw c (or_introl Ec)) as (c1 & c2 & c3).
      destruct (@surrogate_raw d (or_intror Ed)) as (d1 & d2 & d3).
      destruct fuel as [|fuel]; [lia|].
      cbn [app read_string]. rewrite c1, c2, c3, d1, d2, d3.
      rewrite IH by lia. simpl. rewrite <- !app_assoc. reflexivity.
    + rewrite <- app_assoc, read_string_unit.
      rewrite IH by (simpl; lia). simpl. rewrite <- app_assoc. reflexivity.
Qed.

Lemma read_quoted s rest :
  read_string (S (List.length (quote_units s ++ 34 :: rest)))
              (quote_units s ++ 34 :: rest) []
  = Some (s, rest).
Proof.
  rewrite (@read_string_quoted (List.length s) s); [reflexivity | lia |].
  rewrite length_app. pose proof (@quote_units_length_le _ s (le_n _)).
  simpl. lia.
Qed.

(** *** Values *)

Lemma skip_ws_start c l : is_json_space c = false -> skip_ws (c :: l) = c :: l.
Proof. intros H. simpl. rewrite H. reflexivity. Qed.

(** What a number is written as starts with a minus sign or a digit. *)
Lemma number_head q :
  number_ok q ->
  exists c l, write_number q = c :: l /\ (c = 45 \/ is_digit c = true).
Proof.
  intros H. specialize (H [] eq_refl). rewrite app_nil_r in H.
  destruct (write_number q) as [|c l]; [discriminate|].
  exists c, l. split; [reflexivity|].
  destruct (N.eqb_spec c 45) as [|Hc]; [left; assumption|right].
  unfold read_number, read_sign in H. rewrite (proj2 (N.eqb_neq c 45) Hc) in H.
  unfold read_unsigned in H. cbn [read_digits] in H.
  destruct (is_digit c); [reflexivity|]. discriminate.
Qed.

Lemma digit_dispatch c :
  c = 45 \/ is_digit c = true ->
  is_json_space c = false /\ (c =? 110) = false /\ (c =? 116) = false /\
  (c =? 102) = false /\ (c =? 34) = false /\ (c =? 91) = false /\
  (c =? 123) = false /\ (c =? 93) = false /\ (c =? 125) = false.
Proof.
  intros [->|H]; [repeat split|].
  unfold is_digit in H. apply andb_true_iff in H. destruct H as [H1 H2].
  apply N.leb_le in H1, H2. unfold is_json_space.
  repeat split;
    repeat match goal with
           | |- context [?a =? ?b] => destruct (N.eqb_spec a b); [lia|]
           end; reflexivity.
Qed.

(** The first unit of a text tells the reader what value follows. *)
Lemma JSON_text_head j :
  json_ok j ->
  exists c l, JSON_text j = c :: l /\ is_json_space c = false /\
              (c =? 93) = false /\ (c =? 125) = false.
Proof.
  intros H. destruct H as [ | [|] | n Hn | s | l _ | props _ _ ];
    try (eexists; eexists; split; [reflexivity | repeat split]).
  apply number_ok_decimal in Hn.
  destruct (number_head Hn) as (c & l & E & Hc).
  exists c, l. split; [exact E|].
  destruct (digit_dispatch Hc) as (? & _ & _ & _ & _ & _ & _ & ? & ?). auto.
Qed.

Lemma closes_comma l : closes (44 :: l) = true.
Proof. reflexivity. Qed.

Lemma read_elements_written l :
  Forall json_ok l -> Forall reads l ->
  forall x fuel acc rest,
    json_ok x -> reads x ->
    (elements_size (x :: l) <= fuel)%nat ->
    read_elements fuel (join [44] (map JSON_text (x :: l)) ++ 93 :: rest) acc
    = Some (rev acc ++ x :: l, rest).
Proof.
  intros Hok Hl. induction Hl as [|y l Hy Hl IH];
    intros x fuel acc rest Hxok Hx Hf;
    (destruct fuel as [|fuel]; [simpl in Hf; lia|]).
  - cbn [map join]. cbn [read_elements].
    rewrite Hx by (simpl in Hf; first [lia | reflexivity]).
    cbn. reflexivity.
  - inversion Hok as [|? ? Hyok Hlok]; subst.
    change (join [44] (map JSON_text (x :: y :: l)))
      with (JSON_text x ++ [44] ++ join [44] (map JSON_text (y :: l))).
    rewrite <- !app_assoc. cbn [read_elements].
    rewrite Hx by (cbn in Hf; first [lia | reflexivity]).
    cbn [app skip_ws]. change (is_json_space 44) with false. cbv iota.
    change (44 =? 44) with true. cbv iota.
    rewrite IH by (auto; cbn in Hf |- *; lia).
    cbn [rev]. rewrite <- app_assoc. reflexivity.
Qed.

Lemma define_new k v (acc : list (jsstring * json)) :
  ~ In k (map fst acc) -> define k v acc = acc ++ [(k, v)].
Proof.
  induction acc as [|[k' x] acc IH]; simpl; intros H; [reflexivity|].
  destruct (str_eqb k' k) eqn:E.
  - apply str_eqb_eq in E. tauto.
  - rewrite IH by tauto. reflexivity.
Qed.


Lemma read_members_written props :
  Forall (fun kv => json_ok (snd kv)) props ->
  Forall (fun kv => reads (snd kv)) props ->
  forall k v fuel acc rest,
    json_ok v -> reads v ->
    NoDup (map fst (acc ++ (k, v) :: props)) ->
    (members_size ((k, v) :: props) <= fuel)%nat ->
    read_members fuel (join [44] (map member ((k, v) :: props)) ++ 125 :: rest)
                 acc
    = Some (acc ++ (k, v) :: props, rest).
Proof.
  intros Hok Hl. induction Hl as [|[k' v'] props Hy Hl IH];
    intros k v fuel acc rest Hvok Hv Hnd Hf;
    (destruct fuel as [|fuel]; [simpl in Hf; lia|]);
    assert (Hk : ~ In k (map fst acc))
      by (rewrite map_app in Hnd; apply NoDup_remove_2 in Hnd;
          intros Hin; apply Hnd, in_or_app; left; exact Hin).
  - cbn [map join]. unfold member at 1. cbn [fst snd]. unfold quote.
    cbn [app read_members skip_ws]. change (is_json_space 34) with false.
    cbv iota. change (34 =? 34) with true. cbv iota.
    rewrite <- !app_assoc. cbn [app]. rewrite read_quoted.
    cbn [skip_ws]. change (is_json_space 58) with false. cbv iota.
    change (58 =? 58) with true. cbv iota.
    rewrite Hv by (simpl in Hf; first [lia | reflexivity]).
    cbn [skip_ws]. change (is_json_space 125) with false. cbv iota.
    change (125 =? 44) with false. change (125 =? 125) with true. cbv iota.
    rewrite define_new by exact Hk. reflexivity.
  - inversion Hok as [|? ? Hyok Hlok]; subst. cbn [snd] in *.
    change (join [44] (map member ((k, v) :: (k', v') :: props)))
      with (member (k, v) ++ [44] ++ join [44] (map member ((k', v') :: props))).
    unfold member at 1. cbn [fst snd]. unfold quote.
    rewrite <- !app_assoc.
    cbn [app read_members skip_ws]. change (is_json_space 34) with false.
    cbv iota. change (34 =? 34) with true. cbv iota.
    rewrite <- !app_assoc. cbn [app]. rewrite read_quoted.
    cbn [skip_ws]. change (is_json_space 58) with false. cbv iota.
    change (58 =? 58) with true. cbv iota.
    rewrite Hv by (cbn in Hf; first [lia | reflexivity]).
    cbn [skip_ws]. change (is_json_space 44) with false. cbv iota.
    change (44 =? 44) with true. cbv iota.
    rewrite define_new by exact Hk.
    rewrite IH; auto.
    + rewrite <- app_assoc. reflexivity.
    + rewrite <- app_assoc. exact Hnd.
    + cbn in Hf |- *. lia.
Qed.

Lemma join_head (x : jsstring) l :
  join [44] (x :: l) = x ++ match l with [] => [] | _ :: _ => 44 :: join [44] l end.
Proof. destruct l; simpl; [rewrite app_nil_r|]; reflexivity. Qed.

(** Every value of the kind is read back from its text. *)
Lemma reads_written j : json_ok j -> reads j.
Proof.
  induction j as [ | b | n | s | l IH | props IH ] using json_nested_ind;
    intros Hok fuel rest Hf Hrest;
    (destruct fuel as [|fuel]; [simpl in Hf; lia|]).
  - reflexivity.
  - destruct b; reflexivity.
  - inversion Hok as [ | | ? Hn | | | ]; subst.
    apply number_ok_decimal in Hn.
    destruct (number_head Hn) as (c & t & E & Hc).
    destruct (digit_dispatch Hc) as (d0 & d1 & d2 & d3 & d4 & d5 & d6 & _ & _).
    cbn [JSON_text read_value]. pose proof (Hn rest Hrest) as R.
    rewrite E in *. cbn [app] in *. rewrite (@skip_ws_start c _ d0).
    rewrite d1, d2, d3, d4, d5, d6, R. reflexivity.
  - cbn [JSON_text read_value]. unfold quote. cbn [app skip_ws].
    change (is_json_space 34) with false. cbv iota.
    change (34 =? 110) with false. change (34 =? 116) with false.
    change (34 =? 102) with false. change (34 =? 34) with true. cbv iota.
    rewrite <- app_assoc. cbn [app]. rewrite read_quoted. reflexivity.
  - inversion Hok as [ | | | | ? Hl | ]; subst.
    destruct l as [|x l]; [reflexivity|].
    inversion Hl as [|? ? Hx Hl']; subst. inversion IH as [|? ? IHx IHl]; subst.
    assert (Hreads : Forall reads l).
    { clear - IHl Hl'. induction IHl; constructor; inversion Hl'; subst; auto. }
    destruct (JSON_text_head Hx) as (c & t & E & Hsp & Hc & _).
    change (JSON_text (JArr (x :: l)))
      with (91 :: join [44] (map JSON_text (x :: l)) ++ [93]).
    cbn [read_value]. cbn [app skip_ws].
    change (is_json_space 91) with false. cbv iota.
    change (91 =? 110) with false. change (91 =? 116) with false.
    change (91 =? 102) with false. change (91 =? 34) with false.
    change (91 =? 91) with true. cbv iota.
    rewrite <- app_assoc. cbn [app].
    pose proof (@read_elements_written l Hl' Hreads x fuel [] rest Hx
                  (IHx Hx)) as R.
    specialize (R ltac:(cbn in Hf |- *; lia)).
    match goal with
    | |- context [skip_ws ?text] =>
        assert (Hs : exists t', skip_ws text = c :: t')
    end.
    { cbn [map]. rewrite join_head, E. cbn [app].
      rewrite (@skip_ws_start c _ Hsp). eexists. reflexivity. }
    destruct Hs as [t' Hs]. rewrite Hs, Hc.
    unfold jsstring, code_unit in *. rewrite R. reflexivity.
  - inversion Hok as [ | | | | | ? Hnd Hl ]; subst.
    destruct props as [|[k v] props]; [reflexivity|].
    inversion Hl as [|? ? Hx Hl']; subst. inversion IH as [|? ? IHx IHl]; subst.
    cbn [snd] in *.
    assert (Hreads : Forall (fun kv => reads (snd kv)) props).
    { clear - IHl Hl'. induction IHl; constructor; inversion Hl'; subst; auto. }
    change (JSON_text (JObj ((k, v) :: props)))
      with (123 :: join [44] (map member ((k, v) :: props)) ++ [125]).
    cbn [read_value]. cbn [app skip_ws].
    change (is_json_space 123) with false. cbv iota.
    change (123 =? 110) with false. change (123 =? 116) with false.
    change (123 =? 102) with false. change (123 =? 34) with false.
    change (123 =? 91) with false. change (123 =? 123) with true. cbv iota.
    rewrite <- app_assoc. cbn [app].
    pose proof (@read_members_written props Hl' Hreads k v fuel [] rest Hx
                  (IHx Hx) Hnd) as R.
    specialize (R ltac:(cbn in Hf |- *; lia)).
    match goal with
    | |- context [skip_ws ?text] =>
        assert (Hs : exists t', skip_ws text = 34 :: t')
    end.
    { cbn [map]. rewrite join_head. unfold member at 1, quote.
      cbn [app skip_ws]. change (is_json_space 34) with false.
      eexists. reflexivity. }
    destruct Hs as [t' Hs]. rewrite Hs. change (34 =? 125) with false.
    unfold jsstring, code_unit in *. rewrite R. reflexivity.
Qed.

Lemma elements_size_le l :
  Forall (fun x => (size x <= List.length (JSON_text x))%nat) l ->
  (elements_size l <= List.length (join [44%N] (map JSON_text l)) + 1)%nat.
Proof.
  induction 1 as [|x l Hx Hl IH]; [simpl; lia|].
  cbn [map]. rewrite join_head, length_app. cbn [elements_size fold_right].
  fold (elements_size l). destruct l as [|y l]; [simpl; lia|].
  cbn [map] in *. cbn [List.length]. lia.
Qed.

Lemma members_size_le props :
  Forall (fun kv => (size (snd kv) <= List.length (JSON_text (snd kv)))%nat)
         props ->
  (members_size props <= List.length (join [44%N] (map member props)) + 1)%nat.
Proof.
  induction 1 as [|[k v] props Hx Hl IH]; [simpl; lia|].
  cbn [map]. rewrite join_head, length_app. cbn [members_size fold_right].
  fold (members_size props). unfold member at 1.
  rewrite length_app. cbn [List.length fst snd] in *.
  destruct props as [|y props]; [simpl; lia|].
  cbn [map] in *. cbn [List.length]. lia.
Qed.

(** A text is at least as long as the fuel its value needs. *)
Lemma size_le_text j : json_ok j -> (size j <= List.length (JSON_text j))%nat.
Proof.
  induction j as [ | b | n | s | l IH | props IH ] using json_nested_ind;
    intros Hok.
  - simpl. lia.
  - destruct b; simpl; lia.
  - inversion Hok as [ | | ? Hn | | | ]; subst.
    apply number_ok_decimal in Hn.
    destruct (number_head Hn) as (c & t & E & _).
    cbn [JSON_text size]. rewrite E. simpl. lia.
  - cbn [JSON_text size]. unfold quote. simpl. lia.
  - inversion Hok as [ | | | | ? Hl | ]; subst.
    assert (H : Forall (fun x => (size x <= List.length (JSON_text x))%nat) l).
    { clear - IH Hl. induction IH; constructor; inversion Hl; subst; auto. }
    apply elements_size_le in H.
    change (JSON_text (JArr l)) with (91 :: join [44] (map JSON_text l) ++ [93]).
    change (size (JArr l)) with (S (elements_size l)).
    cbn [List.length]. rewrite length_app. simpl. lia.
  - inversion Hok as [ | | | | | ? Hnd Hl ]; subst.
    assert (H : Forall (fun kv => (size (snd kv)
                                   <= List.length (JSON_text (snd kv)))%nat)
                       props).
    { clear - IH Hl. induction IH; constructor; inversion Hl; subst; auto. }
    apply members_size_le in H.
    change (JSON_text (JObj props))
      with (123 :: join [44] (map member props) ++ [125]).
    change (size (JObj props)) with (S (members_size props)).
    cbn [List.length]. rewrite length_app. simpl. lia.
Qed.

(** The JSON law: a value of the kind is parsed back from its text, and
    its text is not empty. *)
Theorem JSON_parse_written j :
  json_ok j ->
  truthy (JSON_text j) = true /\ JSON_parse (JSON_text j) = Normal j.
Proof.
  intros Hok. split.
  - destruct (JSON_text_head Hok) as (c & t & E & _). rewrite E. reflexivity.
  - unfold JSON_parse.
    pose proof (@reads_written j Hok (S (S (List.length (JSON_text j)))) []) as R.
    rewrite app_nil_r in R. rewrite R; [reflexivity | | reflexivity].
    pose proof (size_le_text Hok). lia.
Qed.


End PlatformFacts.

(** ** The round trip with the implementation in place of the built-ins *)

Lemma storable_dates c :
  conversation_storable c ->
  dates_round_trip Platform.toISOString Platform.new_Date c.
Proof.
  intros [Hc Hm]. split.
  - unfold Date_round_trip, Platform.new_Date.
    rewrite PlatformFacts.Date_parse_toISOString by exact Hc. reflexivity.
  - eapply Forall_impl; [|exact Hm]. intros m (Ht & _).
    unfold Date_round_trip, Platform.new_Date.
    rewrite PlatformFacts.Date_parse_toISOString by exact Ht. reflexivity.
Qed.

Lemma storable_numbers c :
  conversation_storable c -> conversation_numbers_finite c.
Proof.
  intros [_ Hm]. eapply Forall_impl; [|exact Hm]. intros m (_ & Hn & _).
  exact Hn.
Qed.

Lemma strings_json_ok (l : list jsstring) :
  Forall Platform.json_ok (map JStr l).
Proof.
  apply Forall_forall. intros x Hx. apply in_map_iff in Hx.
  destruct Hx as (y & <- & _). constructor.
Qed.

Lemma storable_message_json m :
  message_storable m ->
  Platform.json_ok (message_json Platform.toISOString m).
Proof.
  intros (_ & _ & Hq & Hs).
  destruct m as [i ro co ts [[q|b|]|] [so|] [fo|]]; cbn [Message.confidence
    Message.sources] in *; try contradiction;
    unfold message_json; cbn [optional_json app number_json
    Message.id Message.role Message.content Message.timestamp
    Message.confidence Message.sources Message.suggested_followup];
    (constructor;
     [ cbn [map fst]; repeat constructor; cbn [In];
       intuition discriminate
     | repeat (apply Forall_cons;
               [ cbn [snd];
                 first [ constructor; first [ assumption
                                            | apply strings_json_ok ]
                       | constructor ]
               | ]);
       apply Forall_nil ]).
Qed.

Lemma storable_conversation_json c :
  conversation_storable c ->
  Platform.json_ok (conversation_json Platform.toISOString c).
Proof.
  intros [_ Hm]. unfold conversation_json. constructor.
  - cbn [map fst]. repeat constructor; cbn [In]; intuition discriminate.
  - do 4 (apply Forall_cons; [constructor|]).
    apply Forall_cons; [|apply Forall_nil]. cbn [snd]. constructor.
    apply Forall_forall.
    intros x Hx. apply in_map_iff in Hx. destruct Hx as (m & <- & Hin).
    apply storable_message_json. rewrite Forall_forall in Hm. auto.
Qed.

(** C5, as amended.  Written by the save effect and read back by the load
    effect, a non-empty conversation list whose time stamps are valid
    dates and whose numbers are finite is the list it was: the same
    conversations in the same order, each with its fields, its time
    stamp, and its messages in order with theirs.  The built-ins are the
    JSON writer and reader and the date code of [Platform]; the lists are
    the storable ones -- time stamps in the range of [Date], numbers that
    are finite decimals within the doubles, source records that name each
    property once. *)
Theorem storage_round_trip convs item r :
  convs <> [] ->
  Forall conversation_storable convs ->
  load_effect Platform.JSON_parse Platform.new_Date
    (save_effect_js Platform.JSON_text Platform.toISOString
       (map conversation_to_js convs) item)
    r empty_store
  = (Normal tt,
     mkStore (map conversation_to_js convs)
             (VStr (match convs with
                    | c :: _ => Conversation.id c
                    | [] => []
                    end)) []).
Proof.
  intros Hne Hok.
  assert (Hj : Platform.json_ok
                 (JArr (map (conversation_json Platform.toISOString) convs))).
  { constructor. apply Forall_forall. intros x Hx. apply in_map_iff in Hx.
    destruct Hx as (c & <- & Hin). apply storable_conversation_json.
    rewrite Forall_forall in Hok. auto. }
  destruct (PlatformFacts.JSON_parse_written Hj) as [Ht Hp].
  apply load_effect_reads_back; [exact Hne | exact Ht | exact Hp | |].
  - eapply Forall_impl; [|exact Hok]. apply storable_dates.
  - eapply Forall_impl; [|exact Hok]. apply storable_numbers.
Qed.

(** The sample list is storable: its numbers, 19/20 and 3, are decimals. *)
Example sample_conversations_storable :
  Forall conversation_storable sample_conversations.
Proof.
  let l := eval vm_compute in sample_conversations in
  change sample_conversations with l.
  repeat first
    [ apply Forall_nil
    | apply Forall_cons
    | progress unfold conversation_storable, message_storable, in_Date_range,
        numbers_finite
    | progress cbn [Conversation.timestamp Conversation.messages
                    Message.timestamp Message.confidence Message.sources]
    | apply conj
    | exact I
    | lia
    | reflexivity
    | apply Platform.ok_str
    | apply Platform.ok_num
    | (apply Platform.ok_obj;
       [cbn [map fst]; repeat constructor; cbn [In]; tauto|]) ].
Qed.

(** C5, as stated, fails for a list that holds a number that is not
    finite.  The page copies [response.result.confidence] into the
    message as it is; [JSON.stringify] writes [null] for an infinity, and
    the load effect reads [null] back in its place. *)
Lemma infinite_confidence_is_not_read_back :
  let convs := infinite_conversations in
  let saved := save_effect_js Platform.JSON_text Platform.toISOString
                 (map conversation_to_js convs) None in
  convs <> []
  /\ reachable
       (run sample_world
          [AgentSettles 0 (Resolved infinite_confidence_result)
             (sample_clock 1700000002000)])
  /\ (exists text,
        saved = Some text
        /\ includes text ([34%N] ++ str "confidence" ++ [34%N] ++ str ":null")
           = true)
  /\ exists st,
       load_effect Platform.JSON_parse Platform.new_Date saved
         sample_readings empty_store = (Normal tt, st)
       /\ store_conversations st <> map conversation_to_js convs.
Proof.
  split; [discriminate|].
  split; [apply reachable_run, reachable_run; constructor|].
  split.
  - eexists. split; [reflexivity|]. vm_compute. reflexivity.
  - eexists. split; [vm_compute; reflexivity|]. vm_compute. discriminate.
Qed.

Lemma storage_round_trip_witness :
  load_effect Platform.JSON_parse Platform.new_Date
    (save_effect_js Platform.JSON_text Platform.toISOString
       (map conversation_to_js sample_conversations) None)
    sample_readings empty_store
  = (Normal tt,
     mkStore (map conversation_to_js sample_conversations)
             (VStr (str "conv-1700000003000-zz81qp0so")) []).
Proof.
  apply (@storage_round_trip sample_conversations None sample_readings).
  - discriminate.
  - exact sample_conversations_storable.
Defined.

(** * Further properties of the page *)

(** ** White space *)

Lemma blank_app a b : blank (a ++ b) = blank a && blank b.
Proof. apply forallb_app. Qed.

Lemma blank_rev s : blank (rev s) = blank s.
Proof.
  induction s as [|c s IH]; simpl; [reflexivity|].
  rewrite blank_app, IH. simpl. rewrite andb_true_r. apply andb_comm.
Qed.

(** [trimStart] drops a blank front and stops at a unit that is not white
    space. *)
Lemma trim_start_spec s :
  exists a, s = a ++ trim_start s /\ blank a = true
            /\ match trim_start s with
               | c :: _ => is_white_space c = false
               | [] => True
               end.
Proof.
  induction s as [|c s (a & E & Ha & Hh)]; simpl.
  - exists []. auto.
  - destruct (is_white_space c) eqn:Hc.
    + exists (c :: a). simpl. rewrite Hc, Ha. split; [congruence | auto].
    + exists []. simpl. rewrite Hc. auto.
Qed.

Lemma trim_end_spec s :
  exists b, s = trim_end s ++ b /\ blank b = true
            /\ match rev (trim_end s) with
               | c :: _ => is_white_space c = false
               | [] => True
               end.
Proof.
  unfold trim_end. destruct (trim_start_spec (rev s)) as (a & E & Ha & Hh).
  exists (rev a). rewrite rev_involutive. repeat split.
  - rewrite <- rev_app_distr, <- E. symmetry. apply rev_involutive.
  - rewrite blank_rev. exact Ha.
  - exact Hh.
Qed.

(** [trim] gives the text between a blank front and a blank end; it
    neither starts nor ends with white space. *)
Lemma trim_spec s :
  exists a b, s = a ++ trim s ++ b /\ blank a = true /\ blank b = true
              /\ match trim s with
                 | c :: _ => is_white_space c = false
                 | [] => True
                 end
              /\ match rev (trim s) with
                 | c :: _ => is_white_space c = false
                 | [] => True
                 end.
Proof.
  unfold trim.
  destruct (trim_start_spec s) as (a & Ea & Ha & Hh).
  destruct (trim_end_spec (trim_start s)) as (b & Eb & Hb & Hl).
  exists a, b. repeat split; try assumption.
  - rewrite <- Eb. exact Ea.
  - destruct (trim_end (trim_start s)) as [|c t] eqn:Et; [exact I|].
    rewrite Eb in Hh. exact Hh.
Qed.

(** It is empty exactly for blank text. *)
Lemma trim_truthy s : truthy (trim s) = negb (blank s).
Proof.
  destruct (blank s) eqn:Hb.
  - rewrite (trim_blank _ Hb). reflexivity.
  - destruct (trim_spec s) as (a & b & E & Ha & Hb' & _).
    destruct (trim s); [|reflexivity].
    rewrite E, !blank_app, Ha, Hb' in Hb. discriminate.
Qed.

(** ** Conversation ids *)

Lemma split_at_separator (sep : code_unit) a b x y :
  ~ In sep a -> ~ In sep b -> a ++ sep :: x = b ++ sep :: y -> a = b /\ x = y.
Proof.
  revert b. induction a as [|c a IH]; intros [|e b] Ha Hb E; simpl in *.
  - injection E as ->. auto.
  - injection E as <- _. exfalso. apply Hb. left. reflexivity.
  - injection E as -> _. exfalso. apply Ha. left. reflexivity.
  - injection E as -> E.
    destruct (IH b) as [-> ->]; auto.
Qed.

Lemma digits_have_no_dash n : 0 <= n -> ~ In 45%N (Z_to_jsstring n).
Proof.
  intros H. destruct (PlatformFacts.Z_to_jsstring_spec H) as (Hd & _).
  rewrite forallb_forall in Hd. intros Hin. apply Hd in Hin. discriminate.
Qed.

(** X1.  [createNewConversation] names a conversation
    [conv-<Date.now()>-<random digits>].  Two conversations made at
    different milliseconds, or with different random digits, get different
    ids: the id can be read back into its two parts. *)
Theorem conversation_ids_tell_conversations_apart r1 r2 :
  0 <= now_conv r1 -> 0 <= now_conv r2 ->
  now_conv r1 <> now_conv r2 \/ random_digits r1 <> random_digits r2 ->
  Conversation.id (createNewConversation r1)
  <> Conversation.id (createNewConversation r2).
Proof.
  intros H1 H2 Hd E. cbn [createNewConversation Conversation.id] in E.
  apply app_inv_head in E.
  change (str "-" ++ random_digits r1) with (45%N :: random_digits r1) in E.
  change (str "-" ++ random_digits r2) with (45%N :: random_digits r2) in E.
  apply split_at_separator in E; try (apply digits_have_no_dash; assumption).
  destruct E as [En Er].
  destruct Hd as [Hd|Hd]; [|contradiction].
  apply Hd.
  destruct (PlatformFacts.Z_to_jsstring_spec H1) as (_ & <- & _).
  destruct (PlatformFacts.Z_to_jsstring_spec H2) as (_ & <- & _).
  rewrite En. reflexivity.
Qed.

Lemma conversation_ids_tell_conversations_apart_witness :
  now_conv sample_readings <> now_conv other_readings
  /\ Conversation.id (createNewConversation sample_readings)
     <> Conversation.id (createNewConversation other_readings).
Proof.
  assert (D : now_conv sample_readings <> now_conv other_readings)
    by discriminate.
  split; [exact D|].
  apply (@conversation_ids_tell_conversations_apart sample_readings
           other_readings); [simpl; lia | simpl; lia | left; exact D].
Defined.

(** ** Appending to the list *)

(** X2.  [addMessageToConversation] with an id that no conversation of
    the list has leaves the list as it is: the message is dropped, and
    nothing tells so. *)
Theorem message_for_an_unknown_conversation_is_dropped cid m d l :
  has_id cid l = false -> addMessageToConversation cid m d l = l.
Proof.
  induction l as [|c l IH]; simpl; [reflexivity|].
  rewrite orb_false_iff. intros [Hc Hl].
  unfold updateConversation at 1. rewrite Hc. f_equal. apply IH, Hl.
Qed.

Lemma message_for_an_unknown_conversation_is_dropped_witness :
  let l := conversations (page sample_world) in
  addMessageToConversation (str "conv-0-gone")
    (userMessage (sample_clock 1700000005000) (str "Hello")) 1700000005001 l
  = l.
Proof.
  apply (@message_for_an_unknown_conversation_is_dropped (str "conv-0-gone")).
  reflexivity.
Defined.

Lemma addMessageToConversation_ids cid m d l :
  map Conversation.id (addMessageToConversation cid m d l)
  = map Conversation.id l.
Proof.
  unfold addMessageToConversation. rewrite map_map.
  apply map_ext. intros c. apply updateConversation_id.
Qed.

Lemma has_id_map_id cid l :
  has_id cid l = existsb (fun i => str_eqb i cid) (map Conversation.id l).
Proof.
  unfold has_id. induction l as [|c l IH]; simpl; [|rewrite IH]; reflexivity.
Qed.

Lemma has_id_add cid' cid m d l :
  has_id cid' (addMessageToConversation cid m d l) = has_id cid' l.
Proof. rewrite !has_id_map_id, addMessageToConversation_ids. reflexivity. Qed.

Lemma has_id_find cid l :
  has_id cid l = true ->
  exists c, find (fun c => str_eqb (Conversation.id c) cid) l = Some c
            /\ Conversation.id c = cid /\ In c l.
Proof.
  induction l as [|c l IH]; simpl; [discriminate|].
  destruct (str_eqb (Conversation.id c) cid) eqn:E.
  - intros _. exists c. apply str_eqb_eq in E. auto.
  - simpl. intros H. destruct (IH H) as (c' & F & I' & Hin). exists c'. auto.
Qed.

Lemma find_add cid m d l :
  find (fun c => str_eqb (Conversation.id c) cid)
       (addMessageToConversation cid m d l)
  = option_map (updateConversation cid m d)
      (find (fun c => str_eqb (Conversation.id c) cid) l).
Proof.
  induction l as [|c l IH]; simpl; [reflexivity|].
  rewrite updateConversation_id.
  destruct (str_eqb (Conversation.id c) cid); [reflexivity | exact IH].
Qed.

Lemma lastMessage_snoc c ms m :
  Conversation.messages c = ms ++ [m] -> lastMessage c = Some m.
Proof. intros E. unfold lastMessage. rewrite E, rev_app_distr. reflexivity. Qed.

Lemma conversation_ok_fresh r : conversation_ok (createNewConversation r).
Proof.
  repeat split.
  - eexists. reflexivity.
  - do 2 eexists. repeat split.
  - simpl. lia.
  - simpl. lia.
Qed.

Lemma truncate_length_le n s : (List.length (truncate n s) <= n + 3)%nat.
Proof.
  rewrite truncate_length. destruct (Nat.leb_spec (List.length s) n); lia.
Qed.

Lemma conversation_ok_update cid m d c :
  conversation_ok c -> conversation_ok (updateConversation cid m d c).
Proof.
  intros (Hid & (m0 & rest & Hm & Hr & Hc) & Ht & Hp).
  unfold updateConversation.
  destruct (str_eqb (Conversation.id c) cid); [|repeat split; eauto].
  repeat split; cbn [Conversation.id Conversation.messages Conversation.title
                     Conversation.preview].
  - exact Hid.
  - exists m0, (rest ++ [m]). rewrite Hm. repeat split; assumption.
  - destruct (_ && _); [apply (truncate_length_le 40) | exact Ht].
  - apply (truncate_length_le 60).
Qed.

Lemma conversation_ok_add cid m d l :
  Forall conversation_ok l ->
  Forall conversation_ok (addMessageToConversation cid m d l).
Proof.
  intros H. unfold addMessageToConversation. apply Forall_map.
  eapply Forall_impl; [|exact H]. intros c. apply conversation_ok_update.
Qed.

Lemma addMessageToConversation_not_empty cid m d l :
  l <> [] -> addMessageToConversation cid m d l <> [].
Proof. destruct l; [contradiction | discriminate]. Qed.

(** ** What every page keeps *)

Lemma run_snoc w es e : run w (es ++ [e]) = step (run w es) e.
Proof. unfold run. rewrite fold_left_app. reflexivity. Qed.

(** What a call of [handleSendMessage] on the page comes to. *)
Lemma send_cases messageText c w :
  let textToSend := or_else messageText (trim (inputValue (page w))) in
  let cid := activeConversationId (page w) in
  if negb (truthy textToSend) || negb (truthy cid)
  then send messageText c w = w
  else send messageText c w
       = mkWorld (setIsTyping true (setInputValue []
                    (setConversations
                       (addMessageToConversation cid (userMessage c textToSend)
                          (new_date_update c)) (page w))))
                 (pending w ++ [Build_Pending textToSend AGENT_ID cid])
                 (console w) (storage w).
Proof.
  cbv zeta. unfold send, handleSendMessage_start.
  destruct (negb _ || negb _); [|reflexivity].
  destruct w; simpl. rewrite app_nil_r. reflexivity.
Qed.

Lemma In_remove_nth {A} (x : A) k l : In x (remove_nth k l) -> In x l.
Proof.
  unfold remove_nth. revert k.
  induction l as [|a l IH]; intros [|k]; simpl; auto.
  intros [->|H]; [left; reflexivity | right; apply (IH k); exact H].
Qed.

Lemma Forall_remove_nth {A} (P : A -> Prop) k l :
  Forall P l -> Forall P (remove_nth k l).
Proof.
  rewrite !Forall_forall. intros H x Hx. apply H. eapply In_remove_nth, Hx.
Qed.

Lemma page_ok_send messageText c w :
  page_ok w -> page_ok (send messageText c w).
Proof.
  intros H. pose proof (send_cases messageText c w) as E. cbv zeta in E.
  destruct (negb _ || negb _); rewrite E; [exact H|].
  destruct H as [Hc Hn Ha Ht Hp].
  split; simpl.
  - apply conversation_ok_add, Hc.
  - apply addMessageToConversation_not_empty, Hn.
  - rewrite has_id_add. exact Ha.
  - intros _. destruct (pending w); discriminate.
  - apply Forall_app. split.
    + eapply Forall_impl; [|exact Hp]. intros p. simpl.
      rewrite has_id_add. auto.
    + constructor; [|constructor]. simpl. rewrite has_id_add. exact Ha.
Qed.

Lemma page_ok_mount stored r :
  (forall l, stored = Some l -> Forall conversation_ok l) ->
  page_ok (mkWorld (mount stored r) [] [] stored).
Proof.
  intros H. unfold mount.
  assert (F : page_ok (mkWorld
                (mkState [createNewConversation r]
                   (Conversation.id (createNewConversation r)) [] false true
                   [] false []) [] [] stored)).
  { split; simpl; try discriminate.
    - constructor; [apply conversation_ok_fresh | constructor].
    - rewrite str_eqb_refl. reflexivity.
    - constructor. }
  destruct stored as [[|c0 l]|]; try exact F.
  split; simpl; try discriminate.
  - apply H. reflexivity.
  - rewrite str_eqb_refl. reflexivity.
  - constructor.
Qed.

Lemma page_ok_handle w e : world_ok w -> page_ok (handle w e).
Proof.
  intros [H Hs]. pose proof H as [Hc Hn Ha Ht Hp].
  destruct e; simpl;
    repeat match goal with
           | |- context [if ?b then _ else _] => destruct b eqn:?
           end;
    try exact H; try (apply page_ok_send; exact H);
    try (split; simpl; assumption).
  - unfold handleInputChange. destruct (_ <=? _); split; simpl; assumption.
  - destruct (nth_error (pending w) k) as [p|] eqn:E; [|exact H].
    split; simpl.
    + apply conversation_ok_add, Hc.
    + apply addMessageToConversation_not_empty, Hn.
    + rewrite has_id_add. exact Ha.
    + discriminate.
    + apply Forall_remove_nth.
      eapply Forall_impl; [|exact Hp]. intros q. simpl.
      rewrite has_id_add. auto.
  - split; simpl.
    + constructor; [apply conversation_ok_fresh | exact Hc].
    + discriminate.
    + rewrite str_eqb_refl. reflexivity.
    + exact Ht.
    + eapply Forall_impl; [|exact Hp]. intros q Hq. simpl in *. rewrite Hq.
      apply orb_true_r.
  - unfold handleFeatureRequest. destruct (negb _); split; simpl; assumption.
  - pose proof (@page_ok_mount (storage w) r) as M.
    destruct M as [Mc Mn Ma Mt Mp].
    { intros l E. rewrite Hs in E. injection E as <-. exact Hc. }
    split; simpl in *; assumption.
Qed.

Lemma world_ok_boot r : world_ok (boot r).
Proof.
  split; [|reflexivity].
  split; simpl; try discriminate.
  - constructor; [apply conversation_ok_fresh | constructor].
  - rewrite str_eqb_refl. reflexivity.
  - constructor.
Qed.

Lemma world_ok_step w e : world_ok w -> world_ok (step w e).
Proof.
  intros H. pose proof (page_ok_handle e H) as [Hc Hn Ha Ht Hp].
  unfold step. split; [split; simpl; assumption|].
  simpl.
  destruct (conversations (page (handle w e))); [contradiction|reflexivity].
Qed.

Lemma world_ok_reachable w : reachable w -> world_ok w.
Proof.
  induction 1 as [r | w e _ IH]; [apply world_ok_boot | apply world_ok_step, IH].
Qed.

Lemma world_ok_run r es : world_ok (run (boot r) es).
Proof. apply world_ok_reachable, reachable_run. constructor. Qed.

Lemma world_ok_active w :
  world_ok w ->
  truthy (activeConversationId (page w)) = true
  /\ exists c, activeConversation (page w) = Some c
               /\ Conversation.id c = activeConversationId (page w)
               /\ In c (conversations (page w)).
Proof.
  intros [[Hc _ Ha _ _] _].
  destruct (has_id_find _ _ Ha) as (c & F & E & Hin).
  split; [|exists c; auto].
  rewrite Forall_forall in Hc. destruct (Hc c Hin) as ((rest & Hid) & _).
  rewrite <- E, Hid. reflexivity.
Qed.

(** X3.  After a first visit and any events, every conversation of the
    page still starts with the welcome message of the agent that
    [createNewConversation] put there: messages are only added behind
    it. *)
Theorem welcome_message_stays_first r es :
  Forall (fun c => exists m rest,
                     Conversation.messages c = m :: rest
                     /\ Message.role m = agent
                     /\ Message.content m = welcome_text)
         (conversations (page (run (boot r) es))).
Proof.
  destruct (world_ok_run r es) as [[Hc _ _ _ _] _].
  eapply Forall_impl; [|exact Hc]. intros c (_ & H & _). exact H.
Qed.

(** X4.  After a first visit and any events, every title has at most 43
    units (40 and the three dots) and every preview at most 63, however
    long the messages are. *)
Theorem titles_and_previews_stay_short r es :
  Forall (fun c => js_length (Conversation.title c) <= 43
                   /\ js_length (Conversation.preview c) <= 63)
         (conversations (page (run (boot r) es))).
Proof.
  destruct (world_ok_run r es) as [[Hc _ _ _ _] _].
  eapply Forall_impl; [|exact Hc]. intros c (_ & _ & Ht & Hp).
  unfold js_length. lia.
Qed.

Lemma extends_refl c : extends c c.
Proof. split; [reflexivity|]. exists []. symmetry. apply app_nil_r. Qed.

Lemma extends_trans a b c : extends a b -> extends b c -> extends a c.
Proof.
  intros [E1 (m1 & M1)] [E2 (m2 & M2)]. split; [congruence|].
  exists (m1 ++ m2). rewrite M2, M1. symmetry. apply app_assoc.
Qed.

Lemma Forall2_extends_refl l : Forall2 extends l l.
Proof. induction l; constructor; auto using extends_refl. Qed.

Lemma Forall2_extends_trans a b c :
  Forall2 extends a b -> Forall2 extends b c -> Forall2 extends a c.
Proof.
  intros H. revert c. induction H as [|x y a b Hxy _ IH]; intros c Hc;
    inversion Hc; subst; constructor; eauto using extends_trans.
Qed.

Lemma extends_update cid m d c : extends c (updateConversation cid m d c).
Proof.
  unfold updateConversation. destruct (str_eqb _ cid); [|apply extends_refl].
  split; [reflexivity|]. exists [m]. reflexivity.
Qed.

Lemma Forall2_extends_add cid m d l :
  Forall2 extends l (addMessageToConversation cid m d l).
Proof. induction l; simpl; constructor; auto using extends_update. Qed.

Lemma step_keeps_conversations w e :
  is_reload e = false ->
  exists front kept,
    conversations (page (step w e)) = front ++ kept
    /\ Forall2 extends (conversations (page w)) kept.
Proof.
  intros Hr.
  assert (Same : forall l, l = conversations (page w) ->
            exists front kept,
              l = front ++ kept
              /\ Forall2 extends (conversations (page w)) kept).
  { intros l ->. exists [], (conversations (page w)).
    split; [reflexivity | apply Forall2_extends_refl]. }
  assert (Add : forall cid m d,
            exists front kept,
              addMessageToConversation cid m d (conversations (page w))
              = front ++ kept
              /\ Forall2 extends (conversations (page w)) kept).
  { intros cid m d.
    exists [], (addMessageToConversation cid m d (conversations (page w))).
    split; [reflexivity | apply Forall2_extends_add]. }
  assert (Send : forall mt c,
            exists front kept,
              conversations (page (send mt c w)) = front ++ kept
              /\ Forall2 extends (conversations (page w)) kept).
  { intros mt c. pose proof (send_cases mt c w) as E. cbv zeta in E.
    destruct (negb _ || negb _); rewrite E;
      [apply Same; reflexivity | apply Add]. }
  unfold step. cbn [page].
  destruct e; try discriminate; cbn [handle];
    repeat match goal with
           | |- context [if ?b then _ else _] => destruct b
           end;
    try (apply Same; reflexivity); try apply Send.
  - apply Same. unfold handleInputChange. destruct (_ <=? _); reflexivity.
  - destruct (nth_error (pending w) k); [apply Add | apply Same; reflexivity].
  - exists [createNewConversation r], (conversations (page w)).
    split; [reflexivity | apply Forall2_extends_refl].
  - apply Same. unfold handleFeatureRequest. destruct (negb _); reflexivity.
Qed.

(** X5.  No handler deletes or moves anything.  From any page, whatever
    events follow short of a reload, the conversations the page showed
    are still there, in the same order, behind the conversations made
    since; each has its id and its messages, with the later messages
    behind them. *)
Theorem nothing_is_ever_deleted w es :
  forallb (fun e => negb (is_reload e)) es = true ->
  exists front kept,
    conversations (page (run w es)) = front ++ kept
    /\ Forall2 extends (conversations (page w)) kept.
Proof.
  induction es as [|e es IH] using rev_ind; intros Hes.
  - exists [], (conversations (page w)).
    split; [reflexivity | apply Forall2_extends_refl].
  - rewrite forallb_app in Hes. apply andb_true_iff in Hes.
    destruct Hes as [Hes He]. cbn [forallb] in He.
    rewrite andb_true_r, negb_true_iff in He.
    destruct (IH Hes) as (f1 & k1 & E1 & F1).
    rewrite run_snoc.
    destruct (@step_keeps_conversations (run w es) e He)
      as (f2 & k2 & E2 & F2).
    rewrite E1 in F2. apply Forall2_app_inv_l in F2.
    destruct F2 as (k2a & k2b & _ & Fb & ->).
    exists (f2 ++ k2a), k2b. split.
    + rewrite E2. apply app_assoc.
    + eapply Forall2_extends_trans; eassumption.
Qed.

Lemma nothing_is_ever_deleted_witness :
  let es := [AgentSettles 0 (Resolved sample_success)
               (sample_clock 1700000002000);
             ClickNewChat other_readings] in
  exists front kept,
    conversations (page (run sample_world es)) = front ++ kept
    /\ Forall2 extends (conversations (page sample_world)) kept.
Proof.
  apply (@nothing_is_ever_deleted sample_world
           [AgentSettles 0 (Resolved sample_success)
              (sample_clock 1700000002000);
            ClickNewChat other_readings]).
  reflexivity.
Defined.

(** ** More on sending *)

(** X6.  A message sent from the message box is the text of the box
    without the white space before and after it, and with everything in
    between; it is never empty, and the agent is called with that text
    and the id of the support agent. *)
Theorem text_from_the_box_is_sent_trimmed c s s1 p :
  handleSendMessage_start None c s = (s1, Some p) ->
  call_message p = trim (inputValue s)
  /\ call_agent_id p = AGENT_ID
  /\ (exists before after,
        inputValue s = before ++ call_message p ++ after
        /\ blank before = true /\ blank after = true)
  /\ (exists first rest, call_message p = first :: rest
                         /\ is_white_space first = false)
  /\ (exists rest last, call_message p = rest ++ [last]
                        /\ is_white_space last = false).
Proof.
  intros H. apply handleSendMessage_start_passes in H. cbv zeta in H.
  destruct H as (Ht & _ & -> & _).
  cbn [or_else call_message call_agent_id] in *.
  destruct (trim_spec (inputValue s)) as (a & b & E & Ha & Hb & Hh & Hl).
  split; [reflexivity|]. split; [reflexivity|].
  split; [exists a, b; auto|].
  destruct (trim (inputValue s)) as [|x t] eqn:Et; [discriminate|].
  split; [exists x, t; auto|].
  destruct (rev (x :: t)) as [|y u] eqn:Er.
  - apply (f_equal (@List.length _)) in Er. rewrite length_rev in Er.
    discriminate.
  - exists (rev u), y. split; [|exact Hl].
    rewrite <- (rev_involutive (x :: t)), Er. reflexivity.
Qed.

Lemma text_from_the_box_is_sent_trimmed_witness :
  let sent := handleSendMessage_start None (sample_clock 1700000001000)
                padded_state in
  exists p,
    snd sent = Some p
    /\ call_message p = str "Where is my order?"
    /\ call_message p = trim (inputValue padded_state)
    /\ call_agent_id p = AGENT_ID
    /\ (exists before after,
          inputValue padded_state = before ++ call_message p ++ after
          /\ blank before = true /\ blank after = true)
    /\ (exists first rest, call_message p = first :: rest
                           /\ is_white_space first = false)
    /\ (exists rest last, call_message p = rest ++ [last]
                          /\ is_white_space last = false).
Proof.
  eexists. split; [reflexivity|]. split; [reflexivity|].
  apply (@text_from_the_box_is_sent_trimmed (sample_clock 1700000001000)
           padded_state _ _ eq_refl).
Defined.

(** X7.  A send and the settling of its call, with nothing appended in
    between: the active conversation holds what it held, then the user's
    message, then the reply, in this order; its preview is cut from the
    reply and its time stamp is that of the reply's append. *)
Theorem question_and_answer_follow_in_order messageText c s s1 p o c' conv :
  handleSendMessage_start messageText c s = (s1, Some p) ->
  activeConversation s = Some conv ->
  exists conv',
    activeConversation (handleSendMessage_settle p o c' s1) = Some conv'
    /\ Conversation.messages conv'
       = Conversation.messages conv
         ++ [userMessage c (call_message p); reply_message c' o]
    /\ Conversation.preview conv'
       = truncate 60 (Message.content (reply_message c' o))
    /\ Conversation.timestamp conv' = new_date_update c'.
Proof.
  intros H Hc. apply handleSendMessage_start_passes in H. cbv zeta in H.
  destruct H as (_ & _ & -> & ->).
  unfold activeConversation, handleSendMessage_settle in *.
  cbn [conversations activeConversationId setIsTyping setConversations
       setInputValue target call_message].
  rewrite !find_add, Hc. cbn [option_map].
  assert (Hid : Conversation.id conv = activeConversationId s).
  { apply find_some in Hc. apply str_eqb_eq. apply Hc. }
  eexists. split; [reflexivity|]. rewrite <- Hid.
  unfold updateConversation. rewrite str_eqb_refl.
  cbn [Conversation.id]. rewrite str_eqb_refl.
  cbn [Conversation.messages Conversation.preview Conversation.timestamp].
  rewrite <- app_assoc. repeat split.
Qed.

Lemma question_and_answer_follow_in_order_witness :
  exists conv',
    activeConversation
      (handleSendMessage_settle sample_pending (Resolved sample_success)
         (sample_clock 1700000002000) (fst sample_sent)) = Some conv'
    /\ Conversation.messages conv'
       = Conversation.messages (createNewConversation sample_readings)
         ++ [userMessage (sample_clock 1700000001000)
               (call_message sample_pending);
             reply_message (sample_clock 1700000002000)
               (Resolved sample_success)]
    /\ Conversation.preview conv'
       = truncate 60 (Message.content
                        (reply_message (sample_clock 1700000002000)
                           (Resolved sample_success)))
    /\ Conversation.timestamp conv'
       = new_date_update (sample_clock 1700000002000).
Proof.
  apply (@question_and_answer_follow_in_order None
           (sample_clock 1700000001000) sample_state (fst sample_sent)
           sample_pending (Resolved sample_success)
           (sample_clock 1700000002000)
           (createNewConversation sample_readings));
    reflexivity.
Defined.

(** X8.  After a first visit and any events there is an active
    conversation: [activeConversationId] is not empty and names a
    conversation of the list.  So the guard of [handleSendMessage] turns
    a send down for want of text only. *)
Theorem active_conversation_always_exists r es :
  let w := run (boot r) es in
  truthy (activeConversationId (page w)) = true
  /\ exists c, activeConversation (page w) = Some c
               /\ Conversation.id c = activeConversationId (page w).
Proof.
  destruct (world_ok_active (world_ok_run r es)) as (H & c & F & E & _).
  split; [exact H | exists c; auto].
Qed.

(** X9.  After a first visit and any events, Enter without Shift in a
    message box that holds more than white space always sends: one call
    is started with the trimmed text, the user's message is the last of
    the active conversation, the box is emptied and the typing flag is
    set. *)
Theorem enter_sends_what_is_in_the_box r es c :
  let w := run (boot r) es in
  blank (inputValue (page w)) = false ->
  let w' := step w (KeyDown (str "Enter") false c) in
  let text := trim (inputValue (page w)) in
  pending w' = pending w ++ [Build_Pending text AGENT_ID
                               (activeConversationId (page w))]
  /\ inputValue (page w') = []
  /\ isTyping (page w') = true
  /\ exists conv,
       In conv (conversations (page w'))
       /\ Conversation.id conv = activeConversationId (page w)
       /\ lastMessage conv = Some (userMessage c text).
Proof.
  intros w Hb w' text.
  destruct (world_ok_active (world_ok_run r es))
    as (Ha & conv & _ & Hid & Hin).
  fold w in Ha, Hid, Hin.
  pose proof (send_cases None c w) as E. cbv zeta in E.
  cbn [or_else] in E. rewrite trim_truthy, Hb, Ha in E. cbn in E.
  unfold w', step. cbn [handle].
  change (str_eqb (str "Enter") (str "Enter") && negb false) with true.
  cbv iota. rewrite E. cbn [page pending]. repeat split.
  exists (updateConversation (activeConversationId (page w))
            (userMessage c text) (new_date_update c) conv).
  split; [apply in_map; exact Hin|]. rewrite updateConversation_id.
  split; [exact Hid|].
  apply lastMessage_snoc with (ms := Conversation.messages conv).
  rewrite <- Hid. apply updateConversation_messages.
Qed.

Lemma enter_sends_what_is_in_the_box_witness :
  let w := run (boot sample_readings) [Change (str " Hello ")] in
  let w' := step w (KeyDown (str "Enter") false (sample_clock 1700000001000)) in
  blank (inputValue (page w)) = false
  /\ pending w' = [Build_Pending (str "Hello") AGENT_ID
                     (activeConversationId (page w))]
  /\ inputValue (page w') = []
  /\ isTyping (page w') = true
  /\ exists conv,
       In conv (conversations (page w'))
       /\ Conversation.id conv = activeConversationId (page w)
       /\ lastMessage conv
          = Some (userMessage (sample_clock 1700000001000) (str "Hello")).
Proof.
  split; [reflexivity|].
  apply (@enter_sends_what_is_in_the_box sample_readings
           [Change (str " Hello ")] (sample_clock 1700000001000)).
  reflexivity.
Defined.

(** X10.  While no call is pending, [handleKeyDown] does on Enter without
    Shift what a click on the send button does, also when the button is
    disabled and the click does nothing; on every other key, and on Enter
    with Shift, it does nothing. *)
Theorem enter_key_is_the_send_button_when_idle w key shiftKey c :
  isTyping (page w) = false ->
  handle w (KeyDown key shiftKey c)
  = if str_eqb key (str "Enter") && negb shiftKey
    then handle w (ClickSend c) else w.
Proof.
  intros H. cbn [handle].
  destruct (str_eqb key (str "Enter") && negb shiftKey); [|reflexivity].
  unfold send_disabled. rewrite H, orb_false_r.
  destruct (negb (truthy (trim (inputValue (page w))))) eqn:E; [|reflexivity].
  pose proof (send_cases None c w) as S. cbv zeta in S. cbn [or_else] in S.
  rewrite E in S. exact S.
Qed.

Lemma enter_key_is_the_send_button_when_idle_witness :
  let w := run (boot sample_readings) [Change (str "Hello")] in
  let c := sample_clock 1700000001000 in
  isTyping (page w) = false
  /\ handle w (KeyDown (str "Enter") false c) = handle w (ClickSend c).
Proof.
  split; [reflexivity|].
  apply (@enter_key_is_the_send_button_when_idle
           (run (boot sample_readings) [Change (str "Hello")])
           (str "Enter") false (sample_clock 1700000001000)).
  reflexivity.
Defined.

(** X11.  The send button is disabled exactly when the message box is
    empty or holds white space only, or a call is pending. *)
Theorem send_button_is_off_for_blank_text s :
  send_disabled s = blank (inputValue s) || isTyping s.
Proof.
  unfold send_disabled. rewrite trim_truthy, negb_involutive. reflexivity.
Qed.

(** X12.  After a first visit and any events, a click on a quick reply
    that is shown starts one call with the label of the reply as its
    text, whatever the message box holds; the box is emptied, and the
    quick replies are no longer shown. *)
Theorem quick_reply_sends_its_label r es reply c :
  let w := run (boot r) es in
  quick_replies_shown (page w) = true ->
  In reply QUICK_REPLIES ->
  let w' := step w (ClickQuickReply reply c) in
  pending w' = pending w ++ [Build_Pending reply AGENT_ID
                               (activeConversationId (page w))]
  /\ inputValue (page w') = []
  /\ quick_replies_shown (page w') = false.
Proof.
  intros w Hq Hin w'.
  destruct (world_ok_active (world_ok_run r es)) as (Ha & _).
  fold w in Ha.
  assert (Hr : existsb (str_eqb reply) QUICK_REPLIES = true).
  { apply existsb_exists. exists reply. split; [exact Hin | apply str_eqb_refl]. }
  assert (Ht : or_else (Some reply) (trim (inputValue (page w))) = reply).
  { simpl in Hin. destruct Hin as [<-|[<-|[<-|[<-|[]]]]]; reflexivity. }
  assert (Hn : truthy reply = true).
  { simpl in Hin. destruct Hin as [<-|[<-|[<-|[<-|[]]]]]; reflexivity. }
  pose proof (send_cases (Some reply) c w) as E. cbv zeta in E.
  rewrite Ht, Hn, Ha in E. cbn [negb orb] in E.
  unfold w', step. cbn [handle]. rewrite Hq, Hr. cbn [andb]. rewrite E.
  cbn [page pending]. repeat split.
  unfold quick_replies_shown.
  destruct (activeConversation _); [|reflexivity].
  cbn [isTyping setIsTyping]. apply andb_false_r.
Qed.

Lemma quick_reply_sends_its_label_witness :
  let w := boot sample_readings in
  let w' := step w (ClickQuickReply (str "Pricing")
                      (sample_clock 1700000001000)) in
  quick_replies_shown (page w) = true
  /\ pending w' = [Build_Pending (str "Pricing") AGENT_ID
                     (activeConversationId (page w))]
  /\ inputValue (page w') = []
  /\ quick_replies_shown (page w') = false.
Proof.
  split; [reflexivity|].
  apply (@quick_reply_sends_its_label sample_readings [] (str "Pricing")
           (sample_clock 1700000001000)); [reflexivity | left; reflexivity].
Defined.

(** X13.  After a first visit and any events, the typing indicator is
    shown only while a call is in flight: when the call settles,
    [finally] clears the flag, and nothing else sets it. *)
Theorem typing_flag_means_a_call_is_pending r es :
  let w := run (boot r) es in
  isTyping (page w) = true -> pending w <> [].
Proof.
  destruct (world_ok_run r es) as [[_ _ _ Ht _] _]. exact Ht.
Qed.

Lemma typing_flag_means_a_call_is_pending_witness :
  isTyping (page sample_world) = true /\ pending sample_world <> [].
Proof.
  split; [reflexivity|].
  apply (@typing_flag_means_a_call_is_pending sample_readings
           [Change (str "Where is my order?");
            ClickSend (sample_clock 1700000001000)]).
  reflexivity.
Defined.

(** X14.  No reply is lost.  After a first visit and any events, when a
    call in flight settles -- with an answer, a failure or a rejection --
    its reply becomes the last message of a conversation of the list, the
    one the question was sent in, whichever conversation is active by
    then; and the call is no longer in flight. *)
Theorem reply_reaches_its_conversation r es k p o c :
  let w := run (boot r) es in
  nth_error (pending w) k = Some p ->
  let w' := step w (AgentSettles k o c) in
  pending w' = remove_nth k (pending w)
  /\ exists conv,
       In conv (conversations (page w'))
       /\ Conversation.id conv = target p
       /\ lastMessage conv = Some (reply_message c o).
Proof.
  intros w Hk w'.
  destruct (world_ok_run r es) as [[_ _ _ _ Hp] _].
  fold w in Hp. rewrite Forall_forall in Hp.
  pose proof (Hp p (nth_error_In _ _ Hk)) as Hid.
  destruct (has_id_find _ _ Hid) as (conv & _ & E & Hin).
  unfold w', step. simpl. rewrite Hk. simpl. split; [reflexivity|].
  exists (updateConversation (target p) (reply_message c o)
            (new_date_update c) conv).
  split; [apply in_map; exact Hin|].
  rewrite updateConversation_id. split; [exact E|].
  apply lastMessage_snoc with (ms := Conversation.messages conv).
  rewrite <- E. apply updateConversation_messages.
Qed.

Lemma reply_reaches_its_conversation_witness :
  let w' := step sample_world
              (AgentSettles 0 Rejected (sample_clock 1700000002000)) in
  nth_error (pending sample_world) 0 = Some sample_pending
  /\ pending w' = []
  /\ exists conv,
       In conv (conversations (page w'))
       /\ Conversation.id conv = target sample_pending
       /\ lastMessage conv
          = Some (reply_message (sample_clock 1700000002000) Rejected).
Proof.
  split; [reflexivity|].
  apply (@reply_reaches_its_conversation sample_readings
           [Change (str "Where is my order?");
            ClickSend (sample_clock 1700000001000)]
           0%nat sample_pending Rejected (sample_clock 1700000002000)).
  reflexivity.
Defined.

(** ** New chat and feature requests *)

(** X15.  [handleNewConversation] puts a fresh conversation in front of
    the others and makes it the active one, also when an older
    conversation has the same id; the text in the message box and the
    calls in flight stay; the quick replies are shown unless a call is
    pending; the save effect writes the longer list. *)
Theorem new_chat_opens_a_fresh_conversation w r :
  let w' := step w (ClickNewChat r) in
  conversations (page w') = createNewConversation r :: conversations (page w)
  /\ activeConversation (page w') = Some (createNewConversation r)
  /\ quick_replies_shown (page w') = negb (isTyping (page w))
  /\ inputValue (page w') = inputValue (page w)
  /\ pending w' = pending w
  /\ storage w' = Some (conversations (page w')).
Proof.
  assert (A : activeConversation (page (step w (ClickNewChat r)))
              = Some (createNewConversation r)).
  { unfold activeConversation. cbn -[createNewConversation str_eqb].
    rewrite str_eqb_refl. reflexivity. }
  cbv zeta. split; [reflexivity|]. split; [exact A|].
  split; [|repeat split].
  unfold quick_replies_shown. rewrite A. reflexivity.
Qed.

(** X16.  [handleFeatureRequest] sends nothing anywhere: it starts no
    call and leaves the conversations, the message box and the typing
    flag alone.  With a text that is empty or white space it does nothing
    at all; with any other text it writes one line to the console,
    empties the text and closes the dialog. *)
Theorem feature_request_is_only_logged w :
  let w' := step w SubmitFeatureRequest in
  conversations (page w') = conversations (page w)
  /\ activeConversationId (page w') = activeConversationId (page w)
  /\ inputValue (page w') = inputValue (page w)
  /\ isTyping (page w') = isTyping (page w)
  /\ pending w' = pending w
  /\ if blank (featureRequestText (page w))
     then page w' = page w /\ console w' = console w
     else showFeatureRequest (page w') = false
          /\ featureRequestText (page w') = []
          /\ console w' = console w ++ [str "Feature request submitted:"].
Proof.
  cbv zeta. unfold step. cbn [handle]. unfold handleFeatureRequest.
  rewrite trim_truthy, negb_involutive.
  destruct (blank (featureRequestText (page w))); cbn; repeat split.
  apply app_nil_r.
Qed.

(** ** More on local storage *)

Lemma storable_fresh r :
  readings_ok r -> conversation_storable (createNewConversation r).
Proof.
  intros [Hm Hc]. split; [exact Hc|].
  constructor; [|constructor]. split; [exact Hm | repeat split].
Qed.

Lemma storable_update cid m d c :
  in_Date_range d -> message_storable m ->
  conversation_storable c ->
  conversation_storable (updateConversation cid m d c).
Proof.
  intros Hd Hm [Hc Hms]. unfold updateConversation.
  destruct (str_eqb _ cid); [|split; assumption].
  split; [exact Hd|]. cbn [Conversation.messages].
  apply Forall_app. split; [exact Hms | constructor; [exact Hm | constructor]].
Qed.

Lemma storable_add cid m d l :
  in_Date_range d -> message_storable m ->
  Forall conversation_storable l ->
  Forall conversation_storable (addMessageToConversation cid m d l).
Proof.
  intros Hd Hm H. unfold addMessageToConversation. apply Forall_map.
  eapply Forall_impl; [|exact H]. intros c. apply storable_update; assumption.
Qed.

Lemma storable_userMessage c text :
  clock_ok c -> message_storable (userMessage c text).
Proof. intros [Hm _]. split; [exact Hm | repeat split]. Qed.

Lemma storable_reply c o :
  clock_ok c -> outcome_ok o -> message_storable (reply_message c o).
Proof.
  intros [Hm _] Ho.
  assert (E : forall text, message_storable (errorMessage c text)).
  { intros text. split; [exact Hm | repeat split]. }
  destruct o as [result|]; [|apply E]. cbn [reply_message outcome_ok] in *.
  destruct (AgentResult.success result); [|apply E].
  destruct (AgentResult.response result) as [response|]; [|apply E].
  cbv zeta in Ho. destruct Ho as (Hc & Hs & Hw).
  unfold agentMessage, message_storable, numbers_finite.
  cbn [Message.timestamp Message.confidence Message.sources].
  destruct (SupportResult.confidence (SupportResponse.result response));
    try contradiction.
  destruct Hc as [Hd Hov].
  split; [exact Hm|]. split; [split; assumption|]. split; assumption.
Qed.

Lemma storable_send messageText c w :
  clock_ok c ->
  Forall conversation_storable (conversations (page w)) ->
  Forall conversation_storable (conversations (page (send messageText c w))).
Proof.
  intros Hc H. unfold send, handleSendMessage_start.
  destruct (negb _ || negb _); simpl; [exact H|].
  apply storable_add; [apply Hc | apply storable_userMessage, Hc | exact H].
Qed.

Lemma storable_handle w e :
  storage w = Some (conversations (page w)) ->
  event_ok e ->
  Forall conversation_storable (conversations (page w)) ->
  Forall conversation_storable (conversations (page (handle w e))).
Proof.
  intros Hs He H.
  destruct e; cbn [handle event_ok] in *;
    repeat match goal with
           | |- context [if ?b then _ else _] => destruct b
           end;
    try exact H; try (apply storable_send; assumption).
  - unfold handleInputChange. destruct (_ <=? _); exact H.
  - destruct He as [Hc Ho].
    destruct (nth_error (pending w) k); [|exact H]. simpl.
    apply storable_add; [apply Hc | apply storable_reply; assumption | exact H].
  - simpl. constructor; [apply storable_fresh, He | exact H].
  - unfold handleFeatureRequest. destruct (negb _); exact H.
  - simpl. rewrite Hs. unfold mount.
    destruct (conversations (page w)) as [|c0 l]; [|exact H].
    constructor; [apply storable_fresh, He | constructor].
Qed.

Lemma storable_run w es :
  world_ok w -> Forall event_ok es ->
  Forall conversation_storable (conversations (page w)) ->
  Forall conversation_storable (conversations (page (run w es))).
Proof.
  revert w. induction es as [|e es IH]; intros w Hw He H; [exact H|].
  inversion He as [|e' es' He1 He2]; subst. cbn [run fold_left].
  apply IH; [apply world_ok_step, Hw | exact He2 |].
  unfold step. cbn [page]. apply storable_handle; [apply Hw | exact He1 | exact H].
Qed.

(** X18.  A reload reads back what was saved.  After a first visit and
    any events whose dates are in the range of [Date] and whose agent
    results carry finite numbers, the load effect, run on the text the
    save effect writes for the list of the page, ends normally with that
    very list and with its first conversation as the active one, and logs
    nothing.  This is the page the [Reload] of the transition system
    shows. *)
Theorem reload_reads_back_what_was_saved r es r' item :
  readings_ok r -> Forall event_ok es ->
  let w := run (boot r) es in
  let convs := conversations (page w) in
  load_effect Platform.JSON_parse Platform.new_Date
    (save_effect_js Platform.JSON_text Platform.toISOString
       (map conversation_to_js convs) item)
    r' empty_store
  = (Normal tt,
     mkStore (map conversation_to_js convs)
             (VStr (activeConversationId (page (step w (Reload r'))))) [])
  /\ conversations (page (step w (Reload r'))) = convs
  /\ Some (activeConversationId (page (step w (Reload r'))))
     = option_map Conversation.id (hd_error convs).
Proof.
  intros Hr He w convs.
  assert (Hw : world_ok w) by apply world_ok_run.
  assert (Hst : Forall conversation_storable convs).
  { apply storable_run; [apply world_ok_boot | exact He |].
    constructor; [apply storable_fresh, Hr | constructor]. }
  destruct Hw as [[_ Hn _ _ _] Hs]. fold convs in Hn, Hs.
  assert (E : page (step w (Reload r')) = mount (Some convs) r').
  { unfold step. cbn [handle page]. rewrite Hs. reflexivity. }
  rewrite E. unfold mount.
  destruct convs as [|c0 l] eqn:Ec; [contradiction|].
  cbn [activeConversationId conversations hd_error option_map].
  split; [|split; reflexivity].
  assert (Hj : Platform.json_ok
                 (JArr (map (conversation_json Platform.toISOString)
                            (c0 :: l)))).
  { constructor. apply Forall_forall. intros x Hx. apply in_map_iff in Hx.
    destruct Hx as (c & <- & Hin). apply storable_conversation_json.
    rewrite Forall_forall in Hst. auto. }
  destruct (PlatformFacts.JSON_parse_written Hj) as [Ht Hp].
  apply (@load_effect_reads_back Platform.JSON_parse Platform.JSON_text
           Platform.toISOString Platform.new_Date (c0 :: l) item r');
    [discriminate | exact Ht | exact Hp | |].
  - eapply Forall_impl; [|exact Hst]. apply storable_dates.
  - eapply Forall_impl; [|exact Hst]. apply storable_numbers.
Qed.

Lemma reload_reads_back_what_was_saved_witness :
  let w := run (boot sample_readings) sample_events in
  let convs := conversations (page w) in
  load_effect Platform.JSON_parse Platform.new_Date
    (save_effect_js Platform.JSON_text Platform.toISOString
       (map conversation_to_js convs) None)
    other_readings empty_store
  = (Normal tt,
     mkStore (map conversation_to_js convs)
             (VStr (activeConversationId
                      (page (step w (Reload other_readings))))) [])
  /\ conversations (page (step w (Reload other_readings))) = convs
  /\ Some (activeConversationId (page (step w (Reload other_readings))))
     = option_map Conversation.id (hd_error convs).
Proof.
  apply (@reload_reads_back_what_was_saved sample_readings sample_events
           other_readings None).
  - split; unfold in_Date_range; simpl; lia.
  - unfold sample_events.
    repeat first
      [ apply Forall_nil
      | apply Forall_cons
      | progress unfold event_ok, clock_ok, outcome_ok, in_Date_range
      | progress cbn [new_date_message new_date_update sample_clock
                      sample_success sample_response AgentResult.response
                      SupportResponse.result SupportResult.confidence
                      SupportResult.sources]
      | apply conj
      | exact I
      | lia
      | reflexivity
      | apply Platform.ok_str
      | apply Platform.ok_num
      | (apply Platform.ok_obj;
         [cbn [map fst]; repeat constructor; cbn [In]; tauto|]) ].
Defined.

Section LoadFacts.

Variable JSON_parse : jsstring -> completion json.
Variable JSON_text : json -> jsstring.
Variable toISOString : Z -> jsstring.
Variable new_Date : jsval -> completion (option Z).

(** X19.  Stored text that is JSON but no list -- an object, a number,
    [true], a string that is not empty -- makes [parsed.map] throw inside
    the [try] block: the exception is logged, [JSON.parse(stored).length]
    is not [0], and the page is left without any conversation and without
    an active one.  The save effect does not write an empty list, so the
    item stays as it is. *)
Theorem non_list_in_storage_leaves_no_conversation stored j r :
  truthy stored = true ->
  JSON_parse stored = Normal j ->
  no_list j = true ->
  load_effect JSON_parse new_Date (Some stored) r empty_store
  = (Normal tt,
     mkStore [] (VStr [])
       [(str "Failed to parse stored conversations:", TypeError)])
  /\ save_effect_js JSON_text toISOString [] (Some stored) = Some stored.
Proof.
  intros Ht Hp Hn. split; [|reflexivity].
  unfold load_effect. rewrite Ht.
  unfold bind, try_catch, eval, ret. rewrite Hp.
  destruct j as [ | b | n | s | l | props ]; try discriminate;
    cbn [of_json call_map negb console_error] in *;
    unfold no_list in Hn;
    destruct (get _ (str "length")) as [len|e]; try discriminate;
    cbn [negb]; rewrite (negb_true_iff _) in Hn; rewrite Hn; reflexivity.
Qed.

(** X20.  Stored text [null] is valid JSON: [parsed.map] throws inside
    the [try] block and is logged, and [JSON.parse(stored).length] throws
    again outside of it.  The effect ends with a [TypeError] and no
    conversation. *)
Theorem null_in_storage_makes_load_throw stored r :
  truthy stored = true ->
  JSON_parse stored = Normal JNull ->
  load_effect JSON_parse new_Date (Some stored) r empty_store
  = (Throw TypeError,
     mkStore [] (VStr [])
       [(str "Failed to parse stored conversations:", TypeError)]).
Proof.
  intros Ht Hp. unfold load_effect. rewrite Ht.
  unfold bind, try_catch, eval, ret. rewrite Hp. reflexivity.
Qed.

(** X21.  A stored empty list is answered with a first conversation,
    which becomes the active one; nothing is logged. *)
Theorem empty_list_in_storage_is_replaced stored r :
  truthy stored = true ->
  JSON_parse stored = Normal (JArr []) ->
  load_effect JSON_parse new_Date (Some stored) r empty_store
  = (Normal tt,
     mkStore [conversation_to_js (createNewConversation r)]
             (VStr (Conversation.id (createNewConversation r))) []).
Proof.
  intros Ht Hp. unfold load_effect. rewrite Ht.
  unfold bind, try_catch, eval, ret. rewrite Hp. reflexivity.
Qed.

Lemma revive_conversation_needs_messages x :
  has_messages_list x = false ->
  exists e, revive_conversation new_Date (of_json x) = Throw e.
Proof.
  intros H. unfold revive_conversation.
  destruct x as [ | b | n | s | l | props ]; cbn [of_json get bindC];
    try (eexists; reflexivity);
    try (destruct (new_Date _) as [d|e]; cbn [bindC]; eexists; reflexivity).
  - destruct (str_eqb _ _); cbn [bindC];
      destruct (new_Date _) as [d|e]; cbn [bindC]; eexists; reflexivity.
  - destruct (str_eqb _ _); cbn [bindC];
      destruct (new_Date _) as [d|e]; cbn [bindC]; eexists; reflexivity.
  - destruct (new_Date _) as [d|e]; cbn [bindC]; [|eexists; reflexivity].
    unfold has_messages_list in H.
    destruct (get_own _ (str "messages")); try discriminate;
      eexists; reflexivity.
Qed.

Lemma revive_conversations_stop l :
  existsb (fun x => negb (has_messages_list x)) l = true ->
  exists e, mapC (revive_conversation new_Date) (map of_json l) = Throw e.
Proof.
  induction l as [|x l IH]; simpl; [discriminate|].
  intros H.
  destruct (revive_conversation new_Date (of_json x)) as [v|e] eqn:E;
    [|eexists; reflexivity].
  destruct (has_messages_list x) eqn:Ex.
  - destruct (IH H) as (e & ->). eexists; reflexivity.
  - destruct (revive_conversation_needs_messages _ Ex) as (e & Ee).
    congruence.
Qed.

(** X22.  One damaged entry costs the whole list.  When the stored list
    has an element without a list of messages, the callback of
    [parsed.map] throws before [setConversations] is reached: the
    exception is logged, no stored conversation is shown, and since the
    stored list is not empty no first conversation is made either. *)
Theorem one_damaged_conversation_discards_them_all stored l r :
  truthy stored = true ->
  JSON_parse stored = Normal (JArr l) ->
  existsb (fun x => negb (has_messages_list x)) l = true ->
  exists e,
    load_effect JSON_parse new_Date (Some stored) r empty_store
    = (Normal tt,
       mkStore [] (VStr [])
         [(str "Failed to parse stored conversations:", e)]).
Proof.
  intros Ht Hp Hb.
  destruct (revive_conversations_stop _ Hb) as (e & M).
  exists e. unfold load_effect. rewrite Ht.
  unfold bind, try_catch, eval, ret. rewrite Hp.
  cbn [of_json call_map]. rewrite M.
  destruct l as [|x l]; [discriminate|]. reflexivity.
Qed.

End LoadFacts.

Lemma non_list_in_storage_leaves_no_conversation_witness :
  load_effect Platform.JSON_parse Platform.new_Date (Some (str "{}"))
    sample_readings empty_store
  = (Normal tt,
     mkStore [] (VStr [])
       [(str "Failed to parse stored conversations:", TypeError)])
  /\ save_effect_js Platform.JSON_text Platform.toISOString []
       (Some (str "{}"))
     = Some (str "{}").
Proof.
  apply (@non_list_in_storage_leaves_no_conversation Platform.JSON_parse
           Platform.JSON_text Platform.toISOString Platform.new_Date
           (str "{}") (JObj []) sample_readings); reflexivity.
Defined.

Lemma null_in_storage_makes_load_throw_witness :
  load_effect Platform.JSON_parse Platform.new_Date (Some (str "null"))
    sample_readings empty_store
  = (Throw TypeError,
     mkStore [] (VStr [])
       [(str "Failed to parse stored conversations:", TypeError)]).
Proof.
  apply (@null_in_storage_makes_load_throw Platform.JSON_parse
           Platform.new_Date (str "null") sample_readings); reflexivity.
Defined.

Lemma empty_list_in_storage_is_replaced_witness :
  load_effect Platform.JSON_parse Platform.new_Date (Some (str " [ ] "))
    sample_readings empty_store
  = (Normal tt,
     mkStore [conversation_to_js (createNewConversation sample_readings)]
       (VStr (Conversation.id (createNewConversation sample_readings))) []).
Proof.
  apply (@empty_list_in_storage_is_replaced Platform.JSON_parse
           Platform.new_Date (str " [ ] ") sample_readings); reflexivity.
Defined.

Lemma one_damaged_conversation_discards_them_all_witness :
  exists e,
    load_effect Platform.JSON_parse Platform.new_Date
      (Some (str "[{}, 7]")) sample_readings empty_store
    = (Normal tt,
       mkStore [] (VStr [])
         [(str "Failed to parse stored conversations:", e)]).
Proof.
  apply (@one_damaged_conversation_discards_them_all Platform.JSON_parse
           Platform.new_Date (str "[{}, 7]") [JObj []; JNum (7 # 1)]
           sample_readings); reflexivity.
Defined.

(** ** The sidebar *)

Lemma starts_with_spec q s : starts_with q s = true <-> exists b, s = q ++ b.
Proof.
  revert s. induction q as [|x q IH]; intros s; simpl.
  - split; [intros _; exists s; reflexivity | reflexivity].
  - destruct s as [|y s].
    + split; [discriminate | intros (b & E); discriminate].
    + rewrite andb_true_iff, N.eqb_eq, IH. split.
      * intros (-> & b & ->). exists b. reflexivity.
      * intros (b & E). injection E as -> ->.
        split; [reflexivity | exists b; reflexivity].
Qed.

(** [includes] tells whether the text occurs as a contiguous part. *)
Lemma includes_spec s q : includes s q = true <-> exists a b, s = a ++ q ++ b.
Proof.
  induction s as [|c s IH]; simpl; rewrite orb_true_iff, starts_with_spec.
  - split.
    + intros [(b & E) | H]; [exists [], b; exact E | discriminate].
    + intros (a & b & E). left.
      destruct a; [exists b; exact E | discriminate].
  - rewrite IH. split.
    + intros [(b & E) | (a & b & E)].
      * exists [], b. exact E.
      * exists (c :: a), b. rewrite E. reflexivity.
    + intros (a & b & E). destruct a as [|x a].
      * left. exists b. exact E.
      * right. injection E as _ E. exists a, b. exact E.
Qed.

Section SidebarFacts.

Variable toLowerCase : jsstring -> jsstring.

(** X23.  With an empty search text the sidebar lists every conversation,
    in the order of the list.  ([toLowerCase] gives the empty string for
    the empty string.) *)
Theorem empty_search_lists_every_conversation s :
  toLowerCase [] = [] ->
  searchQuery s = [] ->
  filteredConversations toLowerCase s = conversations s.
Proof.
  intros He Hq. unfold filteredConversations, matches_search. rewrite Hq, He.
  induction (conversations s) as [|c l IH]; simpl; [reflexivity|].
  assert (E : includes (toLowerCase (Conversation.title c)) [] = true).
  { destruct (toLowerCase (Conversation.title c)); reflexivity. }
  rewrite E. simpl. rewrite IH. reflexivity.
Qed.

(** X24.  The sidebar lists a conversation exactly when the search text,
    in lower case, occurs as a contiguous part of its title or of its
    preview in lower case.  The messages themselves are not searched. *)
Theorem search_lists_what_contains_the_text s conv :
  In conv (filteredConversations toLowerCase s)
  <-> In conv (conversations s)
      /\ exists field before after,
           (field = Conversation.title conv
            \/ field = Conversation.preview conv)
           /\ toLowerCase field
              = before ++ toLowerCase (searchQuery s) ++ after.
Proof.
  unfold filteredConversations, matches_search.
  rewrite filter_In, orb_true_iff, !includes_spec.
  split; intros [Hin H]; (split; [exact Hin|]).
  - destruct H as [(a & b & E) | (a & b & E)]; eauto 8.
  - destruct H as (field & a & b & [-> | ->] & E); eauto.
Qed.

End SidebarFacts.

Lemma empty_search_lists_every_conversation_witness :
  filteredConversations toLowerCase_ascii (page sample_world)
  = conversations (page sample_world).
Proof.
  apply (@empty_search_lists_every_conversation toLowerCase_ascii
           (page sample_world)); reflexivity.
Defined.

(** ** Sources in the message bubble *)

Lemma after_literal_spec lit s s' :
  after_literal lit s = Some s' <-> s = lit ++ s'.
Proof.
  revert s. induction lit as [|x lit IH]; intros s; simpl.
  - split; [intros [= ->]; reflexivity | intros ->; reflexivity].
  - destruct s as [|y s]; [split; discriminate|].
    destruct (N.eqb_spec x y) as [->|Hn].
    + rewrite IH. split; [intros ->; reflexivity | intros [= ->]; reflexivity].
    + split; [discriminate | intros [= E _]; congruence].
Qed.

Lemma non_space_run_spec s :
  exists rest, s = non_space_run s ++ rest
               /\ no_space (non_space_run s) = true /\ stops_at_space rest.
Proof.
  induction s as [|c s (rest & E & Hn & Hr)]; simpl.
  - exists []. repeat split.
  - destruct (is_white_space c) eqn:Hc.
    + exists (c :: s). repeat split. exact Hc.
    + exists rest. unfold no_space in *. cbn [forallb app]. rewrite Hc, Hn.
      repeat split; [congruence | exact Hr].
Qed.

Lemma non_space_run_all body rest :
  no_space body = true -> stops_at_space rest ->
  non_space_run (body ++ rest) = body.
Proof.
  intros Hb Hr. unfold no_space in Hb.
  induction body as [|c body IH]; cbn [app non_space_run forallb] in *.
  - destruct rest as [|c rest]; [reflexivity|].
    cbn [non_space_run stops_at_space] in *. rewrite Hr. reflexivity.
  - apply andb_true_iff in Hb. destruct Hb as [Hc Hb].
    apply negb_true_iff in Hc. rewrite Hc, IH by assumption. reflexivity.
Qed.

Lemma match_tail_spec scheme s m :
  match_tail scheme s = Some m ->
  exists body rest,
    s = str "://" ++ body ++ rest /\ m = scheme ++ str "://" ++ body
    /\ body <> [] /\ no_space body = true /\ stops_at_space rest.
Proof.
  unfold match_tail.
  destruct (after_literal (str "://") s) as [s'|] eqn:E; [|discriminate].
  apply after_literal_spec in E.
  destruct (non_space_run_spec s') as (rest & Es & Hn & Hr).
  destruct (non_space_run s') as [|c run]; [discriminate|].
  intros [= <-]. exists (c :: run), rest.
  repeat split; try assumption; [|discriminate].
  rewrite E. f_equal. exact Es.
Qed.

Lemma match_here_spec s m :
  match_here s = Some m ->
  exists rest, s = m ++ rest /\ url_shaped m /\ stops_at_space rest.
Proof.
  unfold match_here.
  destruct (after_literal (str "http") s) as [r|] eqn:E; [|discriminate].
  apply after_literal_spec in E. subst s.
  assert (Plain : match_tail (str "http") r = Some m ->
            exists rest, str "http" ++ r = m ++ rest /\ url_shaped m
                         /\ stops_at_space rest).
  { intros H. apply match_tail_spec in H.
    destruct H as (body & rest & -> & -> & Hb & Hn & Hr).
    exists rest. split; [|split; [|exact Hr]].
    - change (str "http" ++ str "://" ++ body ++ rest)
        with (str "http://" ++ body ++ rest).
      change (str "http" ++ str "://" ++ body) with (str "http://" ++ body).
      rewrite <- app_assoc. reflexivity.
    - exists (str "http://"), body. auto. }
  destruct r as [|c r']; [exact Plain|].
  destruct (N.eqb_spec c 115) as [->|Hc].
  - destruct (match_tail (str "https") r') as [m'|] eqn:T; [|exact Plain].
    intros [= <-]. apply match_tail_spec in T.
    destruct T as (body & rest & -> & -> & Hb & Hn & Hr).
    exists rest. split; [|split; [|exact Hr]].
    + change (str "https" ++ str "://" ++ body) with (str "https://" ++ body).
      rewrite <- app_assoc. reflexivity.
    + exists (str "https://"), body. auto.
  - intros H. apply Plain.
    destruct c as [|p]; [exact H|].
    do 7 (destruct p as [p|p|]; try exact H). congruence.
Qed.

Lemma urlMatch_spec s m :
  urlMatch s = Some m ->
  exists before rest,
    s = before ++ m ++ rest /\ url_shaped m /\ stops_at_space rest.
Proof.
  induction s as [|c s IH]; cbn [urlMatch].
  - discriminate.
  - destruct (match_here (c :: s)) as [m'|] eqn:E.
    + intros [= ->]. apply match_here_spec in E.
      destruct E as (rest & E & Hm & Hr). exists [], rest. auto.
    + intros H. destruct (IH H) as (before & rest & -> & Hm & Hr).
      exists (c :: before), rest. auto.
Qed.

Lemma match_here_complete body rest scheme :
  scheme = str "http://" \/ scheme = str "https://" ->
  body <> [] -> no_space body = true -> stops_at_space rest ->
  match_here (scheme ++ body ++ rest) = Some (scheme ++ body).
Proof.
  intros Hs Hb Hn Hr.
  assert (T : forall sch, match_tail sch (str "://" ++ body ++ rest)
                          = Some (sch ++ str "://" ++ body)).
  { intros sch. unfold match_tail.
    change (after_literal (str "://") (str "://" ++ body ++ rest))
      with (Some (body ++ rest)).
    cbv iota beta. rewrite non_space_run_all by assumption.
    destruct body; [contradiction | reflexivity]. }
  destruct Hs as [-> | ->].
  - change (match_here (str "http://" ++ body ++ rest))
      with (match_tail (str "http") (str "://" ++ body ++ rest)).
    rewrite T. reflexivity.
  - change (match_here (str "https://" ++ body ++ rest))
      with (match match_tail (str "https") (str "://" ++ body ++ rest) with
            | Some m => Some m
            | None => match_tail (str "http") (str "s://" ++ body ++ rest)
            end).
    rewrite T. reflexivity.
Qed.

Lemma urlMatch_found before s :
  (exists m, match_here s = Some m) ->
  exists m, urlMatch (before ++ s) = Some m.
Proof.
  intros (m & H).
  induction before as [|c before (m' & IH)]; cbn [app urlMatch].
  - exists m. destruct s; cbn [urlMatch]; rewrite H; reflexivity.
  - destruct (match_here (c :: before ++ s)) as [m''|]; eauto.
Qed.

Lemma urlMatch_here s m : match_here s = Some m -> urlMatch s = Some m.
Proof. intros H. destruct s; cbn [urlMatch]; rewrite H; reflexivity. Qed.

Lemma match_here_other c s : c <> 104%N -> match_here (c :: s) = None.
Proof.
  intros H. unfold match_here. cbn [str list_ascii_of_string map after_literal].
  change (N_of_ascii "h") with 104%N.
  destruct (N.eqb_spec 104 c); [congruence | reflexivity].
Qed.

Lemma urlMatch_skip before s :
  forallb (fun c => negb (c =? 104)%N) before = true ->
  urlMatch (before ++ s) = urlMatch s.
Proof.
  induction before as [|c before IH]; [reflexivity|].
  cbn [forallb app urlMatch]. rewrite andb_true_iff, negb_true_iff.
  intros [Hc Hb]. apply N.eqb_neq in Hc.
  rewrite (match_here_other _ Hc). apply IH, Hb.
Qed.

Section BubbleFacts.

Variable JSON_text : json -> jsstring.

(** X25.  When [MessageBubble] renders a source as a link, the text of
    the link is the whole source text, and its target is a contiguous
    part of that text: [http://] or [https://], then at least one unit
    and no white space, up to the next white space or the end of the
    text. *)
Theorem link_target_is_the_address_in_the_text source href text :
  render_source JSON_text source = Link href text ->
  text = match source with JStr s => s | _ => JSON_text source end
  /\ exists before rest,
       text = before ++ href ++ rest
       /\ url_shaped href /\ stops_at_space rest.
Proof.
  unfold render_source.
  set (sourceText := match source with JStr s => s | _ => JSON_text source end).
  destruct (urlMatch sourceText) as [m|] eqn:E; [|discriminate].
  intros [= <- <-]. split; [reflexivity|]. apply urlMatch_spec, E.
Qed.

(** X26.  A source is rendered as a link exactly when its text holds
    [http://] or [https://], in lower case, followed by a unit that is
    not white space; every other source is a paragraph. *)
Theorem source_is_a_link_when_it_holds_an_address source :
  let text := match source with JStr s => s | _ => JSON_text source end in
  (exists href, render_source JSON_text source = Link href text)
  <-> exists before scheme c rest,
        text = before ++ scheme ++ c :: rest
        /\ (scheme = str "http://" \/ scheme = str "https://")
        /\ is_white_space c = false.
Proof.
  intros text. unfold render_source. fold text. split.
  - intros (href & H). destruct (urlMatch text) as [m|] eqn:E; [|discriminate].
    injection H as ->. apply urlMatch_spec in E.
    destruct E
      as (before & rest & -> & (scheme & body & -> & Hs & Hb & Hn) & _).
    destruct body as [|c body]; [contradiction|].
    exists before, scheme, c, (body ++ rest). split; [|split; [exact Hs|]].
    + rewrite <- !app_assoc. reflexivity.
    + unfold no_space in Hn. cbn [forallb] in Hn.
      apply andb_true_iff in Hn. apply negb_true_iff, Hn.
  - intros (before & scheme & c & rest & E & Hs & Hc).
    destruct (non_space_run_spec rest) as (rest' & Er & Hn & Hr).
    assert (M : exists m, urlMatch text = Some m).
    { rewrite E, Er. apply urlMatch_found. eexists.
      apply (@match_here_complete (c :: non_space_run rest) rest' scheme);
        [exact Hs | discriminate | | exact Hr].
      unfold no_space in *. cbn [forallb]. rewrite Hc, Hn. reflexivity. }
    destruct M as (m & ->). exists m. reflexivity.
Qed.

End BubbleFacts.

Lemma link_target_is_the_address_in_the_text_witness :
  exists before rest,
    str "see https://example.com/help for more"
    = before ++ str "https://example.com/help" ++ rest
    /\ url_shaped (str "https://example.com/help")
    /\ stops_at_space rest.
Proof.
  exact (proj2 (@link_target_is_the_address_in_the_text Platform.JSON_text
                  (JStr (str "see https://example.com/help for more"))
                  (str "https://example.com/help")
                  (str "see https://example.com/help for more") eq_refl)).
Defined.

Lemma escape_unit_plain c : plain_unit c = true -> Platform.escape_unit c = [c].
Proof.
  unfold plain_unit. rewrite !andb_true_iff, !negb_true_iff.
  intros ((((H32 & H34) & H92) & Hs) & _).
  unfold Platform.escape_unit. rewrite H34, H92, H32, Hs.
  apply N.ltb_ge in H32.
  repeat match goal with
         | |- context [(c =? ?k)%N] =>
             destruct (N.eqb_spec c k); [lia|]
         end.
  reflexivity.
Qed.

Lemma quote_units_plain s :
  forallb plain_unit s = true -> Platform.quote_units s = s.
Proof.
  induction s as [|c s IH]; [reflexivity|].
  cbn [forallb]. rewrite andb_true_iff. intros [Hc Hs].
  destruct s as [|d s].
  - apply escape_unit_plain, Hc.
  - rewrite PlatformFacts.quote_units_pair, (escape_unit_plain _ Hc), IH
      by exact Hs.
    unfold plain_unit in Hc. rewrite !andb_true_iff, !negb_true_iff in Hc.
    destruct Hc as ((_ & Hsur) & _). apply orb_false_iff in Hsur.
    destruct Hsur as [-> _]. reflexivity.
Qed.

Lemma plain_no_space s : forallb plain_unit s = true -> no_space s = true.
Proof.
  unfold no_space. induction s as [|c s IH]; [reflexivity|]. cbn [forallb].
  rewrite !andb_true_iff. intros [Hc Hs]. split; [|apply IH, Hs].
  unfold plain_unit in Hc. rewrite !andb_true_iff in Hc. apply Hc.
Qed.

(** X27.  A source that is not a string is shown as its JSON text, and
    the pattern runs on to the next white space: for an object with one
    property that holds an address, the target of the link is the
    address with the closing quote and brace of the JSON text behind
    it. *)
Theorem address_inside_an_object_takes_the_punctuation_along key scheme body :
  scheme = str "http://" \/ scheme = str "https://" ->
  forallb plain_unit key = true ->
  forallb (fun c => negb (c =? 104)%N) key = true ->
  forallb plain_unit body = true ->
  render_source Platform.JSON_text (JObj [(key, JStr (scheme ++ body))])
  = Link (scheme ++ body ++ [34; 125]%N)
         ([123; 34]%N ++ key ++ [34; 58; 34]%N ++ scheme ++ body
          ++ [34; 125]%N).
Proof.
  intros Hs Hk Hh Hb.
  assert (Hu : forallb plain_unit (scheme ++ body) = true).
  { rewrite forallb_app, Hb, andb_true_r. destruct Hs as [-> | ->]; reflexivity. }
  assert (T : Platform.JSON_text (JObj [(key, JStr (scheme ++ body))])
              = [123; 34]%N ++ key ++ [34; 58; 34]%N ++ scheme ++ body
                ++ [34; 125]%N).
  { cbn [Platform.JSON_text map Platform.join fst snd]. unfold Platform.quote.
    rewrite !quote_units_plain by assumption.
    cbn [app]. rewrite <- !app_assoc. cbn [app]. rewrite <- !app_assoc.
    reflexivity. }
  unfold render_source. rewrite T.
  replace (urlMatch ([123; 34]%N ++ key ++ [34; 58; 34]%N ++ scheme ++ body
                     ++ [34; 125]%N))
    with (Some (scheme ++ body ++ [34; 125]%N)); [reflexivity|].
  symmetry.
  rewrite (urlMatch_skip [123; 34]%N) by reflexivity.
  rewrite (urlMatch_skip key) by exact Hh.
  rewrite (urlMatch_skip [34; 58; 34]%N) by reflexivity.
  apply urlMatch_here.
  rewrite <- (app_nil_r (body ++ [34; 125]%N)) at 1.
  apply match_here_complete; [exact Hs | | | exact I].
  - destruct body; discriminate.
  - unfold no_space. rewrite forallb_app. fold (no_space body).
    rewrite (plain_no_space _ Hb). reflexivity.
Qed.

Lemma address_inside_an_object_takes_the_punctuation_along_witness :
  render_source Platform.JSON_text
    (JObj [(str "url", JStr (str "https://" ++ str "example.com/faq"))])
  = Link (str "https://" ++ str "example.com/faq" ++ [34; 125]%N)
         ([123; 34]%N ++ str "url" ++ [34; 58; 34]%N ++ str "https://"
          ++ str "example.com/faq" ++ [34; 125]%N).
Proof.
  apply (@address_inside_an_object_takes_the_punctuation_along (str "url")
           (str "https://") (str "example.com/faq"));
    [right; reflexivity | reflexivity | reflexivity | reflexivity].
Defined.
